(** * Vector.h: a growable array over a manually managed buffer

    A shallow embedding of [Vector<E>] (src/include/Vector.h).  The object
    fields [n], [N], [pv] form a record; the arrays obtained from [new E[]]
    live in a heap of blocks, so that ownership, aliasing and [delete[]]
    are visible.  Every function is a state transformer whose outcome is a
    value, a C++ exception, undefined behaviour or a failed [assert].

    How the source is read:
    - [int] is a 32-bit signed integer; an arithmetic result outside its
      range is undefined behaviour;
    - [insert] and [remove] declare a parameter [iterator pos] that their
      bodies never mention; the bodies work on an index [i], which their
      documentation describes as the parameter, and [i] is the argument of
      the embedded functions;
    - a default-constructed element is a fixed value [E0], which both
      [new E[N]()] and [new E[N]] put in every slot.  For a class type
      that is what the two expressions do; for a scalar type [new E[N]]
      (the copy constructor and [reserve]) leaves the slots indeterminate,
      so what the model says of the slots from [size()] on of such an
      array holds for class types only.  The theorems below do not rely
      on the value of such a slot;
    - [std::next] of a null pointer is the null pointer; in the code that
      is so for a step of 0 only, any other step is undefined.  The
      results below are about vectors that own an array, and about
      accesses through a null pointer, which are undefined either way;
    - moving an element leaves the source slot with its value;
    - [assert] is compiled in. *)

From stdpp Require Import base numbers list gmap strings pretty.

Open Scope Z_scope.

(** ** Outcomes of running a piece of code *)

Inductive exn :=
| out_of_range (what : string)   (* std::out_of_range(what) *)
| bad_array_new_length.          (* thrown by new E[count] for count < 0 *)

Inductive result (S A : Type) :=
| Ret (a : A) (s : S)        (* normal completion *)
| Raise (e : exn) (s : S)    (* an exception leaves the function, state as it was at the throw *)
| Undef                      (* undefined behaviour: wild access, signed overflow *)
| Aborted.                   (* a failed assert *)
Arguments Ret {S A} a s.
Arguments Raise {S A} e s.
Arguments Undef {S A}.
Arguments Aborted {S A}.

Definition M (S A : Type) : Type := S -> result S A.

Definition ret {S A} (a : A) : M S A := fun s => Ret a s.

Definition bind {S A B} (m : M S A) (k : A -> M S B) : M S B :=
  fun s =>
    match m s with
    | Ret a s' => k a s'
    | Raise e s' => Raise e s'
    | Undef => Undef
    | Aborted => Aborted
    end.

Definition throw {S A} (e : exn) : M S A := fun s => Raise e s.
Definition undef {S A} : M S A := fun _ => Undef.
Definition assert {S} (b : bool) : M S unit :=
  fun s => if b then Ret tt s else Aborted.

Notation "x <- m ;; k" := (bind m (fun x => k))
  (at level 100, m at next level, right associativity, only parsing).
Notation "m ;;; k" := (bind m (fun _ => k))
  (at level 100, right associativity, only parsing).

(** ** The type [int] *)

Definition INT_MAX : Z := 2147483647.
Definition INT_MIN : Z := -2147483648.

Definition in_int (z : Z) : bool := (INT_MIN <=? z) && (z <=? INT_MAX).

(** The value of a signed arithmetic expression: overflow is undefined. *)
Definition int {S} (z : Z) : M S Z :=
  if in_int z then ret z else undef.

(** ** Pointers and the heap of arrays *)

Definition block := positive.

Record ptr := Ptr { blk : block; off : Z }.

(** [None] is [nullptr]. *)
Definition pointer := option ptr.

(** [std::next(p, k)], that is [p + k]; on [nullptr] the code is defined
    for [k = 0] only, and the model answers [nullptr] for every [k]. *)
Definition next (p : pointer) (k : Z) : pointer :=
  match p with
  | Some q => Some (Ptr (blk q) (off q + k))
  | None => None
  end.

(** [std::prev(p)]. *)
Definition prev (p : pointer) : pointer := next p (-1).

(** How many increments take [first] to [last]; [None] when no number does,
    and a loop [while (first != last)] runs off the array. *)
Definition distance (first last : pointer) : option nat :=
  match first, last with
  | None, None => Some 0%nat
  | Some a, Some b =>
      if decide (blk a = blk b) then
        if off a <=? off b then Some (Z.to_nat (off b - off a)) else None
      else None
  | _, _ => None
  end.

Section vector.

(** The element type, and the value a default-constructed element has. *)
Context {E : Type} (E0 : E).

(** The heap maps the live blocks to their arrays. *)
Abbreviation heap := (gmap block (list E)).

(** [new E[count]]: a fresh array of [count] default elements. *)
Definition new_array (count : Z) : M heap pointer :=
  fun h =>
    if count <? 0 then Raise bad_array_new_length h
    else
      let b := fresh (dom h) in
      Ret (Some (Ptr b 0)) (<[b := replicate (Z.to_nat count) E0]> h).

(** [delete[] p]: nothing for [nullptr], frees a live array given its first
    element, undefined otherwise (double free, interior pointer). *)
Definition delete_array (p : pointer) : M heap unit :=
  fun h =>
    match p with
    | None => Ret tt h
    | Some q =>
        match h !! blk q with
        | Some _ => if off q =? 0 then Ret tt (delete (blk q) h) else Undef
        | None => Undef
        end
    end.

(** Reading [*p]. *)
Definition load (p : pointer) : M heap E :=
  fun h =>
    match p with
    | None => Undef
    | Some q =>
        match h !! blk q with
        | Some arr =>
            if 0 <=? off q then
              match arr !! Z.to_nat (off q) with
              | Some x => Ret x h
              | None => Undef
              end
            else Undef
        | None => Undef
        end
    end.

(** Writing [*p = x]. *)
Definition store (p : pointer) (x : E) : M heap unit :=
  fun h =>
    match p with
    | None => Undef
    | Some q =>
        match h !! blk q with
        | Some arr =>
            if (0 <=? off q) && (off q <? Z.of_nat (length arr)) then
              Ret tt (<[blk q := <[Z.to_nat (off q) := x]> arr]> h)
            else Undef
        | None => Undef
        end
    end.

(** ** The algorithms of <algorithm> the class uses *)

(** The loop of [std::copy]: [while (first != last) *d_first++ = *first++;]
    with the trip count computed beforehand. *)
Fixpoint copy_loop (k : nat) (first d_first : pointer) : M heap pointer :=
  match k with
  | O => ret d_first
  | S k' =>
      x <- load first ;;
      store d_first x ;;;
      copy_loop k' (next first 1) (next d_first 1)
  end.

Definition std_copy (first last d_first : pointer) : M heap pointer :=
  match distance first last with
  | Some k => copy_loop k first d_first
  | None => undef
  end.

(** [std::move(first, last, d_first)] has the loop of [std::copy] with a
    move assignment; a moved-from element keeps its value here, which is
    what a trivially movable [E] such as [int] does. *)
Definition std_move (first last d_first : pointer) : M heap pointer :=
  std_copy first last d_first.

(** The loop of [std::move_backward]:
    [while (first != last) { --last; --d_last; *d_last = std::move( *last ); }] *)
Fixpoint move_backward_loop (k : nat) (last d_last : pointer) : M heap pointer :=
  match k with
  | O => ret d_last
  | S k' =>
      let last' := prev last in
      let d_last' := prev d_last in
      x <- load last' ;;
      store d_last' x ;;;
      move_backward_loop k' last' d_last'
  end.

Definition std_move_backward (first last d_last : pointer) : M heap pointer :=
  match distance first last with
  | Some k => move_backward_loop k last d_last
  | None => undef
  end.

(** ** The class *)

Definition DEFAULT_CAPACITY : Z := 10.

Record Vector := mkVector {
  n : Z;         (* int n: number of elements *)
  N : Z;         (* int N: capacity *)
  pv : pointer   (* E* pv: the array *)
}.

Definition with_n (z : Z) (v : Vector) : Vector := mkVector z (N v) (pv v).
Definition with_pv (p : pointer) (v : Vector) : Vector := mkVector (n v) (N v) p.

(** A member function runs on the object [*this] and the heap. *)
Definition st : Type := Vector * heap.

Definition this : M st Vector := fun s => Ret (fst s) s.
Definition put_this (v : Vector) : M st unit := fun s => Ret tt (v, snd s).
Definition put_n (z : Z) : M st unit := fun s => Ret tt (with_n z (fst s), snd s).

(** A heap operation inside a member function. *)
Definition mem {A} (m : M heap A) : M st A :=
  fun s =>
    match m (snd s) with
    | Ret a h => Ret a (fst s, h)
    | Raise e h => Raise e (fst s, h)
    | Undef => Undef
    | Aborted => Aborted
    end.

(** A member function called on another object [obj]; the object as the
    call leaves it is returned with the value. *)
Definition call {A} (obj : Vector) (m : M st A) : M heap (A * Vector) :=
  fun h =>
    match m (obj, h) with
    | Ret a s => Ret (a, fst s) (snd s)
    | Raise e s => Raise e (snd s)
    | Undef => Undef
    | Aborted => Aborted
    end.

(** [bool valid(int i) const] *)
Definition valid (i : Z) (v : Vector) : bool := (0 <=? i) && (i <? n v).

Definition size (v : Vector) : Z := n v.
Definition capacity (v : Vector) : Z := N v.
Definition empty (v : Vector) : bool := n v =? 0.
Definition begin (v : Vector) : pointer := pv v.
Definition end_ (v : Vector) : pointer := next (pv v) (n v).

(** [Vector(int count)] *)
Definition Vector_new (count : Z) : M heap Vector :=
  p <- new_array count ;;
  ret (mkVector 0 count p).

(** [Vector(const Vector& that)] *)
Definition Vector_copy (that : Vector) : M heap Vector :=
  p <- new_array (N that) ;;
  let v := mkVector (n that) (N that) p in
  std_copy (begin that) (end_ that) (begin v) ;;;
  ret v.

(** [Vector(Vector&& that)]: the new object, and [that] as it is left. *)
Definition Vector_move (that : Vector) : Vector * Vector :=
  (mkVector (n that) (N that) (pv that), with_pv None that).

(** [~Vector()] *)
Definition Vector_delete (v : Vector) : M heap unit := delete_array (pv v).

(** [void swap(Vector& that)]: returns [that] as the call leaves it. *)
Definition swap (that : Vector) : M st Vector :=
  v <- this ;;
  put_this (mkVector (n that) (N that) (pv that)) ;;;
  ret (mkVector (n v) (N v) (pv v)).

(** [void reserve(int count)] *)
Definition reserve (count : Z) : M st unit :=
  v <- this ;;
  assert (size v <=? count) ;;;
  tmp <- mem (Vector_new count) ;;
  mem (std_move (begin v) (end_ v) (begin tmp)) ;;;
  tmp <- swap (with_n (n v) tmp) ;;
  mem (Vector_delete tmp).

(** The reference [operator[](i)] returns, that is [*std::next(begin(), i)]. *)
Definition subscript (i : Z) (v : Vector) : pointer := next (begin v) i.

(** [void insert_back(E elem)] *)
Definition insert_back (elem : E) : M st unit :=
  v <- this ;;
  (if n v =? N v then (c <- int (N v * 2) ;; reserve c) else ret tt) ;;;
  v <- this ;;
  n' <- int (n v + 1) ;;
  put_n n' ;;;
  mem (store (subscript (n v) v) elem).

(** [void insert(iterator pos, E elem)].  The body never mentions [pos]: it
    works on an index [i], the parameter its documentation describes, which
    is taken as the argument here. *)
Definition insert (i : Z) (elem : E) : M st unit :=
  v <- this ;;
  if i =? n v then insert_back elem
  else if negb (valid i v) then
    throw (out_of_range "Vector::insert() i out of range.")
  else
    (if n v =? N v then (c <- int (N v * 2) ;; reserve c) else ret tt) ;;;
    v <- this ;;
    e <- int (n v + 1) ;;
    mem (std_move_backward (next (begin v) i) (end_ v) (next (begin v) e)) ;;;
    mem (store (subscript i v) elem) ;;;
    n' <- int (n v + 1) ;;
    put_n n'.

(** [void remove_back()] *)
Definition remove_back : M st unit :=
  v <- this ;;
  if empty v then throw (out_of_range "Vector::remove_back")
  else if (0 <? n v) && (n v =? N v ÷ 4) then reserve (N v ÷ 2)
  else ret tt.

(** [void remove(iterator pos)], on the index [i] as for [insert]. *)
Definition remove (i : Z) : M st unit :=
  v <- this ;;
  l <- int (n v - 1) ;;
  if i =? l then remove_back
  else if negb (valid i v) then
    throw (out_of_range "Vector::remove() i out of range.")
  else
    i' <- int (i + 1) ;;
    mem (std_move (next (begin v) i') (end_ v) (next (begin v) i)) ;;;
    n' <- int (n v - 1) ;;
    put_n n' ;;;
    v <- this ;;
    if (0 <? n v) && (n v =? N v ÷ 4) then reserve (N v ÷ 2) else ret tt.

(** [const E& at(int i) const]: the reference is returned as a pointer. *)
Definition at_ (i : Z) : M st pointer :=
  v <- this ;;
  if negb (valid i v) then throw (out_of_range "Vector::at")
  else ret (subscript i v).

(** [const E& front() const] *)
Definition front : M st pointer :=
  v <- this ;;
  if empty v then throw (out_of_range "Vector::front")
  else ret (begin v).

(** [const E& back() const] *)
Definition back : M st pointer :=
  v <- this ;;
  if empty v then throw (out_of_range "Vector::back")
  else ret (prev (end_ v)).

(** [void clear()] *)
Definition clear : M st unit := put_n 0.

(** [Vector& operator=(Vector that)]: the parameter object as it is left. *)
Definition operator_assign (that : Vector) : M st Vector := swap that.

(** [x = y] for an lvalue [y]: the parameter is copy-constructed from [y],
    and destroyed when the call is over. *)
Definition assign_from (y : Vector) : M st unit :=
  that <- mem (Vector_copy y) ;;
  that <- operator_assign that ;;
  mem (Vector_delete that).

(** What a [const Vector&] argument refers to: the object the member
    function runs on, or another one. *)
Inductive vref := Self | Other (v : Vector).

Definition deref (r : vref) : M st Vector :=
  match r with
  | Self => this
  | Other v => ret v
  end.

(** [Vector& operator+=(const Vector& that)] *)
Definition operator_plus_eq (that : vref) : M st unit :=
  v <- this ;;
  t <- deref that ;;
  c <- int (N v + N t) ;;
  reserve c ;;;
  v <- this ;;
  t <- deref that ;;
  mem (std_copy (begin t) (end_ t) (end_ v)) ;;;
  t <- deref that ;;
  s <- int (n v + n t) ;;
  put_n s.

(** [Vector operator+(Vector lhs, const Vector& rhs)]: [lhs] is the
    function's own object; the result is move-constructed from it, then
    [lhs] is destroyed. *)
Definition operator_plus (lhs : Vector) (rhs : Vector) : M heap Vector :=
  r <- call lhs (operator_plus_eq (Other rhs)) ;;
  let (res, lhs') := Vector_move (snd r) in
  Vector_delete lhs' ;;;
  ret res.

(** [a + b] for lvalues: [lhs] is copy-constructed from [a]. *)
Definition concatenate (a b : Vector) : M heap Vector :=
  lhs <- Vector_copy a ;;
  operator_plus lhs b.

(** ** Client code *)

(** [Vector<E> v(count);] followed by the member calls [m] on [v]. *)
Definition client {A} (count : Z) (m : M st A) : M heap (A * Vector) :=
  v <- Vector_new count ;;
  call v m.

(** [m] called [k] times in a row. *)
Fixpoint iterate (k : nat) (m : M st unit) : M st unit :=
  match k with
  | O => ret tt
  | S k' => m ;;; iterate k' m
  end.

(** [insert_back] of each element of [xs], first to last. *)
Fixpoint insert_back_all (xs : list E) : M st unit :=
  match xs with
  | [] => ret tt
  | x :: xs' => insert_back x ;;; insert_back_all xs'
  end.

(** The element a reference denotes. *)
Definition read (r : M st pointer) : M st E :=
  p <- r ;; mem (load p).

(** The elements of [v], first to one past the last: what a traversal from
    [begin()] to [end()] sees. *)
Definition elements (v : Vector) (h : heap) : option (list E) :=
  match pv v with
  | Some q =>
      match h !! blk q with
      | Some arr =>
          if (off q =? 0) && (0 <=? n v) && (n v <=? Z.of_nat (length arr))
          then Some (take (Z.to_nat (n v)) arr) else None
      | None => None
      end
  | None => None
  end.

(** ** Programs over several vectors *)

(** The vectors of a program, in the order they were created, and the heap
    their arrays live in. *)
Record world := World { objs : list Vector; hp : heap }.

(** The public operations; [j] and [k] index the program's vectors. *)
Inductive op :=
| Create                                 (* Vector<E> w; *)
| InsertBack (k : nat) (x : E)           (* v_k.insert_back(x) *)
| Insert (k : nat) (i : Z) (x : E)       (* v_k.insert(i, x) *)
| Remove (k : nat) (i : Z)               (* v_k.remove(i) *)
| RemoveBack (k : nat)                   (* v_k.remove_back() *)
| Clear (k : nat)                        (* v_k.clear() *)
| Swap (j k : nat)                       (* v_j.swap(v_k) *)
| Assign (j k : nat)                     (* v_j = v_k *)
| Append (j k : nat)                     (* v_j += v_k *)
| Concat (j k : nat).                    (* Vector<E> w = v_j + v_k; *)

(** A member function run on the [k]-th vector. *)
Definition on (k : nat) (m : M st unit) : M world unit :=
  fun w =>
    match objs w !! k with
    | Some v =>
        match m (v, hp w) with
        | Ret _ s => Ret tt (World (<[k := fst s]> (objs w)) (snd s))
        | Raise e s => Raise e (World (<[k := fst s]> (objs w)) (snd s))
        | Undef => Undef
        | Aborted => Aborted
        end
    | None => Undef
    end.

(** A heap operation that makes a new vector of the program. *)
Definition declare (m : M heap Vector) : M world unit :=
  fun w =>
    match m (hp w) with
    | Ret v h => Ret tt (World (objs w ++ [v]) h)
    | Raise e h => Raise e (World (objs w) h)
    | Undef => Undef
    | Aborted => Aborted
    end.

Definition exec (o : op) : M world unit :=
  fun w =>
    match o with
    | Create => declare (Vector_new DEFAULT_CAPACITY) w
    | InsertBack k x => on k (insert_back x) w
    | Insert k i x => on k (insert i x) w
    | Remove k i => on k (remove i) w
    | RemoveBack k => on k remove_back w
    | Clear k => on k clear w
    | Swap j k =>
        match objs w !! j, objs w !! k with
        | Some vj, Some vk =>
            match swap vk (vj, hp w) with
            | Ret vk' s =>
                Ret tt (World (<[k := vk']> (<[j := fst s]> (objs w))) (snd s))
            | Raise e s => Raise e w
            | Undef => Undef
            | Aborted => Aborted
            end
        | _, _ => Undef
        end
    | Assign j k =>
        match objs w !! k with
        | Some vk => on j (assign_from vk) w
        | None => Undef
        end
    | Append j k =>
        if decide (j = k) then on j (operator_plus_eq Self) w
        else
          match objs w !! k with
          | Some vk => on j (operator_plus_eq (Other vk)) w
          | None => Undef
          end
    | Concat j k =>
        match objs w !! j, objs w !! k with
        | Some vj, Some vk => declare (concatenate vj vk) w
        | _, _ => Undef
        end
    end.

(** A sequence of operations; an exception is caught by the caller, and the
    program goes on from the state the throw left. *)
Fixpoint run (ops : list op) : M world unit :=
  match ops with
  | [] => ret tt
  | o :: ops' =>
      fun w =>
        match exec o w with
        | Ret _ w' => run ops' w'
        | Raise _ w' => run ops' w'
        | Undef => Undef
        | Aborted => Aborted
        end
  end.

(** ** The vocabulary of the specifications *)

(** [dst] with the elements [xs] written from position [d] on. *)
Definition splice (dst : list E) (d : nat) (xs : list E) : list E :=
  take d dst ++ xs ++ drop (d + length xs) dst.

(** [v] owns the live block [b], whose array [arr] has [N v] slots, the
    first [n v] of them in use. *)
Record owns (v : Vector) (h : heap) (b : block) (arr : list E) : Prop := {
  owns_pv : pv v = Some (Ptr b 0);
  owns_live : h !! b = Some arr;
  owns_len : Z.of_nat (length arr) = N v;
  owns_n : 0 <= n v <= N v;
  owns_N : N v <= INT_MAX
}.

Definition wf (v : Vector) (h : heap) : Prop := exists b arr, owns v h b arr.

(** The array [reserve] leaves behind: the elements in use, then default
    ones up to the new capacity. *)
Definition moved_into (count : Z) (len : Z) (arr : list E) : list E :=
  take (Z.to_nat len) arr ++ replicate (Z.to_nat (count - len)) E0.

(** The state [reserve count] leaves: the object, the heap, the block the
    object owns and that block's array. *)
Definition resized (v : Vector) (h : heap) (b : block) (arr : list E) (count : Z)
  : Vector * heap * block * list E :=
  let b' := fresh (dom h) in
  let arr' := moved_into count (n v) arr in
  (mkVector (n v) count (Some (Ptr b' 0)), delete b (<[b' := arr']> h), b', arr').

(** The state after [if (n == N) reserve(N * 2);]. *)
Definition grown (v : Vector) (h : heap) (b : block) (arr : list E)
  : Vector * heap * block * list E :=
  if n v =? N v then resized v h b arr (N v * 2) else (v, h, b, arr).

(** The state after [if (n > 0 && n == N / 4) reserve(N / 2);]. *)
Definition shrunk (v : Vector) (h : heap) (b : block) (arr : list E)
  : Vector * heap * block * list E :=
  if (0 <? n v) && (n v =? N v ÷ 4) then resized v h b arr (N v ÷ 2)
  else (v, h, b, arr).

(** The array after the elements from [i] on have moved one slot toward the
    tail and [x] has been written at [i]. *)
Definition shifted_in (arr : list E) (i len : Z) (x : E) : list E :=
  <[Z.to_nat i := x]>
    (splice arr (Z.to_nat (i + 1))
       (take (Z.to_nat (len - i)) (drop (Z.to_nat i) arr))).

(** The array after the elements behind [i] have moved one slot toward the
    head. *)
Definition shifted_out (arr : list E) (i len : Z) : list E :=
  splice arr (Z.to_nat i)
    (take (Z.to_nat (len - (i + 1))) (drop (Z.to_nat (i + 1)) arr)).

(** Every vector owns a live array of its capacity, which is at least
    [lo], and no two vectors own the same array. *)
Definition inv (lo : Z) (w : world) : Prop :=
  (forall k v, objs w !! k = Some v ->
     exists b arr, owns v (hp w) b arr /\ lo <= N v) /\
  (forall j k vj vk, objs w !! j = Some vj -> objs w !! k = Some vk ->
     pv vj = pv vk -> j = k).

(** What a member function on a vector owning [b] may do to the heap: the
    vector's array is then [b] or a block that was not live, and the other
    blocks are as they were. *)
Definition frame (h : heap) (b : block) (h' : heap) (b' : block) : Prop :=
  (b' = b \/ h !! b' = None) /\
  (forall q, q <> b -> q <> b' -> h' !! q = h !! q).

(** The outcome [r] of a member function leaves the vector well-formed with
    a capacity of at least 2. *)
Definition step_ok (h : heap) (b : block) (r : result st unit) : Prop :=
  match r with
  | Ret _ s | Raise _ s =>
      exists b' arr', owns (fst s) (snd s) b' arr' /\ 2 <= N (fst s) /\
                      frame h b (snd s) b'
  | Undef | Aborted => True
  end.

(** ** The rest of the interface *)

(** The element comparison [operator==] of [E], and the text [os << x]
    writes for an element. *)
Context (eqE : E -> E -> bool) (show : E -> string).

(** [E& operator[](int i)]: the reference, with no check. *)
Definition operator_index (i : Z) : M st pointer :=
  v <- this ;;
  ret (subscript i v).

(** An assignment through a reference: [v.at(i) = x], [v[i] = x]. *)
Definition write (r : M st pointer) (x : E) : M st unit :=
  p <- r ;; mem (store p x).

(** [x = std::move(y)]: the parameter of [operator=] is move-constructed
    from [y], swapped with [x] and destroyed; returns [y] as it is left. *)
Definition move_assign_from (y : Vector) : M st Vector :=
  let (that, y') := Vector_move y in
  that <- operator_assign that ;;
  mem (Vector_delete that) ;;;
  ret y'.

(** The loop of [std::equal]:
    [for (; first1 != last1; ++first1, ++first2)
       if (!( *first1 == *first2 )) return false;
     return true;] *)
Fixpoint equal_loop (k : nat) (first1 first2 : pointer) : M heap bool :=
  match k with
  | O => ret true
  | S k' =>
      x <- load first1 ;;
      y <- load first2 ;;
      if eqE x y then equal_loop k' (next first1 1) (next first2 1)
      else ret false
  end.

Definition std_equal (first1 last1 first2 : pointer) : M heap bool :=
  match distance first1 last1 with
  | Some k => equal_loop k first1 first2
  | None => undef
  end.

(** Whether a [const Vector&] argument is the object itself. *)
Definition same_object (r : vref) : bool :=
  match r with
  | Self => true
  | Other _ => false
  end.

(** [bool operator==(const Vector& lhs, const Vector& rhs)], with [lhs] the
    object the function runs on. *)
Definition operator_eq (rhs : vref) : M st bool :=
  lhs <- this ;;
  r <- deref rhs ;;
  if same_object rhs then ret true
  else if negb (size lhs =? size r) then ret false
  else mem (std_equal (begin lhs) (end_ lhs) (begin r)).

(** [bool operator!=(const Vector& lhs, const Vector& rhs)] *)
Definition operator_ne (rhs : vref) : M st bool :=
  b <- operator_eq rhs ;;
  ret (negb b).

(** The loop of [operator<<]: [for (auto i : vector) os << i << " ";] with
    the stream as the text written so far. *)
Fixpoint print_loop (k : nat) (it : pointer) (os : string) : M heap string :=
  match k with
  | O => ret os
  | S k' =>
      i <- load it ;;
      print_loop k' (next it 1) ((os +:+ show i) +:+ " ")
  end.

(** [std::ostream& operator<<(std::ostream& os, const Vector& vector)] *)
Definition operator_shl (os : string) (vector : Vector) : M heap string :=
  match distance (begin vector) (end_ vector) with
  | Some k => print_loop k (begin vector) os
  | None => undef
  end.

(** ** More vocabulary *)

(** Element by element, [operator==] of [E] holds along two lists. *)
Fixpoint all_eq (l1 l2 : list E) : bool :=
  match l1, l2 with
  | x :: l1', y :: l2' => eqE x y && all_eq l1' l2'
  | _, _ => true
  end.

(** Each element's text followed by a space. *)
Fixpoint shown (l : list E) : string :=
  match l with
  | [] => ""
  | x :: l' => show x +:+ " " +:+ shown l'
  end.

(** The live blocks of a program are the arrays of its vectors. *)
Definition no_leak (w : world) : Prop :=
  forall q, is_Some (hp w !! q) ->
    exists k v, objs w !! k = Some v /\ pv v = Some (Ptr q 0).

(** What a member function on a vector owning [b] leaves in the heap: the
    array updated in place, or moved to the block [new E[]] returns, with
    [b] freed. *)
Definition reshaped (h : heap) (b : block) (s : st) : Prop :=
  exists arr',
    (snd s = <[b := arr']> h /\ pv (fst s) = Some (Ptr b 0)) \/
    (snd s = delete b (<[fresh (dom h) := arr']> h) /\
     pv (fst s) = Some (Ptr (fresh (dom h)) 0)).

Definition step_reshaped (h : heap) (b : block) (r : result st unit) : Prop :=
  match r with
  | Ret _ s | Raise _ s => reshaped h b s
  | Undef | Aborted => True
  end.

(** A vector with no room left: two elements in an array of two slots. *)
Definition full_vector : Vector := mkVector 2 2 (Some (Ptr 1%positive 0)).
Definition full_array (x y : E) : list E := [x; y].
Definition full_heap (x y : E) : heap := {[1%positive := full_array x y]}.

(** ** Sample states *)

(** A vector of three elements in an array of four slots, block 1. *)
Definition sample_vector : Vector := mkVector 3 4 (Some (Ptr 1%positive 0)).
Definition sample_array (x y z : E) : list E := [x; y; z; E0].
Definition sample_heap (x y z : E) : heap := {[1%positive := sample_array x y z]}.

(** A second vector, of one element in an array of two slots, block 2. *)
Definition other_vector : Vector := mkVector 1 2 (Some (Ptr 2%positive 0)).
Definition other_array (u : E) : list E := [u; E0].
Definition both_heap (x y z u : E) : heap :=
  <[2%positive := other_array u]> (sample_heap x y z).

(** * Proofs *)

(** ** Arrays as lists *)

Lemma length_splice dst d xs :
  (d + length xs <= length dst)%nat -> length (splice dst d xs) = length dst.
Proof.
  intros H. unfold splice.
  rewrite !length_app, length_take, length_drop. lia.
Qed.

Lemma lookup_splice dst d xs j :
  (d + length xs <= length dst)%nat ->
  splice dst d xs !! j =
    if decide (j < d)%nat then dst !! j
    else if decide (j < d + length xs)%nat then xs !! (j - d)%nat
    else dst !! j.
Proof.
  intros H. unfold splice.
  destruct (decide (j < d)%nat) as [Hj|Hj].
  - rewrite lookup_app_l by (rewrite length_take; lia).
    apply lookup_take_lt. lia.
  - rewrite lookup_app_r by (rewrite length_take; lia).
    rewrite length_take, Nat.min_l by lia.
    destruct (decide (j < d + length xs)%nat) as [Hk|Hk].
    + apply lookup_app_l. lia.
    + rewrite lookup_app_r by lia. rewrite lookup_drop. f_equal. lia.
Qed.

Lemma splice_nil dst d : splice dst d [] = dst.
Proof.
  unfold splice. simpl. rewrite Nat.add_0_r. apply take_drop.
Qed.

(** Writing [x] at [d] and the rest behind it is writing [x :: ys] at [d]. *)
Lemma splice_insert_head dst d x ys :
  (d + S (length ys) <= length dst)%nat ->
  splice (<[d := x]> dst) (S d) ys = splice dst d (x :: ys).
Proof.
  intros H. apply list_eq. intros j.
  rewrite !lookup_splice by (rewrite ?length_insert; simpl; lia).
  simpl length.
  repeat case_decide; try lia.
  - rewrite list_lookup_insert_ne by lia. done.
  - assert (j = d) as -> by lia.
    rewrite list_lookup_insert_eq by lia.
    replace (d - d)%nat with 0%nat by lia. done.
  - replace (j - d)%nat with (S (j - S d)) by lia. done.
  - rewrite list_lookup_insert_ne by lia. done.
Qed.

(** Writing [x] behind [ys] is writing [ys ++ [x]]. *)
Lemma splice_insert_last dst d x ys :
  (d + S (length ys) <= length dst)%nat ->
  splice (<[(d + length ys)%nat := x]> dst) d ys = splice dst d (ys ++ [x]).
Proof.
  intros H. apply list_eq. intros j.
  rewrite !lookup_splice by (rewrite ?length_insert, ?length_app; simpl; lia).
  rewrite length_app. simpl length.
  repeat case_decide; try lia.
  - rewrite list_lookup_insert_ne by lia. done.
  - rewrite lookup_app_l by lia. done.
  - assert (j = d + length ys)%nat as -> by lia.
    rewrite list_lookup_insert_eq by lia.
    rewrite lookup_app_r by lia.
    replace (d + length ys - d - length ys)%nat with 0%nat by lia. done.
  - rewrite list_lookup_insert_ne by lia. done.
Qed.

(** A write outside the window [[s, s+k)] does not change what the window
    holds. *)
Lemma window_insert_outside (l : list E) (s k j : nat) x :
  (j < s \/ s + k <= j)%nat ->
  take k (drop s (<[j := x]> l)) = take k (drop s l).
Proof.
  intros H. apply list_eq. intros i.
  destruct (decide (i < k)%nat) as [Hi|Hi].
  - rewrite !lookup_take_lt, !lookup_drop by lia.
    apply list_lookup_insert_ne. lia.
  - rewrite !lookup_take_ge by lia. done.
Qed.

Lemma window_length (l : list E) (s k : nat) :
  (s + k <= length l)%nat -> length (take k (drop s l)) = k.
Proof. intros H. rewrite length_take, length_drop. lia. Qed.

Lemma window_S_head (l : list E) (s k : nat) x :
  l !! s = Some x ->
  take (S k) (drop s l) = x :: take k (drop (S s) l).
Proof.
  intros H. rewrite (drop_S _ _ _ H). done.
Qed.

Lemma window_S_last (l : list E) (s k : nat) x :
  l !! (s + k)%nat = Some x ->
  take (S k) (drop s l) = take k (drop s l) ++ [x].
Proof.
  intros H. apply take_S_r. rewrite lookup_drop. done.
Qed.

(** ** Running monadic code *)

Lemma bind_Ret {S A B} (m : M S A) (k : A -> M S B) s a s' :
  m s = Ret a s' -> bind m k s = k a s'.
Proof. intros H. unfold bind. rewrite H. done. Qed.

Lemma mem_Ret {A} (m : M heap A) v h a h' :
  m h = Ret a h' -> mem m (v, h) = Ret a (v, h').
Proof. intros H. unfold mem. simpl. rewrite H. done. Qed.

Lemma mem_Undef {A} (m : M heap A) v h :
  m h = Undef -> mem m (v, h) = Undef.
Proof. intros H. unfold mem. simpl. rewrite H. done. Qed.

Lemma int_Ret {S} z (s : S) :
  INT_MIN <= z <= INT_MAX -> int z s = Ret z s.
Proof.
  intros H. unfold int, in_int.
  destruct (Z.leb_spec INT_MIN z); [|lia].
  destruct (Z.leb_spec z INT_MAX); [|lia].
  done.
Qed.

Lemma bind_int {S B} z (k : Z -> M S B) (s : S) :
  INT_MIN <= z <= INT_MAX -> bind (int z) k s = k z s.
Proof. intros H. apply bind_Ret, int_Ret, H. Qed.

Lemma bind_this {B} (k : Vector -> M st B) v h :
  bind this k (v, h) = k v (v, h).
Proof. done. Qed.

Lemma bind_put_n {B} z (k : unit -> M st B) v h :
  bind (put_n z) k (v, h) = k tt (with_n z v, h).
Proof. done. Qed.

Lemma bind_mem {A B} (m : M heap A) (k : A -> M st B) v h a h' :
  m h = Ret a h' -> bind (mem m) k (v, h) = k a (v, h').
Proof. intros H. apply bind_Ret, mem_Ret, H. Qed.

(** ** Memory accesses inside a live array *)

Lemma load_spec (h : heap) b arr (i : nat) x :
  h !! b = Some arr -> arr !! i = Some x ->
  load (Some (Ptr b (Z.of_nat i))) h = Ret x h.
Proof.
  intros Hb Hi. unfold load. simpl. rewrite Hb.
  destruct (Z.leb_spec 0 (Z.of_nat i)); [|lia].
  rewrite Nat2Z.id, Hi. done.
Qed.

Lemma store_spec (h : heap) b arr (i : nat) x :
  h !! b = Some arr -> (i < length arr)%nat ->
  store (Some (Ptr b (Z.of_nat i))) x h = Ret tt (<[b := <[i := x]> arr]> h).
Proof.
  intros Hb Hi. unfold store. simpl. rewrite Hb.
  destruct (Z.leb_spec 0 (Z.of_nat i)); [|lia].
  destruct (Z.ltb_spec (Z.of_nat i) (Z.of_nat (length arr))); [|lia].
  simpl. rewrite Nat2Z.id. done.
Qed.

Lemma load_at (h : heap) b arr (i : Z) x :
  h !! b = Some arr -> 0 <= i -> arr !! Z.to_nat i = Some x ->
  load (Some (Ptr b i)) h = Ret x h.
Proof.
  intros Hb H0 Hi. rewrite <- (Z2Nat.id i) by lia.
  eapply load_spec; done.
Qed.

Lemma store_at (h : heap) b arr (i : Z) x :
  h !! b = Some arr -> 0 <= i < Z.of_nat (length arr) ->
  store (Some (Ptr b i)) x h = Ret tt (<[b := <[Z.to_nat i := x]> arr]> h).
Proof.
  intros Hb Hi. rewrite <- (Z2Nat.id i) at 1 by lia.
  eapply store_spec; [done|lia].
Qed.

(** A store outside the array is undefined, whatever the array holds. *)
Lemma store_outside (h : heap) b arr (i : Z) x :
  h !! b = Some arr -> Z.of_nat (length arr) <= i ->
  store (Some (Ptr b i)) x h = Undef.
Proof.
  intros Hb Hi. unfold store. simpl. rewrite Hb.
  destruct (Z.ltb_spec i (Z.of_nat (length arr))); [lia|].
  rewrite andb_false_r. done.
Qed.

(** ** The loops *)

(** A forward copy of [k] elements from [src] at [s] to [dst] at [d] writes
    the window of [src] into [dst], provided no source element is
    overwritten before it is read. *)
Lemma copy_loop_spec (k : nat) :
  forall (h : heap) bs bd src dst (s d : nat),
    h !! bs = Some src -> h !! bd = Some dst ->
    (s + k <= length src)%nat -> (d + k <= length dst)%nat ->
    (bs <> bd \/ d <= s \/ s + k <= d)%nat ->
    copy_loop k (Some (Ptr bs (Z.of_nat s))) (Some (Ptr bd (Z.of_nat d))) h
    = Ret (Some (Ptr bd (Z.of_nat (d + k))))
          (<[bd := splice dst d (take k (drop s src))]> h).
Proof.
  induction k as [|k IH]; intros h bs bd src dst s d Hs Hd Ls Ld Hov.
  - simpl. rewrite splice_nil, insert_id by done.
    rewrite Nat.add_0_r. done.
  - destruct (lookup_lt_is_Some_2 src s) as [x Hx]; [lia|].
    assert (Hdl : (d < length dst)%nat) by lia.
    simpl copy_loop.
    rewrite (bind_Ret _ _ _ _ _ (load_spec _ _ _ _ _ Hs Hx)).
    rewrite (bind_Ret _ _ _ _ _ (store_spec _ _ _ _ x Hd Hdl)).
    simpl next.
    replace (Z.of_nat s + 1) with (Z.of_nat (S s)) by lia.
    replace (Z.of_nat d + 1) with (Z.of_nat (S d)) by lia.
    set (h1 := <[bd := <[d := x]> dst]> h).
    assert (Hd1 : h1 !! bd = Some (<[d := x]> dst))
      by (unfold h1; apply lookup_insert_eq).
    assert (Hw : take (S k) (drop s src) = x :: take k (drop (S s) src))
      by (apply window_S_head; done).
    assert (Hlen : length (take k (drop (S s) src)) = k)
      by (apply window_length; lia).
    destruct (decide (bs = bd)) as [->|Hne].
    + assert (src = dst) as -> by congruence.
      rewrite (IH h1 bd bd (<[d := x]> dst) (<[d := x]> dst) (S s) (S d))
        by (rewrite ?length_insert; (done || lia)).
      unfold h1. rewrite insert_insert_eq.
      rewrite window_insert_outside by lia.
      rewrite splice_insert_head by lia.
      rewrite Hw. do 3 f_equal. lia.
    + rewrite (IH h1 bs bd src (<[d := x]> dst) (S s) (S d))
        by (rewrite ?length_insert; try (done || lia);
            unfold h1; rewrite lookup_insert_ne; done).
      unfold h1. rewrite insert_insert_eq.
      rewrite splice_insert_head by lia.
      rewrite Hw. do 3 f_equal. lia.
Qed.

(** The backward loop, for a window that moves toward the tail. *)
Lemma move_backward_loop_spec (k : nat) :
  forall (h : heap) bs bd src dst (s d : nat),
    h !! bs = Some src -> h !! bd = Some dst ->
    (s + k <= length src)%nat -> (d + k <= length dst)%nat ->
    (bs <> bd \/ s <= d \/ d + k <= s)%nat ->
    move_backward_loop k (Some (Ptr bs (Z.of_nat (s + k))))
                         (Some (Ptr bd (Z.of_nat (d + k)))) h
    = Ret (Some (Ptr bd (Z.of_nat d)))
          (<[bd := splice dst d (take k (drop s src))]> h).
Proof.
  induction k as [|k IH]; intros h bs bd src dst s d Hs Hd Ls Ld Hov.
  - simpl. rewrite splice_nil, insert_id by done.
    rewrite !Nat.add_0_r. done.
  - destruct (lookup_lt_is_Some_2 src (s + k)) as [x Hx]; [lia|].
    simpl move_backward_loop. unfold prev. simpl next.
    replace (Z.of_nat (s + S k) + -1) with (Z.of_nat (s + k)) by lia.
    replace (Z.of_nat (d + S k) + -1) with (Z.of_nat (d + k)) by lia.
    assert (Hdl : (d + k < length dst)%nat) by lia.
    rewrite (bind_Ret _ _ _ _ _ (load_spec _ _ _ _ _ Hs Hx)).
    rewrite (bind_Ret _ _ _ _ _ (store_spec _ _ _ _ x Hd Hdl)).
    set (h1 := <[bd := <[(d + k)%nat := x]> dst]> h).
    assert (Hd1 : h1 !! bd = Some (<[(d + k)%nat := x]> dst))
      by (unfold h1; apply lookup_insert_eq).
    assert (Hw : take (S k) (drop s src) = take k (drop s src) ++ [x])
      by (apply window_S_last; done).
    assert (Hlen : length (take k (drop s src)) = k)
      by (apply window_length; lia).
    destruct (decide (bs = bd)) as [->|Hne].
    + assert (src = dst) as -> by congruence.
      rewrite (IH h1 bd bd (<[(d + k)%nat := x]> dst) (<[(d + k)%nat := x]> dst) s d)
        by (rewrite ?length_insert; (done || lia)).
      unfold h1. rewrite insert_insert_eq.
      rewrite window_insert_outside by lia.
      pose proof (splice_insert_last dst d x (take k (drop s dst))) as Hsp.
      rewrite Hlen in Hsp. rewrite Hsp by lia.
      rewrite Hw. done.
    + rewrite (IH h1 bs bd src (<[(d + k)%nat := x]> dst) s d)
        by (rewrite ?length_insert; try (done || lia);
            unfold h1; rewrite lookup_insert_ne; done).
      unfold h1. rewrite insert_insert_eq.
      pose proof (splice_insert_last dst d x (take k (drop s src))) as Hsp.
      rewrite Hlen in Hsp. rewrite Hsp by lia.
      rewrite Hw. done.
Qed.

Lemma distance_same_block b (s e : Z) :
  s <= e ->
  distance (Some (Ptr b s)) (Some (Ptr b e)) = Some (Z.to_nat (e - s)).
Proof.
  intros H. unfold distance. simpl.
  rewrite decide_True by done.
  destruct (Z.leb_spec s e); [done|lia].
Qed.

(** [std::copy] between two windows given by integer offsets. *)
Lemma std_copy_spec (h : heap) bs bd src dst (s e d : Z) :
  h !! bs = Some src -> h !! bd = Some dst ->
  0 <= s <= e -> e <= Z.of_nat (length src) ->
  0 <= d -> d + (e - s) <= Z.of_nat (length dst) ->
  bs <> bd \/ d <= s \/ e <= d ->
  std_copy (Some (Ptr bs s)) (Some (Ptr bs e)) (Some (Ptr bd d)) h
  = Ret (Some (Ptr bd (d + (e - s))))
        (<[bd := splice dst (Z.to_nat d)
                   (take (Z.to_nat (e - s)) (drop (Z.to_nat s) src))]> h).
Proof.
  intros Hs Hd Hse He H0d Hde Hov.
  unfold std_copy. rewrite distance_same_block by lia.
  pose proof (copy_loop_spec (Z.to_nat (e - s)) h bs bd src dst
                (Z.to_nat s) (Z.to_nat d) Hs Hd) as Hc.
  rewrite !Z2Nat.id in Hc by lia.
  rewrite Hc by lia.
  do 3 f_equal. lia.
Qed.

(** [std::move_backward] inside or between arrays. *)
Lemma std_move_backward_spec (h : heap) bs bd src dst (s e d : Z) :
  h !! bs = Some src -> h !! bd = Some dst ->
  0 <= s <= e -> e <= Z.of_nat (length src) ->
  0 <= d - (e - s) -> d <= Z.of_nat (length dst) ->
  bs <> bd \/ e <= d \/ d <= s ->
  std_move_backward (Some (Ptr bs s)) (Some (Ptr bs e)) (Some (Ptr bd d)) h
  = Ret (Some (Ptr bd (d - (e - s))))
        (<[bd := splice dst (Z.to_nat (d - (e - s)))
                   (take (Z.to_nat (e - s)) (drop (Z.to_nat s) src))]> h).
Proof.
  intros Hs Hd Hse He H0d Hde Hov.
  unfold std_move_backward. rewrite distance_same_block by lia.
  pose proof (move_backward_loop_spec (Z.to_nat (e - s)) h bs bd src dst
                (Z.to_nat s) (Z.to_nat (d - (e - s))) Hs Hd) as Hc.
  replace (Z.of_nat (Z.to_nat s + Z.to_nat (e - s))) with e in Hc by lia.
  replace (Z.of_nat (Z.to_nat (d - (e - s)) + Z.to_nat (e - s))) with d in Hc by lia.
  rewrite Hc by lia.
  do 3 f_equal. lia.
Qed.

(** ** Well-formed vectors *)

Lemma owns_elements v h b arr :
  owns v h b arr -> elements v h = Some (take (Z.to_nat (n v)) arr).
Proof.
  intros [Hp Hb Hl Hn HN]. unfold elements. rewrite Hp. simpl. rewrite Hb.
  destruct (Z.leb_spec 0 (n v)); [|lia].
  destruct (Z.leb_spec (n v) (Z.of_nat (length arr))); [|lia].
  done.
Qed.

Lemma length_moved_into count len arr :
  0 <= len <= count -> len <= Z.of_nat (length arr) ->
  Z.of_nat (length (moved_into count len arr)) = count.
Proof.
  intros H1 H2. unfold moved_into.
  rewrite length_app, length_take, length_replicate. lia.
Qed.

Lemma take_moved_into count len arr :
  0 <= len <= count -> len <= Z.of_nat (length arr) ->
  take (Z.to_nat len) (moved_into count len arr) = take (Z.to_nat len) arr.
Proof.
  intros H1 H2. unfold moved_into.
  rewrite take_app_le by (rewrite length_take; lia).
  rewrite take_take. f_equal. lia.
Qed.

Lemma splice_replicate count len arr :
  0 <= len <= count -> len <= Z.of_nat (length arr) ->
  splice (replicate (Z.to_nat count) E0) (Z.to_nat 0)
         (take (Z.to_nat (len - 0)) (drop (Z.to_nat 0) arr))
  = moved_into count len arr.
Proof.
  intros H1 H2. unfold splice, moved_into.
  change (Z.to_nat 0) with 0%nat. rewrite drop_0, Z.sub_0_r. simpl.
  f_equal.
  rewrite length_take, drop_replicate. f_equal. lia.
Qed.

Lemma new_array_spec (count : Z) (h : heap) :
  0 <= count ->
  new_array count h
  = Ret (Some (Ptr (fresh (dom h)) 0))
        (<[fresh (dom h) := replicate (Z.to_nat count) E0]> h).
Proof.
  intros H. unfold new_array.
  destruct (Z.ltb_spec count 0); [lia|done].
Qed.

Lemma fresh_block_dead (h : heap) : h !! fresh (dom h) = None.
Proof. apply not_elem_of_dom. apply is_fresh. Qed.

Lemma fresh_block_ne (h : heap) b (arr : list E) :
  h !! b = Some arr -> b <> fresh (dom h).
Proof. intros Hb ->. rewrite fresh_block_dead in Hb. done. Qed.

Lemma delete_array_spec (h : heap) b arr :
  h !! b = Some arr -> delete_array (Some (Ptr b 0)) h = Ret tt (delete b h).
Proof. intros Hb. unfold delete_array. simpl. rewrite Hb. done. Qed.

Lemma Vector_new_spec (count : Z) (h : heap) :
  0 <= count ->
  Vector_new count h
  = Ret (mkVector 0 count (Some (Ptr (fresh (dom h)) 0)))
        (<[fresh (dom h) := replicate (Z.to_nat count) E0]> h).
Proof.
  intros H. unfold Vector_new.
  rewrite (bind_Ret _ _ _ _ _ (new_array_spec count h H)). done.
Qed.

(** [reserve] moves the elements to a fresh array of [count] slots and
    frees the old one. *)
Lemma reserve_spec v h b arr count :
  owns v h b arr -> n v <= count <= INT_MAX ->
  reserve count (v, h)
  = Ret tt (mkVector (n v) count (Some (Ptr (fresh (dom h)) 0)),
            delete b (<[fresh (dom h) := moved_into count (n v) arr]> h)).
Proof.
  intros [Hp Hb Hl Hn HN] Hc.
  pose proof (fresh_block_ne _ _ _ Hb) as Hne.
  unfold reserve, this, bind at 1. simpl fst.
  unfold assert, size, bind at 1.
  destruct (Z.leb_spec (n v) count); [|lia].
  assert (H0 : 0 <= count) by lia.
  rewrite (bind_Ret _ _ _ _ _ (mem_Ret _ v _ _ _ (Vector_new_spec count h H0))).
  unfold std_move, begin, end_. rewrite Hp. simpl.
  erewrite bind_Ret; cycle 1.
  { apply mem_Ret.
    apply (std_copy_spec _ b (fresh (dom h)) arr (replicate (Z.to_nat count) E0));
      rewrite ?length_replicate; try lia.
    - rewrite lookup_insert_ne; done.
    - apply lookup_insert_eq. }
  rewrite insert_insert_eq, splice_replicate by lia.
  unfold swap, this, put_this, with_n, bind, ret, mem, Vector_delete. simpl.
  rewrite Hp.
  erewrite delete_array_spec by (rewrite lookup_insert_ne; done).
  done.
Qed.

Lemma owns_resized v h b arr count v1 h1 b1 arr1 :
  owns v h b arr -> n v <= count <= INT_MAX ->
  resized v h b arr count = (v1, h1, b1, arr1) ->
  owns v1 h1 b1 arr1 /\ n v1 = n v /\ N v1 = count /\
  take (Z.to_nat (n v)) arr1 = take (Z.to_nat (n v)) arr /\
  b1 = fresh (dom h) /\ h1 = delete b (<[b1 := arr1]> h).
Proof.
  intros Ho Hc Hr. pose proof Ho as [Hp Hb Hl Hn HN].
  pose proof (fresh_block_ne _ _ _ Hb) as Hne.
  unfold resized in Hr. injection Hr as <- <- <- <-.
  split; [|split; [done|split; [done|split; [|done]]]].
  - constructor; simpl; try (done || lia).
    + rewrite lookup_delete_ne by done. apply lookup_insert_eq.
    + apply length_moved_into; lia.
  - apply take_moved_into; lia.
Qed.

Lemma grow_spec v h b arr v1 h1 b1 arr1 :
  owns v h b arr -> (n v = N v -> N v * 2 <= INT_MAX) ->
  grown v h b arr = (v1, h1, b1, arr1) ->
  (if n v =? N v then (c <- int (N v * 2) ;; reserve c) else ret tt) (v, h)
  = Ret tt (v1, h1).
Proof.
  intros Ho Hov Hg. pose proof Ho as [Hp Hb Hl Hn HN].
  unfold grown in Hg.
  destruct (Z.eqb_spec (n v) (N v)) as [Heq|Hne].
  - rewrite bind_int by (unfold INT_MIN; lia).
    rewrite (reserve_spec _ _ _ _ _ Ho) by lia.
    unfold resized in Hg. injection Hg as <- <- <- <-. done.
  - injection Hg as <- <- <- <-. done.
Qed.

Lemma owns_grown v h b arr v1 h1 b1 arr1 :
  owns v h b arr -> (n v = N v -> N v * 2 <= INT_MAX) ->
  grown v h b arr = (v1, h1, b1, arr1) ->
  owns v1 h1 b1 arr1 /\ n v1 = n v /\
  take (Z.to_nat (n v)) arr1 = take (Z.to_nat (n v)) arr /\
  (0 < N v -> n v1 < N v1).
Proof.
  intros Ho Hov Hg. pose proof Ho as [Hp Hb Hl Hn HN].
  unfold grown in Hg.
  destruct (Z.eqb_spec (n v) (N v)) as [Heq|Hne].
  - assert (Hc : n v <= N v * 2 <= INT_MAX) by lia.
    destruct (owns_resized _ _ _ _ _ _ _ _ _ Ho Hc Hg)
      as (Ho1 & Hn1 & HN1 & Ht & _).
    refine (conj Ho1 (conj Hn1 (conj Ht _))). lia.
  - injection Hg as <- <- <- <-.
    refine (conj Ho (conj eq_refl (conj eq_refl _))). lia.
Qed.

Lemma quot_bounds z : 0 <= z -> z ÷ 4 * 4 <= z /\ z ÷ 4 * 2 <= z ÷ 2 /\ z ÷ 2 <= z.
Proof.
  intros H. rewrite !Z.quot_div_nonneg by lia.
  assert (H4 : 0 < 4) by lia. assert (H2 : 0 < 2) by lia.
  pose proof (Z.mul_div_le z 4 H4).
  pose proof (Z.mul_div_le z 2 H2).
  pose proof (Z.div_le_mono (z / 4 * 2 * 2) z 2 H2).
  rewrite Z.div_mul in * by lia.
  lia.
Qed.

Lemma shrink_spec v h b arr v1 h1 b1 arr1 :
  owns v h b arr ->
  shrunk v h b arr = (v1, h1, b1, arr1) ->
  (if (0 <? n v) && (n v =? N v ÷ 4) then reserve (N v ÷ 2) else ret tt) (v, h)
  = Ret tt (v1, h1).
Proof.
  intros Ho Hg. pose proof Ho as [Hp Hb Hl Hn HN].
  assert (HN0 : 0 <= N v) by lia.
  pose proof (quot_bounds (N v) HN0) as Hq.
  unfold shrunk in Hg.
  destruct ((0 <? n v) && (n v =? N v ÷ 4)) eqn:Hc.
  - apply andb_true_iff in Hc as [_ Hc%Z.eqb_eq].
    rewrite (reserve_spec _ _ _ _ _ Ho) by lia.
    unfold resized in Hg. injection Hg as <- <- <- <-. done.
  - injection Hg as <- <- <- <-. done.
Qed.

Lemma owns_shrunk v h b arr v1 h1 b1 arr1 :
  owns v h b arr ->
  shrunk v h b arr = (v1, h1, b1, arr1) ->
  owns v1 h1 b1 arr1 /\ n v1 = n v /\
  take (Z.to_nat (n v)) arr1 = take (Z.to_nat (n v)) arr.
Proof.
  intros Ho Hg. pose proof Ho as [Hp Hb Hl Hn HN].
  assert (HN0 : 0 <= N v) by lia.
  pose proof (quot_bounds (N v) HN0) as Hq.
  unfold shrunk in Hg.
  destruct ((0 <? n v) && (n v =? N v ÷ 4)) eqn:Hc.
  - apply andb_true_iff in Hc as [_ Hc%Z.eqb_eq].
    assert (Hc' : n v <= N v ÷ 2 <= INT_MAX) by lia.
    destruct (owns_resized _ _ _ _ _ _ _ _ _ Ho Hc' Hg)
      as (Ho1 & Hn1 & HN1 & Ht & _).
    done.
  - injection Hg as <- <- <- <-. done.
Qed.

(** ** Insertion and removal at the tail *)

Lemma insert_back_spec v h b arr x v1 h1 b1 arr1 :
  owns v h b arr -> 0 < N v -> (n v = N v -> N v * 2 <= INT_MAX) ->
  grown v h b arr = (v1, h1, b1, arr1) ->
  insert_back x (v, h)
  = Ret tt (with_n (n v + 1) v1, <[b1 := <[Z.to_nat (n v) := x]> arr1]> h1).
Proof.
  intros Ho Hpos Hov Hg.
  destruct (owns_grown _ _ _ _ _ _ _ _ Ho Hov Hg) as (Ho1 & Hn1 & Ht & Hlt).
  specialize (Hlt Hpos). destruct Ho1 as [Hp1 Hb1 Hl1 Hn1' HN1].
  unfold insert_back. rewrite bind_this.
  rewrite (bind_Ret _ _ _ _ _ (grow_spec _ _ _ _ _ _ _ _ Ho Hov Hg)).
  rewrite bind_this, bind_int by (unfold INT_MIN; lia).
  rewrite bind_put_n.
  unfold subscript, begin. rewrite Hp1. simpl.
  erewrite mem_Ret; cycle 1.
  { eapply store_at; [exact Hb1|lia]. }
  rewrite Hn1. done.
Qed.

(** With no slot at all, doubling allocates none, and the write lands
    outside the array. *)
Lemma insert_back_no_capacity v h b arr x :
  owns v h b arr -> N v = 0 -> insert_back x (v, h) = Undef.
Proof.
  intros Ho HN0. pose proof Ho as [Hp Hb Hl Hn HN].
  destruct (grown v h b arr) as [[[v1 h1] b1] arr1] eqn:Hg.
  assert (Hov : n v = N v -> N v * 2 <= INT_MAX) by (unfold INT_MAX; lia).
  destruct (owns_grown _ _ _ _ _ _ _ _ Ho Hov Hg) as (Ho1 & Hn1 & Ht & _).
  assert (HN1 : N v1 = 0).
  { unfold grown in Hg. replace (n v =? N v) with true in Hg
      by (symmetry; apply Z.eqb_eq; lia).
    unfold resized in Hg. injection Hg as <- <- <- <-. simpl. lia. }
  destruct Ho1 as [Hp1 Hb1 Hl1 Hn1' _].
  unfold insert_back. rewrite bind_this.
  rewrite (bind_Ret _ _ _ _ _ (grow_spec _ _ _ _ _ _ _ _ Ho Hov Hg)).
  rewrite bind_this, bind_int by (unfold INT_MIN, INT_MAX; lia).
  rewrite bind_put_n.
  unfold subscript, begin. rewrite Hp1. cbn [next blk off fst].
  apply mem_Undef. eapply store_outside; [exact Hb1|lia].
Qed.

Lemma remove_back_spec v h b arr v1 h1 b1 arr1 :
  owns v h b arr -> 0 < n v ->
  shrunk v h b arr = (v1, h1, b1, arr1) ->
  remove_back (v, h) = Ret tt (v1, h1).
Proof.
  intros Ho Hpos Hg.
  unfold remove_back. rewrite bind_this.
  unfold empty. destruct (Z.eqb_spec (n v) 0); [lia|].
  apply (shrink_spec _ _ _ _ _ _ _ _ Ho Hg).
Qed.

(** ** Insertion and removal inside the sequence *)

Lemma owns_update v h b arr arr' len :
  owns v h b arr -> length arr' = length arr -> 0 <= len <= N v ->
  owns (with_n len v) (<[b := arr']> h) b arr'.
Proof.
  intros [Hp Hb Hl Hn HN] Hlen Hlen'.
  constructor; simpl; try (done || lia).
  apply lookup_insert_eq.
Qed.

Lemma length_shifted_in arr i len x :
  0 <= i <= len -> len < Z.of_nat (length arr) ->
  length (shifted_in arr i len x) = length arr.
Proof.
  intros Hi Hlen. unfold shifted_in.
  rewrite length_insert, length_splice; [done|].
  rewrite window_length; lia.
Qed.

Lemma take_shifted_in arr i len x :
  0 <= i <= len -> len < Z.of_nat (length arr) ->
  take (Z.to_nat (len + 1)) (shifted_in arr i len x)
  = take (Z.to_nat i) arr ++ x :: take (Z.to_nat (len - i)) (drop (Z.to_nat i) arr).
Proof.
  intros Hi Hlen. unfold shifted_in.
  assert (Hw : length (take (Z.to_nat (len - i)) (drop (Z.to_nat i) arr))
               = Z.to_nat (len - i)) by (apply window_length; lia).
  apply list_eq. intros j.
  destruct (decide (j < Z.to_nat (len + 1))%nat) as [Hj|Hj].
  - rewrite lookup_take_lt by lia.
    destruct (decide (j = Z.to_nat i)) as [->|Hne].
    + rewrite list_lookup_insert_eq by (rewrite length_splice; lia).
      rewrite lookup_app_r by (rewrite length_take; lia).
      rewrite length_take, Nat.min_l, Nat.sub_diag by lia. done.
    + rewrite list_lookup_insert_ne by lia.
      rewrite lookup_splice by lia. rewrite Hw.
      destruct (decide (j < Z.to_nat i)%nat) as [Hlt|Hge].
      * rewrite decide_True by lia.
        rewrite lookup_app_l by (rewrite length_take; lia).
        rewrite lookup_take_lt by lia. done.
      * rewrite decide_False, decide_True by lia.
        rewrite lookup_app_r by (rewrite length_take; lia).
        rewrite length_take, Nat.min_l by lia.
        replace (j - Z.to_nat i)%nat with (S (j - Z.to_nat (i + 1))) by lia.
        done.
  - rewrite lookup_take_ge by lia. symmetry. apply lookup_ge_None.
    rewrite length_app, length_take. simpl. rewrite Hw. lia.
Qed.

Lemma insert_spec v h b arr i x v1 h1 b1 arr1 :
  owns v h b arr -> 0 <= i < n v -> (n v = N v -> N v * 2 <= INT_MAX) ->
  grown v h b arr = (v1, h1, b1, arr1) ->
  insert i x (v, h)
  = Ret tt (with_n (n v + 1) v1, <[b1 := shifted_in arr1 i (n v) x]> h1).
Proof.
  intros Ho Hi Hov Hg. pose proof Ho as [Hp Hb Hl Hn HN].
  destruct (owns_grown _ _ _ _ _ _ _ _ Ho Hov Hg) as (Ho1 & Hn1 & Ht & Hlt).
  assert (Hpos : 0 < N v) by lia.
  specialize (Hlt Hpos). destruct Ho1 as [Hp1 Hb1 Hl1 Hn1' HN1].
  unfold insert. rewrite bind_this.
  destruct (Z.eqb_spec i (n v)); [lia|].
  unfold valid.
  destruct (Z.leb_spec 0 i); [|lia]. destruct (Z.ltb_spec i (n v)); [|lia].
  cbn [andb negb].
  rewrite (bind_Ret _ _ _ _ _ (grow_spec _ _ _ _ _ _ _ _ Ho Hov Hg)).
  rewrite bind_this, bind_int by (unfold INT_MIN; lia).
  unfold begin, end_, subscript, begin. rewrite Hp1. cbn [next blk off].
  erewrite bind_mem; cycle 1.
  { eapply (std_move_backward_spec _ b1 b1 arr1 arr1); try (done || lia). }
  erewrite bind_mem; cycle 1.
  { eapply store_at; [apply lookup_insert_eq|].
    rewrite length_splice; [lia|]. rewrite window_length; lia. }
  rewrite insert_insert_eq.
  rewrite bind_int by (unfold INT_MIN; lia).
  unfold put_n, shifted_in. cbn [fst snd]. rewrite Hn1.
  repeat (f_equal; try lia).
Qed.

Lemma length_shifted_out arr i len :
  0 <= i < len -> len <= Z.of_nat (length arr) ->
  length (shifted_out arr i len) = length arr.
Proof.
  intros Hi Hlen. unfold shifted_out.
  rewrite length_splice; [done|]. rewrite window_length; lia.
Qed.

Lemma take_shifted_out arr i len :
  0 <= i < len -> len <= Z.of_nat (length arr) ->
  take (Z.to_nat (len - 1)) (shifted_out arr i len)
  = take (Z.to_nat i) arr
    ++ take (Z.to_nat (len - (i + 1))) (drop (Z.to_nat (i + 1)) arr).
Proof.
  intros Hi Hlen. unfold shifted_out, splice.
  assert (Hw : length (take (Z.to_nat (len - (i + 1))) (drop (Z.to_nat (i + 1)) arr))
               = Z.to_nat (len - (i + 1))) by (apply window_length; lia).
  rewrite app_assoc, take_app_le by (rewrite length_app, length_take, Hw; lia).
  apply take_ge. rewrite length_app, length_take, Hw. lia.
Qed.

Lemma remove_spec v h b arr i v1 h1 b1 arr1 :
  owns v h b arr -> 0 <= i < n v - 1 ->
  shrunk (with_n (n v - 1) v) (<[b := shifted_out arr i (n v)]> h) b
         (shifted_out arr i (n v)) = (v1, h1, b1, arr1) ->
  remove i (v, h) = Ret tt (v1, h1).
Proof.
  intros Ho Hi Hg. pose proof Ho as [Hp Hb Hl Hn HN].
  unfold remove. rewrite bind_this.
  rewrite bind_int by (unfold INT_MIN; lia).
  destruct (Z.eqb_spec i (n v - 1)); [lia|].
  unfold valid.
  destruct (Z.leb_spec 0 i); [|lia]. destruct (Z.ltb_spec i (n v)); [|lia].
  cbn [andb negb].
  rewrite bind_int by (unfold INT_MIN; lia).
  unfold std_move, begin, end_. rewrite Hp. cbn [next blk off].
  erewrite bind_mem; cycle 1.
  { eapply (std_copy_spec _ b b arr arr); try (done || lia). }
  rewrite bind_int by (unfold INT_MIN; lia).
  rewrite bind_put_n, bind_this.
  replace (splice arr (Z.to_nat (0 + i))
             (take (Z.to_nat (0 + n v - (0 + (i + 1))))
                (drop (Z.to_nat (0 + (i + 1))) arr)))
    with (shifted_out arr i (n v))
    by (unfold shifted_out; repeat (f_equal; try lia)).
  eapply shrink_spec; [|exact Hg].
  apply (owns_update _ _ _ arr); [done| |lia].
  apply length_shifted_out; lia.
Qed.

(** ** Checked access *)

Lemma read_at_spec v h b arr i x :
  owns v h b arr -> 0 <= i < n v -> arr !! Z.to_nat i = Some x ->
  read (at_ i) (v, h) = Ret x (v, h).
Proof.
  intros [Hp Hb Hl Hn HN] Hi Hx.
  unfold read. erewrite bind_Ret; cycle 1.
  { unfold at_. rewrite bind_this. unfold valid.
    destruct (Z.leb_spec 0 i); [|lia]. destruct (Z.ltb_spec i (n v)); [|lia].
    cbn [andb negb]. reflexivity. }
  unfold subscript, begin. rewrite Hp. cbn [next blk off].
  apply mem_Ret. eapply load_at; [done|lia|].
  rewrite Z.add_0_l. done.
Qed.

(** ** Copying, assignment and concatenation *)

Lemma Vector_copy_spec that h bt arrt :
  owns that h bt arrt ->
  Vector_copy that h
  = Ret (mkVector (n that) (N that) (Some (Ptr (fresh (dom h)) 0)))
        (<[fresh (dom h) := moved_into (N that) (n that) arrt]> h).
Proof.
  intros [Hp Hb Hl Hn HN].
  pose proof (fresh_block_ne _ _ _ Hb) as Hne.
  assert (H0 : 0 <= N that) by lia.
  unfold Vector_copy.
  rewrite (bind_Ret _ _ _ _ _ (new_array_spec (N that) h H0)).
  unfold begin, end_. rewrite Hp. cbn [next blk off pv].
  erewrite bind_Ret; cycle 1.
  { apply (std_copy_spec _ bt (fresh (dom h)) arrt (replicate (Z.to_nat (N that)) E0));
      rewrite ?length_replicate; try lia.
    - rewrite lookup_insert_ne; done.
    - apply lookup_insert_eq. }
  rewrite insert_insert_eq.
  replace (0 + n that - 0) with (n that - 0) by lia.
  rewrite splice_replicate by lia. done.
Qed.

Lemma assign_from_spec v h b arr y bt arrt :
  owns v h b arr -> owns y h bt arrt ->
  assign_from y (v, h)
  = Ret tt (mkVector (n y) (N y) (Some (Ptr (fresh (dom h)) 0)),
            delete b (<[fresh (dom h) := moved_into (N y) (n y) arrt]> h)).
Proof.
  intros [Hp Hb Hl Hn HN] Hy.
  pose proof (fresh_block_ne _ _ _ Hb) as Hne.
  unfold assign_from.
  rewrite (bind_mem _ _ _ _ _ _ (Vector_copy_spec _ _ _ _ Hy)).
  unfold operator_assign, swap. rewrite bind_Ret with
    (a := mkVector (n v) (N v) (pv v))
    (s' := (mkVector (n y) (N y) (Some (Ptr (fresh (dom h)) 0)),
            <[fresh (dom h) := moved_into (N y) (n y) arrt]> h))
    by done.
  apply mem_Ret. unfold Vector_delete. cbn [pv]. rewrite Hp.
  eapply delete_array_spec. rewrite lookup_insert_ne; done.
Qed.

(** [v += t] for another vector [t], whose array is not [v]'s. *)
Lemma operator_plus_eq_other v h b arr t bt arrt v1 h1 b1 arr1 :
  owns v h b arr -> owns t h bt arrt -> b <> bt ->
  N v + N t <= INT_MAX ->
  resized v h b arr (N v + N t) = (v1, h1, b1, arr1) ->
  operator_plus_eq (Other t) (v, h)
  = Ret tt (with_n (n v + n t) v1,
            <[b1 := splice arr1 (Z.to_nat (n v)) (take (Z.to_nat (n t)) arrt)]> h1).
Proof.
  intros Ho Ht Hne Hov Hr.
  pose proof Ho as [Hp Hb Hl Hn HN]. pose proof Ht as [Hpt Hbt Hlt Hnt HNt].
  assert (Hc : n v <= N v + N t <= INT_MAX) by lia.
  destruct (owns_resized _ _ _ _ _ _ _ _ _ Ho Hc Hr)
    as ([Hp1 Hb1 Hl1 Hn1' HN1] & Hn1 & HN1' & Htk & Hb1' & Hh1).
  unfold operator_plus_eq. rewrite bind_this. cbn [deref].
  erewrite (bind_Ret (ret t)) by reflexivity.
  rewrite bind_int by (unfold INT_MIN; lia).
  erewrite bind_Ret; cycle 1.
  { rewrite (reserve_spec _ _ _ _ _ Ho Hc). unfold resized in Hr.
    injection Hr as Hv1 Hh1' _ _. rewrite Hv1, Hh1'. reflexivity. }
  rewrite bind_this. erewrite (bind_Ret (ret t)) by reflexivity.
  unfold begin, end_. rewrite Hpt, Hp1. cbn [next blk off].
  erewrite bind_mem; cycle 1.
  { eapply (std_copy_spec _ bt b1 arrt arr1); try (done || lia).
    - rewrite Hh1, lookup_delete_ne, lookup_insert_ne; try done.
      rewrite Hb1'. apply not_eq_sym, (fresh_block_ne _ _ _ Hbt).
    - left. rewrite Hb1'. apply (fresh_block_ne _ _ _ Hbt). }
  erewrite (bind_Ret (ret t)) by reflexivity.
  rewrite bind_int by (unfold INT_MIN; lia).
  unfold put_n. cbn [fst snd]. rewrite Hn1.
  change (Z.to_nat 0) with 0%nat. rewrite drop_0.
  repeat (f_equal; try lia).
Qed.

(** [v += v]: the argument is the object itself, before and after the
    reallocation. *)
Lemma operator_plus_eq_self v h b arr v1 h1 b1 arr1 :
  owns v h b arr -> N v + N v <= INT_MAX ->
  resized v h b arr (N v + N v) = (v1, h1, b1, arr1) ->
  operator_plus_eq Self (v, h)
  = Ret tt (with_n (n v + n v) v1,
            <[b1 := splice arr1 (Z.to_nat (n v)) (take (Z.to_nat (n v)) arr1)]> h1).
Proof.
  intros Ho Hov Hr.
  pose proof Ho as [Hp Hb Hl Hn HN].
  assert (Hc : n v <= N v + N v <= INT_MAX) by lia.
  destruct (owns_resized _ _ _ _ _ _ _ _ _ Ho Hc Hr)
    as ([Hp1 Hb1 Hl1 Hn1' HN1] & Hn1 & HN1' & Htk & Hb1' & Hh1).
  unfold operator_plus_eq. cbn [deref]. rewrite !bind_this.
  rewrite bind_int by (unfold INT_MIN; lia).
  erewrite bind_Ret; cycle 1.
  { rewrite (reserve_spec _ _ _ _ _ Ho Hc). unfold resized in Hr.
    injection Hr as Hv1 Hh1' _ _. rewrite Hv1, Hh1'. reflexivity. }
  rewrite !bind_this.
  unfold begin, end_. rewrite Hp1. cbn [next blk off].
  erewrite bind_mem; cycle 1.
  { eapply (std_copy_spec _ b1 b1 arr1 arr1); try (done || lia). }
  rewrite bind_this.
  rewrite bind_int by (unfold INT_MIN; lia).
  unfold put_n. cbn [fst snd]. rewrite Hn1.
  change (Z.to_nat 0) with 0%nat. rewrite drop_0.
  repeat (f_equal; try lia).
Qed.

(** What the first [len + k] slots hold after [xs] went in at [len]. *)
Lemma take_splice_tail (arr xs : list E) (len : nat) :
  (len + length xs <= length arr)%nat ->
  take (len + length xs) (splice arr len xs) = take len arr ++ xs.
Proof.
  intros H. unfold splice. rewrite app_assoc.
  rewrite take_app_le by (rewrite length_app, length_take; lia).
  apply take_ge. rewrite length_app, length_take. lia.
Qed.

(** ** A vector created with no capacity *)

Lemma owns_new count (h : heap) :
  0 <= count <= INT_MAX ->
  owns (mkVector 0 count (Some (Ptr (fresh (dom h)) 0)))
       (<[fresh (dom h) := replicate (Z.to_nat count) E0]> h)
       (fresh (dom h)) (replicate (Z.to_nat count) E0).
Proof.
  intros H. constructor; simpl; try (done || lia).
  - apply lookup_insert_eq.
  - rewrite length_replicate. lia.
Qed.

Lemma call_Undef {A} (m : M st A) v h :
  m (v, h) = Undef -> call v m h = Undef.
Proof. intros H. unfold call. rewrite H. done. Qed.

(** C3: [Vector<E> v(0); v.insert_back(x);] is undefined: [reserve(0 * 2)]
    allocates an array of no slots and the element is written outside it.
    The capacity is not taken above 0. *)
Theorem insert_back_on_zero_capacity_undefined (h : heap) (x : E) :
  client 0 (insert_back x) h = Undef.
Proof.
  unfold client.
  rewrite (bind_Ret _ _ _ _ _ (Vector_new_spec 0 h (Z.le_refl 0))).
  apply call_Undef.
  assert (H0 : 0 <= 0 <= INT_MAX) by (unfold INT_MAX; lia).
  eapply insert_back_no_capacity; [apply (owns_new 0 h H0)|done].
Qed.

(** C6: [Vector<E> v(0); v.insert(0, x);] is undefined as well: index 0 is
    the length, the call goes to [insert_back], and the element is written
    outside an array of no slots, so [at(0)] has nothing to return. *)
Theorem insert_on_zero_capacity_undefined (h : heap) (x : E) :
  client 0 (insert 0 x) h = Undef.
Proof.
  unfold client.
  rewrite (bind_Ret _ _ _ _ _ (Vector_new_spec 0 h (Z.le_refl 0))).
  apply call_Undef.
  assert (H0 : 0 <= 0 <= INT_MAX) by (unfold INT_MAX; lia).
  unfold insert. rewrite bind_this. cbn [n]. rewrite Z.eqb_refl.
  eapply insert_back_no_capacity; [apply (owns_new 0 h H0)|done].
Qed.

(** [remove_back] never changes the length: on a vector that is not empty
    it returns with [n] as it was. *)
Lemma remove_back_keeps_length v h b arr :
  owns v h b arr -> 0 < n v ->
  exists v' h', remove_back (v, h) = Ret tt (v', h') /\ size v' = size v.
Proof.
  intros Ho Hpos.
  destruct (shrunk v h b arr) as [[[v1 h1] b1] arr1] eqn:Hs.
  exists v1, h1. split.
  - eapply remove_back_spec; done.
  - destruct (owns_shrunk _ _ _ _ _ _ _ _ Ho Hs) as (_ & Hn & _). done.
Qed.

(** With room or with a capacity that can be doubled, the elements of the
    vector after [insert i x] are the old ones with [x] put at [i]. *)
Lemma insert_elements v h b arr i x l :
  owns v h b arr -> 0 < N v -> (n v = N v -> N v * 2 <= INT_MAX) ->
  0 <= i <= n v -> elements v h = Some l ->
  exists v' h' b' arr',
    insert i x (v, h) = Ret tt (v', h') /\ owns v' h' b' arr' /\
    size v' = size v + 1 /\
    elements v' h' = Some (take (Z.to_nat i) l ++ x :: drop (Z.to_nat i) l) /\
    read (at_ i) (v', h') = Ret x (v', h') /\
    insert (n v) x (v, h) = insert_back x (v, h).
Proof.
  intros Ho Hpos Hov Hi Hl. pose proof Ho as [Hp Hb Hlen Hn HN].
  rewrite (owns_elements _ _ _ _ Ho) in Hl. injection Hl as <-.
  destruct (grown v h b arr) as [[[v1 h1] b1] arr1] eqn:Hg.
  destruct (owns_grown _ _ _ _ _ _ _ _ Ho Hov Hg) as (Ho1 & Hn1 & Ht & Hlt).
  specialize (Hlt Hpos). pose proof Ho1 as [Hp1 Hb1 Hl1 Hn1' HN1].
  assert (Hlast : insert (n v) x (v, h) = insert_back x (v, h)).
  { unfold insert. rewrite bind_this, Z.eqb_refl. done. }
  assert (Harr : take (Z.to_nat i) (take (Z.to_nat (n v)) arr)
                 ++ x :: drop (Z.to_nat i) (take (Z.to_nat (n v)) arr)
                 = take (Z.to_nat i) arr1
                   ++ x :: take (Z.to_nat (n v - i)) (drop (Z.to_nat i) arr1)).
  { rewrite <- Ht, take_take, Nat.min_l by lia.
    replace (Z.to_nat (n v)) with (Z.to_nat i + Z.to_nat (n v - i))%nat at 1 by lia.
    rewrite <- take_drop_commute. done. }
  assert (Hown : owns (with_n (n v + 1) v1) (<[b1 := shifted_in arr1 i (n v) x]> h1)
                      b1 (shifted_in arr1 i (n v) x)).
  { apply (owns_update _ _ _ arr1); [done| |lia].
    apply length_shifted_in; lia. }
  assert (Hres : insert i x (v, h)
                 = Ret tt (with_n (n v + 1) v1, <[b1 := shifted_in arr1 i (n v) x]> h1)).
  { destruct (decide (i = n v)) as [->|Hne].
    - rewrite Hlast, (insert_back_spec _ _ _ _ _ _ _ _ _ Ho Hpos Hov Hg).
      unfold shifted_in. rewrite Z.sub_diag. simpl take.
      rewrite splice_nil. done.
    - apply (insert_spec _ _ b arr); (done || lia). }
  exists (with_n (n v + 1) v1), (<[b1 := shifted_in arr1 i (n v) x]> h1),
         b1, (shifted_in arr1 i (n v) x).
  split; [done|]. split; [done|]. split; [unfold size; simpl; lia|].
  split; [|split; [|done]].
  - rewrite (owns_elements _ _ _ _ Hown). cbn [n with_n].
    rewrite take_shifted_in by lia. rewrite Harr. done.
  - eapply read_at_spec; [exact Hown|simpl; lia|].
    unfold shifted_in. apply list_lookup_insert_eq.
    rewrite length_splice; [lia|]. rewrite window_length; lia.
Qed.

(** ** Move construction *)

(** C5, as the code has it: the new vector takes over the array with the
    length and the capacity; the source keeps its length and capacity and
    has a null array pointer; destroying the source leaves every heap as it
    is, and destroying the new vector afterwards frees the array, once. *)
Theorem move_transfers_array_source_keeps_length x h b arr :
  owns x h b arr ->
  owns (fst (Vector_move x)) h b arr /\
  size (fst (Vector_move x)) = size x /\
  capacity (fst (Vector_move x)) = capacity x /\
  pv (snd (Vector_move x)) = None /\
  size (snd (Vector_move x)) = size x /\
  capacity (snd (Vector_move x)) = capacity x /\
  (forall h', Vector_delete (snd (Vector_move x)) h' = Ret tt h') /\
  (Vector_delete (snd (Vector_move x)) ;;; Vector_delete (fst (Vector_move x))) h
  = Ret tt (delete b h).
Proof.
  intros [Hp Hb Hl Hn HN]. simpl.
  split; [constructor; done|]. do 5 (split; [done|]).
  split; [done|].
  erewrite bind_Ret by reflexivity.
  unfold Vector_delete. simpl. rewrite Hp.
  eapply delete_array_spec. done.
Qed.

(** ** Self-append *)

(** C9: [v += v] returns, and [v] then holds its elements twice over, in a
    live array of its own. *)
Theorem self_append_doubles v h b arr l :
  owns v h b arr -> N v + N v <= INT_MAX -> elements v h = Some l ->
  exists v' h' b' arr',
    operator_plus_eq Self (v, h) = Ret tt (v', h') /\
    owns v' h' b' arr' /\
    size v' = size v + size v /\
    elements v' h' = Some (l ++ l).
Proof.
  intros Ho Hov Hl. pose proof Ho as [Hp Hb Hlen Hn HN].
  rewrite (owns_elements _ _ _ _ Ho) in Hl. injection Hl as <-.
  destruct (resized v h b arr (N v + N v)) as [[[v1 h1] b1] arr1] eqn:Hr.
  assert (Hc : n v <= N v + N v <= INT_MAX) by lia.
  destruct (owns_resized _ _ _ _ _ _ _ _ _ Ho Hc Hr)
    as (Ho1 & Hn1 & HN1' & Htk & Hb1' & Hh1).
  pose proof Ho1 as [Hp1 Hb1 Hl1 Hn1' HN1].
  assert (Hw : length (take (Z.to_nat (n v)) arr1) = Z.to_nat (n v))
    by (rewrite length_take; lia).
  set (arr2 := splice arr1 (Z.to_nat (n v)) (take (Z.to_nat (n v)) arr1)).
  assert (Hown : owns (with_n (n v + n v) v1) (<[b1 := arr2]> h1) b1 arr2).
  { apply (owns_update _ _ _ arr1); [done| |lia].
    apply length_splice. lia. }
  exists (with_n (n v + n v) v1), (<[b1 := arr2]> h1), b1, arr2.
  split; [apply (operator_plus_eq_self _ _ _ _ _ _ _ _ Ho Hov Hr)|].
  split; [done|]. split; [done|].
  rewrite (owns_elements _ _ _ _ Hown). cbn [n with_n]. f_equal.
  unfold arr2.
  replace (Z.to_nat (n v + n v))
    with (Z.to_nat (n v) + length (take (Z.to_nat (n v)) arr1))%nat by lia.
  rewrite take_splice_tail by lia.
  rewrite Htk. done.
Qed.

(** ** Concatenation *)

Lemma call_Ret {A} (m : M st A) v h a v' h' :
  m (v, h) = Ret a (v', h') -> call v m h = Ret (a, v') h'.
Proof. intros H. unfold call. rewrite H. done. Qed.

(** [a + b]: the result has the elements of [a] followed by those of [b] in
    a block that was not live; nothing else in the heap changes. *)
Lemma concatenate_spec a b h ba arra bb arrb la lb :
  owns a h ba arra -> owns b h bb arrb -> N a + N b <= INT_MAX ->
  elements a h = Some la -> elements b h = Some lb ->
  exists r h' br arrr,
    concatenate a b h = Ret r h' /\
    owns r h' br arrr /\
    size r = size a + size b /\
    elements r h' = Some (la ++ lb) /\
    h !! br = None /\ h' = <[br := arrr]> h /\
    owns a h' ba arra /\ owns b h' bb arrb /\
    elements a h' = Some la /\ elements b h' = Some lb /\
    capacity r = capacity a + capacity b.
Proof.
  intros Ha Hb Hov Hla Hlb.
  pose proof Ha as [Hpa Hba Hlena Hna HNa].
  pose proof Hb as [Hpb Hbb Hlenb Hnb HNb].
  rewrite (owns_elements _ _ _ _ Ha) in Hla. injection Hla as <-.
  rewrite (owns_elements _ _ _ _ Hb) in Hlb. injection Hlb as <-.
  set (b1 := fresh (dom h)).
  set (arrl := moved_into (N a) (n a) arra).
  set (lhs := mkVector (n a) (N a) (Some (Ptr b1 0))).
  set (h1 := <[b1 := arrl]> h).
  assert (Hb1 : h !! b1 = None) by apply fresh_block_dead.
  assert (Hol : owns lhs h1 b1 arrl).
  { constructor; simpl; try (done || lia).
    - apply lookup_insert_eq.
    - apply length_moved_into; lia. }
  assert (Hob : owns b h1 bb arrb).
  { constructor; try done. unfold h1. rewrite lookup_insert_ne; [done|].
    intros ->. congruence. }
  destruct (resized lhs h1 b1 arrl (N lhs + N b)) as [[[v1 hr] b2] arr2] eqn:Hr.
  assert (Hc : n lhs <= N lhs + N b <= INT_MAX) by (simpl; lia).
  destruct (owns_resized _ _ _ _ _ _ _ _ _ Hol Hc Hr)
    as (Ho1 & Hn1 & HN1' & Htk & Hb2 & Hhr).
  pose proof Ho1 as [Hp1 Hbl1 Hl1 Hn1' HN1].
  assert (Hne : b1 <> bb) by (intros ->; congruence).
  assert (Hb2dead : h1 !! b2 = None) by (rewrite Hb2; apply fresh_block_dead).
  assert (Hb21 : b2 <> b1).
  { intros ->. unfold h1 in Hb2dead. rewrite lookup_insert_eq in Hb2dead. done. }
  assert (Hb2h : h !! b2 = None).
  { unfold h1 in Hb2dead. rewrite lookup_insert_ne in Hb2dead; done. }
  set (arrr := splice arr2 (Z.to_nat (n lhs)) (take (Z.to_nat (n b)) arrb)).
  set (res := with_n (n lhs + n b) v1).
  assert (Hheap : <[b2 := arrr]> hr = <[b2 := arrr]> h).
  { rewrite Hhr. apply map_eq. intros q.
    destruct (decide (q = b2)) as [->|Hq2].
    - rewrite !lookup_insert_eq. done.
    - rewrite !lookup_insert_ne by done.
      destruct (decide (q = b1)) as [->|Hq1].
      + rewrite lookup_delete_eq. done.
      + rewrite lookup_delete_ne, lookup_insert_ne by done.
        unfold h1. rewrite lookup_insert_ne; done. }
  assert (Hrun : concatenate a b h = Ret res (<[b2 := arrr]> h)).
  { unfold concatenate.
    rewrite (bind_Ret _ _ _ _ _ (Vector_copy_spec _ _ _ _ Ha)).
    fold b1 arrl lhs h1. unfold operator_plus.
    erewrite bind_Ret; cycle 1.
    { eapply call_Ret.
      eapply operator_plus_eq_other;
        [exact Hol|exact Hob|exact Hne|simpl; lia|exact Hr]. }
    cbn [snd fst Vector_move].
    erewrite bind_Ret by reflexivity.
    unfold ret. fold arrr. rewrite <- Hheap. done. }
  assert (Hor : owns res (<[b2 := arrr]> h) b2 arrr).
  { rewrite <- Hheap. apply (owns_update _ _ _ arr2); [done| |simpl in *; lia].
    apply length_splice. rewrite length_take. simpl in *. lia. }
  assert (Hoa : owns a (<[b2 := arrr]> h) ba arra).
  { constructor; try done. rewrite lookup_insert_ne; [done|]. intros ->. congruence. }
  assert (Hobb : owns b (<[b2 := arrr]> h) bb arrb).
  { constructor; try done. rewrite lookup_insert_ne; [done|]. intros ->. congruence. }
  exists res, (<[b2 := arrr]> h), b2, arrr.
  split; [done|]. split; [done|].
  split; [unfold res, size; simpl; lia|].
  split; [|split; [done|split; [done|split; [done|split; [done|]]]]].
  - rewrite (owns_elements _ _ _ _ Hor). f_equal. unfold res, arrr. cbn [n with_n].
    assert (Hw : length (take (Z.to_nat (n b)) arrb) = Z.to_nat (n b))
      by (rewrite length_take; lia).
    replace (Z.to_nat (n lhs + n b))
      with (Z.to_nat (n lhs) + length (take (Z.to_nat (n b)) arrb))%nat by lia.
    rewrite take_splice_tail by (simpl in *; lia).
    rewrite Htk. unfold arrl. simpl n.
    rewrite take_moved_into by lia. done.
  - split; [apply (owns_elements _ _ _ _ Hoa)|].
    split; [apply (owns_elements _ _ _ _ Hobb)|].
    unfold res, capacity. cbn [N with_n]. rewrite HN1'. done.
Qed.

(** C8: [a + b] returns a vector whose length is the sum of the lengths and
    whose elements are those of [a] followed by those of [b]; [a] and [b]
    own the arrays they owned, with the elements they had. *)
Theorem concatenate_appends a b h ba arra bb arrb la lb :
  owns a h ba arra -> owns b h bb arrb -> N a + N b <= INT_MAX ->
  elements a h = Some la -> elements b h = Some lb ->
  exists r h',
    concatenate a b h = Ret r h' /\
    wf r h' /\
    size r = size a + size b /\
    elements r h' = Some (la ++ lb) /\
    owns a h' ba arra /\ owns b h' bb arrb /\
    elements a h' = Some la /\ elements b h' = Some lb.
Proof.
  intros Ha Hb Hov Hla Hlb.
  destruct (concatenate_spec _ _ _ _ _ _ _ _ _ Ha Hb Hov Hla Hlb)
    as (r & h' & br & arrr & Hrun & Hor & Hsz & Hel & _ & _ & Hoa & Hob & Hea & Heb & _).
  exists r, h'. split; [done|]. split; [exists br, arrr; done|]. done.
Qed.

(** ** Where the capacity changes *)

Lemma grown_with_room v h b arr :
  n v < N v -> grown v h b arr = (v, h, b, arr).
Proof.
  intros H. unfold grown. destruct (Z.eqb_spec (n v) (N v)); [lia|done].
Qed.

Lemma remove_last v h b arr :
  owns v h b arr -> remove (n v - 1) (v, h) = remove_back (v, h).
Proof.
  intros [Hp Hb Hl Hn HN]. unfold remove. rewrite bind_this.
  rewrite bind_int by (unfold INT_MIN; lia).
  rewrite Z.eqb_refl. done.
Qed.

Lemma dom_update (h : heap) b arr arr' :
  h !! b = Some arr -> dom (<[b := arr']> h) = dom h.
Proof. intros Hb. apply dom_insert_lookup_L. rewrite Hb. done. Qed.

(** With room left, [insert_back] and [insert] return with the capacity
    and the array pointer they found, and allocate and free nothing;
    [remove] at an index before the last does the same unless the length
    it leaves equals a quarter of the capacity. *)
Lemma capacity_kept_off_the_triggers v h b arr :
  owns v h b arr ->
  (forall x, n v < N v ->
     exists v' h', insert_back x (v, h) = Ret tt (v', h') /\
       capacity v' = capacity v /\ pv v' = pv v /\ dom h' = dom h) /\
  (forall i x, 0 <= i <= n v -> n v < N v ->
     exists v' h', insert i x (v, h) = Ret tt (v', h') /\
       capacity v' = capacity v /\ pv v' = pv v /\ dom h' = dom h) /\
  (forall i, 0 <= i < n v - 1 -> n v - 1 <> capacity v ÷ 4 ->
     exists v' h', remove i (v, h) = Ret tt (v', h') /\
       size v' = n v - 1 /\
       capacity v' = capacity v /\ pv v' = pv v /\ dom h' = dom h).
Proof.
  intros Ho. pose proof Ho as [Hp Hb Hl Hn HN].
  assert (Hback : forall x, n v < N v ->
     exists v' h', insert_back x (v, h) = Ret tt (v', h') /\
       capacity v' = capacity v /\ pv v' = pv v /\ dom h' = dom h).
  { intros x Hroom.
    exists (with_n (n v + 1) v), (<[b := <[Z.to_nat (n v) := x]> arr]> h).
    split.
    - apply (insert_back_spec _ _ b arr); [done|lia|lia|].
      apply grown_with_room, Hroom.
    - split; [done|]. split; [done|]. eapply dom_update, Hb. }
  split; [exact Hback|]. split.
  - intros i x Hi Hroom.
    destruct (decide (i = n v)) as [->|Hne].
    + destruct (Hback x Hroom) as (v' & h' & Hrun & Hrest).
      exists v', h'. split; [|done].
      unfold insert. rewrite bind_this, Z.eqb_refl. done.
    + exists (with_n (n v + 1) v), (<[b := shifted_in arr i (n v) x]> h).
      split.
      * apply (insert_spec _ _ b arr); [done|lia|lia|].
        apply grown_with_room, Hroom.
      * split; [done|]. split; [done|]. eapply dom_update, Hb.
  - intros i Hi Hq. unfold capacity in Hq.
    set (arr2 := shifted_out arr i (n v)).
    exists (with_n (n v - 1) v), (<[b := arr2]> h). split.
    + apply (remove_spec _ _ b arr _ _ _ b arr2); [done|lia|].
      unfold shrunk. cbn [n N with_n].
      destruct (Z.eqb_spec (n v - 1) (N v ÷ 4)); [done|].
      rewrite andb_false_r. done.
    + split; [done|]. split; [done|]. split; [done|]. eapply dom_update, Hb.
Qed.

(** ** Exceptions *)

Lemma bind_int_Undef {S B} z (k : Z -> M S B) (s : S) :
  INT_MAX < z -> bind (int z) k s = Undef.
Proof.
  intros H. unfold bind, int, in_int.
  destruct (Z.leb_spec z INT_MAX); [lia|].
  rewrite andb_false_r. done.
Qed.

Lemma insert_back_overflow v h x :
  n v = N v -> INT_MAX < N v * 2 -> insert_back x (v, h) = Undef.
Proof.
  intros Heq Hov. unfold insert_back. rewrite bind_this.
  unfold bind at 1.
  destruct (Z.eqb_spec (n v) (N v)); [|lia].
  rewrite bind_int_Undef by done. done.
Qed.

Lemma insert_overflow v h i x :
  0 <= i < n v -> n v = N v -> INT_MAX < N v * 2 -> insert i x (v, h) = Undef.
Proof.
  intros Hi Heq Hov. unfold insert. rewrite bind_this.
  destruct (Z.eqb_spec i (n v)); [lia|].
  unfold valid.
  destruct (Z.leb_spec 0 i); [|lia]. destruct (Z.ltb_spec i (n v)); [|lia].
  cbn [andb negb]. unfold bind at 1.
  destruct (Z.eqb_spec (n v) (N v)); [|lia].
  rewrite bind_int_Undef by done. done.
Qed.

(** On a well-formed vector [insert_back] returns or is undefined: it throws
    nothing. *)
Lemma insert_back_no_exception v h b arr x e s :
  owns v h b arr -> insert_back x (v, h) <> Raise e s.
Proof.
  intros Ho. pose proof Ho as [Hp Hb Hl Hn HN].
  destruct (decide (N v = 0)) as [H0|H0].
  { rewrite (insert_back_no_capacity _ _ _ _ _ Ho H0). done. }
  destruct (decide (n v = N v /\ INT_MAX < N v * 2)) as [[Heq Hov]|Hok].
  { rewrite insert_back_overflow by done. done. }
  destruct (grown v h b arr) as [[[v1 h1] b1] arr1] eqn:Hg.
  rewrite (insert_back_spec v h b arr x v1 h1 b1 arr1); [done|done|lia|lia|done].
Qed.

Lemma insert_invalid v h i x :
  0 <= n v -> ~ 0 <= i <= n v ->
  insert i x (v, h)
  = Raise (out_of_range "Vector::insert() i out of range.") (v, h).
Proof.
  intros Hn Hi. unfold insert. rewrite bind_this.
  destruct (Z.eqb_spec i (n v)); [lia|].
  unfold valid.
  destruct (Z.leb_spec 0 i); destruct (Z.ltb_spec i (n v)); try lia; done.
Qed.

Lemma remove_back_empty v h :
  n v = 0 ->
  remove_back (v, h) = Raise (out_of_range "Vector::remove_back") (v, h).
Proof.
  intros H0. unfold remove_back. rewrite bind_this. unfold empty.
  rewrite H0. done.
Qed.

Lemma remove_invalid v h i :
  0 <= n v <= INT_MAX -> ~ 0 <= i < n v ->
  remove i (v, h)
  = Raise (out_of_range (if (n v =? 0) && (i =? -1)
                         then "Vector::remove_back"
                         else "Vector::remove() i out of range.")) (v, h).
Proof.
  intros Hn Hi. unfold remove. rewrite bind_this.
  rewrite bind_int by (unfold INT_MIN; lia).
  destruct (Z.eqb_spec i (n v - 1)) as [->|Hne].
  - assert (H0 : n v = 0) by lia.
    rewrite (remove_back_empty _ _ H0), H0. done.
  - unfold valid.
    replace ((n v =? 0) && (i =? -1)) with false; cycle 1.
    { symmetry. apply andb_false_iff.
      destruct (Z.eqb_spec (n v) 0); [right|left; done].
      apply Z.eqb_neq. lia. }
    destruct (Z.leb_spec 0 i); destruct (Z.ltb_spec i (n v)); try lia; done.
Qed.

(** C7: on a well-formed vector the checked operations throw exactly when
    the index is outside the interval of the operation, or the vector is
    empty; what is thrown is [std::out_of_range], and the object and the
    heap are then as they were before the call. *)
Theorem checked_operations_throw_exactly_when_invalid v h b arr :
  owns v h b arr ->
  (forall i x,
     (~ 0 <= i <= n v ->
      insert i x (v, h)
      = Raise (out_of_range "Vector::insert() i out of range.") (v, h)) /\
     (0 <= i <= n v -> forall e s, insert i x (v, h) <> Raise e s)) /\
  (forall i,
     (~ 0 <= i < n v ->
      remove i (v, h)
      = Raise (out_of_range (if (n v =? 0) && (i =? -1)
                             then "Vector::remove_back"
                             else "Vector::remove() i out of range.")) (v, h)) /\
     (0 <= i < n v -> forall e s, remove i (v, h) <> Raise e s)) /\
  (forall i,
     (~ 0 <= i < n v -> at_ i (v, h) = Raise (out_of_range "Vector::at") (v, h)) /\
     (0 <= i < n v -> forall e s, at_ i (v, h) <> Raise e s)) /\
  ((n v = 0 -> front (v, h) = Raise (out_of_range "Vector::front") (v, h)) /\
   (n v <> 0 -> forall e s, front (v, h) <> Raise e s)) /\
  ((n v = 0 -> back (v, h) = Raise (out_of_range "Vector::back") (v, h)) /\
   (n v <> 0 -> forall e s, back (v, h) <> Raise e s)) /\
  ((n v = 0 ->
    remove_back (v, h) = Raise (out_of_range "Vector::remove_back") (v, h)) /\
   (n v <> 0 -> forall e s, remove_back (v, h) <> Raise e s)).
Proof.
  intros Ho. pose proof Ho as [Hp Hb Hl Hn HN].
  assert (Hrb : n v <> 0 -> forall e s, remove_back (v, h) <> Raise e s).
  { intros Hne e s.
    destruct (shrunk v h b arr) as [[[v1 h1] b1] arr1] eqn:Hs.
    rewrite (remove_back_spec v h b arr v1 h1 b1 arr1); [done|done|lia|done]. }
  split; [|split; [|split; [|split; [|split]]]].
  - intros i x. split.
    + apply insert_invalid. lia.
    + intros Hi e s.
      destruct (decide (i = n v)) as [->|Hne].
      { unfold insert. rewrite bind_this, Z.eqb_refl.
        apply (insert_back_no_exception _ _ _ _ _ _ _ Ho). }
      destruct (decide (n v = N v /\ INT_MAX < N v * 2)) as [[Heq Hov]|Hok].
      { rewrite insert_overflow by (done || lia). done. }
      destruct (grown v h b arr) as [[[v1 h1] b1] arr1] eqn:Hg.
      rewrite (insert_spec v h b arr i x v1 h1 b1 arr1); [done|done|lia|lia|done].
  - intros i. split.
    + apply remove_invalid. lia.
    + intros Hi e s.
      destruct (decide (i = n v - 1)) as [->|Hne].
      { rewrite (remove_last _ _ _ _ Ho). apply Hrb. lia. }
      set (arr2 := shifted_out arr i (n v)).
      destruct (shrunk (with_n (n v - 1) v) (<[b := arr2]> h) b arr2)
        as [[[v1 h1] b1] arr1] eqn:Hs.
      rewrite (remove_spec v h b arr i v1 h1 b1 arr1); [done|done|lia|exact Hs].
  - intros i. split.
    + intros Hi. unfold at_. rewrite bind_this. unfold valid.
      destruct (Z.leb_spec 0 i); destruct (Z.ltb_spec i (n v)); try lia; done.
    + intros Hi e s. unfold at_. rewrite bind_this. unfold valid.
      destruct (Z.leb_spec 0 i); destruct (Z.ltb_spec i (n v)); try lia; done.
  - split.
    + intros H0. unfold front. rewrite bind_this. unfold empty. rewrite H0. done.
    + intros H0 e s. unfold front. rewrite bind_this. unfold empty.
      destruct (Z.eqb_spec (n v) 0); [lia|done].
  - split.
    + intros H0. unfold back. rewrite bind_this. unfold empty. rewrite H0. done.
    + intros H0 e s. unfold back. rewrite bind_this. unfold empty.
      destruct (Z.eqb_spec (n v) 0); [lia|done].
  - split; [apply remove_back_empty|done].
Qed.

(** ** Frames and the steps of a program *)

Lemma frame_refl (h : heap) b : frame h b h b.
Proof. split; [left; done|done]. Qed.

Lemma frame_update (h : heap) b h1 b1 (arr' : list E) :
  frame h b h1 b1 -> frame h b (<[b1 := arr']> h1) b1.
Proof.
  intros [H1 H2]. split; [done|].
  intros q Hq Hq1. rewrite lookup_insert_ne by done. apply H2; done.
Qed.

Lemma frame_moved (h : heap) b arr (arr' : list E) :
  h !! b = Some arr ->
  frame h b (delete b (<[fresh (dom h) := arr']> h)) (fresh (dom h)).
Proof.
  intros Hb. split; [right; apply fresh_block_dead|].
  intros q Hq Hq1. rewrite lookup_delete_ne, lookup_insert_ne; done.
Qed.

Lemma frame_resized v h b arr count v1 h1 b1 arr1 :
  owns v h b arr -> resized v h b arr count = (v1, h1, b1, arr1) ->
  frame h b h1 b1.
Proof.
  intros [Hp Hb Hl Hn HN] Hr. unfold resized in Hr.
  injection Hr as <- <- <- <-. eapply frame_moved, Hb.
Qed.

Lemma frame_grown v h b arr v1 h1 b1 arr1 :
  owns v h b arr -> grown v h b arr = (v1, h1, b1, arr1) -> frame h b h1 b1.
Proof.
  intros Ho Hg. unfold grown in Hg. destruct (n v =? N v).
  - eapply frame_resized; done.
  - injection Hg as <- <- <- <-. apply frame_refl.
Qed.

Lemma frame_shrunk v h b arr v1 h1 b1 arr1 :
  owns v h b arr -> shrunk v h b arr = (v1, h1, b1, arr1) -> frame h b h1 b1.
Proof.
  intros Ho Hg. unfold shrunk in Hg.
  destruct ((0 <? n v) && (n v =? N v ÷ 4)).
  - eapply frame_resized; done.
  - injection Hg as <- <- <- <-. apply frame_refl.
Qed.

Lemma capacity_grown v h b arr v1 h1 b1 arr1 :
  0 <= N v -> grown v h b arr = (v1, h1, b1, arr1) -> N v <= N v1.
Proof.
  intros H0 Hg. unfold grown in Hg. destruct (n v =? N v).
  - unfold resized in Hg. injection Hg as <- <- <- <-. simpl. lia.
  - injection Hg as <- <- <- <-. lia.
Qed.

(** Halving happens at a positive quarter, so from a capacity of at least 4,
    and leaves at least 2. *)
Lemma capacity_shrunk v h b arr v1 h1 b1 arr1 :
  2 <= N v -> shrunk v h b arr = (v1, h1, b1, arr1) -> 2 <= N v1.
Proof.
  intros H2 Hg. unfold shrunk in Hg.
  destruct ((0 <? n v) && (n v =? N v ÷ 4)) eqn:Hc.
  - apply andb_true_iff in Hc as [Hc1%Z.ltb_lt Hc2%Z.eqb_eq].
    unfold resized in Hg. injection Hg as <- <- <- <-. simpl.
    assert (H0 : 0 <= N v) by lia.
    pose proof (quot_bounds (N v) H0). lia.
  - injection Hg as <- <- <- <-. lia.
Qed.

Lemma step_ok_same v h b arr e :
  owns v h b arr -> 2 <= N v -> step_ok h b (Raise e (v, h)).
Proof.
  intros Ho H2. exists b, arr. split; [done|]. split; [done|apply frame_refl].
Qed.

Lemma insert_back_ok v h b arr x :
  owns v h b arr -> 2 <= N v -> step_ok h b (insert_back x (v, h)).
Proof.
  intros Ho H2. pose proof Ho as [Hp Hb Hl Hn HN].
  destruct (decide (n v = N v /\ INT_MAX < N v * 2)) as [[Heq Hov]|Hok].
  { rewrite insert_back_overflow by done. done. }
  assert (Hov : n v = N v -> N v * 2 <= INT_MAX) by lia.
  destruct (grown v h b arr) as [[[v1 h1] b1] arr1] eqn:Hg.
  destruct (owns_grown _ _ _ _ _ _ _ _ Ho Hov Hg) as (Ho1 & Hn1 & Ht & Hlt).
  assert (HN0 : 0 <= N v) by lia.
  pose proof (capacity_grown _ _ _ _ _ _ _ _ HN0 Hg) as Hcap.
  pose proof Ho1 as [Hp1 Hb1 Hl1 Hn1' HN1].
  rewrite (insert_back_spec v h b arr x v1 h1 b1 arr1); [|done|lia|done|done].
  exists b1, (<[Z.to_nat (n v) := x]> arr1). cbn [fst snd].
  split; [|split; [simpl; lia|]].
  - apply (owns_update _ _ _ arr1); [done|apply length_insert|lia].
  - apply frame_update. eapply frame_grown; done.
Qed.

Lemma insert_ok v h b arr i x :
  owns v h b arr -> 2 <= N v -> step_ok h b (insert i x (v, h)).
Proof.
  intros Ho H2. pose proof Ho as [Hp Hb Hl Hn HN].
  destruct (decide (i = n v)) as [->|Hne].
  { replace (insert (n v) x (v, h)) with (insert_back x (v, h)).
    - eapply insert_back_ok; done.
    - unfold insert. rewrite bind_this, Z.eqb_refl. done. }
  destruct (decide (0 <= i <= n v)) as [Hi|Hi]; cycle 1.
  { rewrite (insert_invalid _ _ _ _ (proj1 Hn) Hi). eapply step_ok_same; done. }
  destruct (decide (n v = N v /\ INT_MAX < N v * 2)) as [[Heq Hov]|Hok].
  { rewrite insert_overflow by (done || lia). done. }
  assert (Hov : n v = N v -> N v * 2 <= INT_MAX) by lia.
  destruct (grown v h b arr) as [[[v1 h1] b1] arr1] eqn:Hg.
  destruct (owns_grown _ _ _ _ _ _ _ _ Ho Hov Hg) as (Ho1 & Hn1 & Ht & Hlt).
  assert (HN0 : 0 <= N v) by lia.
  pose proof (capacity_grown _ _ _ _ _ _ _ _ HN0 Hg) as Hcap.
  pose proof Ho1 as [Hp1 Hb1 Hl1 Hn1' HN1].
  rewrite (insert_spec v h b arr i x v1 h1 b1 arr1); [|done|lia|done|done].
  exists b1, (shifted_in arr1 i (n v) x). cbn [fst snd].
  split; [|split; [simpl; lia|]].
  - apply (owns_update _ _ _ arr1); [done| |lia].
    apply length_shifted_in; lia.
  - apply frame_update. eapply frame_grown; done.
Qed.

Lemma remove_back_ok v h b arr :
  owns v h b arr -> 2 <= N v -> step_ok h b (remove_back (v, h)).
Proof.
  intros Ho H2. pose proof Ho as [Hp Hb Hl Hn HN].
  destruct (decide (n v = 0)) as [H0|H0].
  { rewrite (remove_back_empty _ _ H0). eapply step_ok_same; done. }
  destruct (shrunk v h b arr) as [[[v1 h1] b1] arr1] eqn:Hs.
  rewrite (remove_back_spec v h b arr v1 h1 b1 arr1); [|done|lia|done].
  destruct (owns_shrunk _ _ _ _ _ _ _ _ Ho Hs) as (Ho1 & _).
  exists b1, arr1. cbn [fst snd].
  split; [done|]. split.
  - eapply capacity_shrunk; done.
  - eapply frame_shrunk; done.
Qed.

Lemma remove_ok v h b arr i :
  owns v h b arr -> 2 <= N v -> step_ok h b (remove i (v, h)).
Proof.
  intros Ho H2. pose proof Ho as [Hp Hb Hl Hn HN].
  destruct (decide (0 <= i < n v)) as [Hi|Hi]; cycle 1.
  { assert (Hn' : 0 <= n v <= INT_MAX) by lia.
    rewrite (remove_invalid _ _ _ Hn' Hi). eapply step_ok_same; done. }
  destruct (decide (i = n v - 1)) as [->|Hne].
  { rewrite (remove_last _ _ _ _ Ho). eapply remove_back_ok; done. }
  set (arr2 := shifted_out arr i (n v)).
  assert (Ho2 : owns (with_n (n v - 1) v) (<[b := arr2]> h) b arr2).
  { apply (owns_update _ _ _ arr); [done| |lia].
    apply length_shifted_out; lia. }
  destruct (shrunk (with_n (n v - 1) v) (<[b := arr2]> h) b arr2)
    as [[[v1 h1] b1] arr1] eqn:Hs.
  rewrite (remove_spec v h b arr i v1 h1 b1 arr1); [|done|lia|exact Hs].
  destruct (owns_shrunk _ _ _ _ _ _ _ _ Ho2 Hs) as (Ho1 & _).
  exists b1, arr1. cbn [fst snd].
  split; [done|]. split.
  - eapply capacity_shrunk; [|exact Hs]. simpl. lia.
  - pose proof (frame_shrunk _ _ _ _ _ _ _ _ Ho2 Hs) as [Hf1 Hf2].
    split.
    + destruct Hf1 as [->|Hf1]; [left; done|].
      destruct (decide (b1 = b)) as [->|Hb1]; [left; done|right].
      rewrite lookup_insert_ne in Hf1; done.
    + intros q Hq Hq1. rewrite Hf2 by done. rewrite lookup_insert_ne; done.
Qed.

Lemma clear_ok v h b arr :
  owns v h b arr -> 2 <= N v -> step_ok h b (clear (v, h)).
Proof.
  intros Ho H2. pose proof Ho as [Hp Hb Hl Hn HN].
  exists b, arr. cbn [fst snd clear put_n].
  split; [|split; [done|apply frame_refl]].
  constructor; simpl; try (done || lia).
Qed.

Lemma assign_from_ok v h b arr y bt arrt :
  owns v h b arr -> owns y h bt arrt -> 2 <= N y ->
  step_ok h b (assign_from y (v, h)).
Proof.
  intros Ho Hy H2. pose proof Ho as [Hp Hb Hl Hn HN].
  pose proof Hy as [Hpy Hby Hly Hny HNy].
  rewrite (assign_from_spec _ _ _ _ _ _ _ Ho Hy).
  exists (fresh (dom h)), (moved_into (N y) (n y) arrt). cbn [fst snd].
  split; [|split; [done|eapply frame_moved, Hb]].
  constructor; simpl; try (done || lia).
  - rewrite lookup_delete_ne by (apply (fresh_block_ne _ _ _ Hb)).
    apply lookup_insert_eq.
  - apply length_moved_into; lia.
Qed.

Lemma operator_plus_eq_overflow v h that t :
  deref that (v, h) = Ret t (v, h) -> INT_MAX < N v + N t ->
  operator_plus_eq that (v, h) = Undef.
Proof.
  intros Hd Hov. unfold operator_plus_eq. rewrite bind_this.
  rewrite (bind_Ret _ _ _ _ _ Hd).
  apply bind_int_Undef. done.
Qed.

Lemma append_self_ok v h b arr :
  owns v h b arr -> 2 <= N v -> step_ok h b (operator_plus_eq Self (v, h)).
Proof.
  intros Ho H2. pose proof Ho as [Hp Hb Hl Hn HN].
  destruct (decide (INT_MAX < N v + N v)) as [Hov|Hov].
  { rewrite (operator_plus_eq_overflow v h Self v); done. }
  destruct (resized v h b arr (N v + N v)) as [[[v1 h1] b1] arr1] eqn:Hr.
  assert (Hc : n v <= N v + N v <= INT_MAX) by lia.
  destruct (owns_resized _ _ _ _ _ _ _ _ _ Ho Hc Hr)
    as (Ho1 & Hn1 & HN1' & Htk & Hb1' & Hh1).
  pose proof Ho1 as [Hp1 Hb1 Hl1 Hn1' HN1].
  rewrite (operator_plus_eq_self v h b arr v1 h1 b1 arr1); [|done|lia|done].
  eexists b1, _. cbn [fst snd].
  split; [|split; [simpl; lia|]].
  - apply (owns_update _ _ _ arr1); [done| |lia].
    apply length_splice. rewrite length_take. lia.
  - apply frame_update. eapply frame_resized; done.
Qed.

Lemma append_other_ok v h b arr t bt arrt :
  owns v h b arr -> owns t h bt arrt -> b <> bt -> 2 <= N v -> 0 <= N t ->
  step_ok h b (operator_plus_eq (Other t) (v, h)).
Proof.
  intros Ho Ht Hne H2 H0. pose proof Ho as [Hp Hb Hl Hn HN].
  pose proof Ht as [Hpt Hbt Hlt Hnt HNt].
  destruct (decide (INT_MAX < N v + N t)) as [Hov|Hov].
  { rewrite (operator_plus_eq_overflow v h (Other t) t); done. }
  destruct (resized v h b arr (N v + N t)) as [[[v1 h1] b1] arr1] eqn:Hr.
  assert (Hc : n v <= N v + N t <= INT_MAX) by lia.
  destruct (owns_resized _ _ _ _ _ _ _ _ _ Ho Hc Hr)
    as (Ho1 & Hn1 & HN1' & Htk & Hb1' & Hh1).
  pose proof Ho1 as [Hp1 Hb1 Hl1 Hn1' HN1].
  rewrite (operator_plus_eq_other v h b arr t bt arrt v1 h1 b1 arr1);
    [|done|done|done|lia|done].
  eexists b1, _. cbn [fst snd].
  split; [|split; [simpl; lia|]].
  - apply (owns_update _ _ _ arr1); [done| |lia].
    apply length_splice. rewrite length_take. lia.
  - apply frame_update. eapply frame_resized; done.
Qed.

Lemma concatenate_overflow a b h ba arra :
  owns a h ba arra -> INT_MAX < N a + N b -> concatenate a b h = Undef.
Proof.
  intros Ha Hov. unfold concatenate.
  rewrite (bind_Ret _ _ _ _ _ (Vector_copy_spec _ _ _ _ Ha)).
  unfold operator_plus, bind at 1.
  rewrite call_Undef; [done|].
  eapply (operator_plus_eq_overflow _ _ (Other b) b); done.
Qed.

(** ** The invariant of a program *)

Lemma Vector_eta v : mkVector (n v) (N v) (pv v) = v.
Proof. destruct v. done. Qed.

Lemma owns_block_eq v w h b arr b' arr' :
  owns v h b arr -> owns w h b' arr' -> b = b' -> pv v = pv w.
Proof. intros [Hp _ _ _ _] [Hp' _ _ _ _] ->. congruence. Qed.

(** A member function that respects the frame keeps the invariant. *)
Lemma inv_update w k v b arr v' h' b' arr' :
  inv 2 w -> objs w !! k = Some v -> owns v (hp w) b arr ->
  owns v' h' b' arr' -> 2 <= N v' -> frame (hp w) b h' b' ->
  inv 2 (World (<[k := v']> (objs w)) h').
Proof.
  intros [Hown Hdis] Hk Ho Ho' H2 [Hf1 Hf2].
  pose proof (lookup_lt_Some _ _ _ Hk) as Hlen.
  assert (Hother : forall i vi, i <> k -> objs w !! i = Some vi ->
            exists bi arri, owns vi h' bi arri /\ 2 <= N vi /\ bi <> b').
  { intros i vi Hik Hi.
    destruct (Hown i vi Hi) as (bi & arri & Hoi & H2i).
    assert (Hbi : bi <> b).
    { intros ->. apply Hik, (Hdis i k vi v Hi Hk).
      eapply owns_block_eq; done. }
    assert (Hbi' : bi <> b').
    { intros ->. destruct Hoi as [_ Hlive _ _ _].
      destruct Hf1 as [->|Hdead]; [done|congruence]. }
    exists bi, arri. split; [|done].
    destruct Hoi as [Hp Hlive Hl Hn HN].
    constructor; try done. simpl. rewrite Hf2; done. }
  split; simpl.
  - intros i vi Hi. destruct (decide (i = k)) as [->|Hik].
    + rewrite list_lookup_insert_eq in Hi by done. injection Hi as <-.
      exists b', arr'. done.
    + rewrite list_lookup_insert_ne in Hi by done.
      destruct (Hother i vi Hik Hi) as (bi & arri & Hoi & H2i & _).
      exists bi, arri. done.
  - intros i j vi vj Hi Hj Hpv.
    destruct (decide (i = k)) as [->|Hik]; destruct (decide (j = k)) as [->|Hjk];
      try done.
    + rewrite list_lookup_insert_eq in Hi by done. injection Hi as <-.
      rewrite list_lookup_insert_ne in Hj by done.
      destruct (Hother j vj Hjk Hj) as (bj & arrj & [Hpj _ _ _ _] & _ & Hne).
      destruct Ho' as [Hp' _ _ _ _]. congruence.
    + rewrite list_lookup_insert_eq in Hj by done. injection Hj as <-.
      rewrite list_lookup_insert_ne in Hi by done.
      destruct (Hother i vi Hik Hi) as (bi & arri & [Hpi _ _ _ _] & _ & Hne).
      destruct Ho' as [Hp' _ _ _ _]. congruence.
    + rewrite list_lookup_insert_ne in Hi, Hj by done.
      eapply Hdis; done.
Qed.

Lemma on_inv k m w v b arr :
  inv 2 w -> objs w !! k = Some v -> owns v (hp w) b arr ->
  step_ok (hp w) b (m (v, hp w)) ->
  match on k m w with
  | Ret _ w' | Raise _ w' => inv 2 w'
  | Undef | Aborted => True
  end.
Proof.
  intros Hinv Hk Ho Hok. unfold on. rewrite Hk.
  destruct (m (v, hp w)) as [a s|e s| |]; try done;
    destruct Hok as (b' & arr' & Ho' & H2 & Hf);
    eapply inv_update; done.
Qed.

(** A new vector in a block that was not live keeps the invariant. *)
Lemma inv_push w r br arrr :
  inv 2 w -> hp w !! br = None ->
  owns r (<[br := arrr]> (hp w)) br arrr -> 2 <= N r ->
  inv 2 (World (objs w ++ [r]) (<[br := arrr]> (hp w))).
Proof.
  intros [Hown Hdis] Hdead Hor H2.
  assert (Hold : forall i vi, objs w !! i = Some vi ->
            exists bi arri, owns vi (<[br := arrr]> (hp w)) bi arri /\
                            2 <= N vi /\ bi <> br).
  { intros i vi Hi.
    destruct (Hown i vi Hi) as (bi & arri & [Hp Hlive Hl Hn HN] & H2i).
    assert (Hne : bi <> br) by (intros ->; congruence).
    exists bi, arri. split; [|done].
    constructor; try done. rewrite lookup_insert_ne; done. }
  assert (Hcases : forall i vi, (objs w ++ [r]) !! i = Some vi ->
            objs w !! i = Some vi \/ (i = length (objs w) /\ vi = r)).
  { intros i vi Hi. apply lookup_app_Some in Hi as [Hi|[Hge Hi]]; [left; done|].
    right. apply list_lookup_singleton_Some in Hi as [Hi <-]. split; [lia|done]. }
  split; simpl.
  - intros i vi Hi. destruct (Hcases i vi Hi) as [Hi'|[-> ->]].
    + destruct (Hold i vi Hi') as (bi & arri & Hoi & H2i & _).
      exists bi, arri. done.
    + exists br, arrr. done.
  - intros i j vi vj Hi Hj Hpv.
    destruct (Hcases i vi Hi) as [Hi'|[-> ->]];
      destruct (Hcases j vj Hj) as [Hj'|[-> ->]]; try done.
    + eapply Hdis; done.
    + destruct (Hold i vi Hi') as (bi & arri & [Hpi _ _ _ _] & _ & Hne).
      destruct Hor as [Hpr _ _ _ _]. congruence.
    + destruct (Hold j vj Hj') as (bj & arrj & [Hpj _ _ _ _] & _ & Hne).
      destruct Hor as [Hpr _ _ _ _]. congruence.
Qed.

(** Exchanging two vectors of the program keeps the invariant. *)
Lemma inv_swap w j k vj vk :
  inv 2 w -> objs w !! j = Some vj -> objs w !! k = Some vk ->
  inv 2 (World (<[k := vj]> (<[j := vk]> (objs w))) (hp w)).
Proof.
  intros [Hown Hdis] Hj Hk.
  pose proof (lookup_lt_Some _ _ _ Hj) as Hlj.
  pose proof (lookup_lt_Some _ _ _ Hk) as Hlk.
  set (sigma := fun i : nat => if decide (i = k) then j
                               else if decide (i = j) then k else i).
  assert (Hs : forall i, <[k := vj]> (<[j := vk]> (objs w)) !! i
                         = objs w !! sigma i).
  { intros i. unfold sigma.
    destruct (decide (i = k)) as [->|Hik].
    - rewrite list_lookup_insert_eq by (rewrite length_insert; done). done.
    - rewrite list_lookup_insert_ne by done.
      destruct (decide (i = j)) as [->|Hij].
      + rewrite list_lookup_insert_eq by done. done.
      + rewrite list_lookup_insert_ne by done. done. }
  assert (Hinj : forall a c, sigma a = sigma c -> a = c).
  { intros a c. unfold sigma. repeat case_decide; congruence. }
  split; simpl.
  - intros i vi Hi. rewrite Hs in Hi. eapply Hown, Hi.
  - intros a c va vc Ha Hc Hpv. rewrite Hs in Ha, Hc.
    apply Hinj. eapply Hdis; done.
Qed.

Lemma exec_inv o w :
  inv 2 w ->
  match exec o w with
  | Ret _ w' | Raise _ w' => inv 2 w'
  | Undef | Aborted => True
  end.
Proof.
  intros Hinv. pose proof Hinv as [Hown Hdis].
  destruct o as [|k x|k i x|k i|k|k|j k|j k|j k|j k]; unfold exec.
  - unfold declare.
    assert (H0 : 0 <= DEFAULT_CAPACITY) by (unfold DEFAULT_CAPACITY; lia).
    rewrite (Vector_new_spec _ _ H0).
    apply inv_push; [done|apply fresh_block_dead| |simpl; unfold DEFAULT_CAPACITY; lia].
    apply owns_new. unfold DEFAULT_CAPACITY, INT_MAX. lia.
  - destruct (objs w !! k) as [v|] eqn:Hk; [|unfold on; rewrite Hk; done].
    destruct (Hown k v Hk) as (b & arr & Ho & H2).
    eapply on_inv; [done|done|done|]. eapply insert_back_ok; done.
  - destruct (objs w !! k) as [v|] eqn:Hk; [|unfold on; rewrite Hk; done].
    destruct (Hown k v Hk) as (b & arr & Ho & H2).
    eapply on_inv; [done|done|done|]. eapply insert_ok; done.
  - destruct (objs w !! k) as [v|] eqn:Hk; [|unfold on; rewrite Hk; done].
    destruct (Hown k v Hk) as (b & arr & Ho & H2).
    eapply on_inv; [done|done|done|]. eapply remove_ok; done.
  - destruct (objs w !! k) as [v|] eqn:Hk; [|unfold on; rewrite Hk; done].
    destruct (Hown k v Hk) as (b & arr & Ho & H2).
    eapply on_inv; [done|done|done|]. eapply remove_back_ok; done.
  - destruct (objs w !! k) as [v|] eqn:Hk; [|unfold on; rewrite Hk; done].
    destruct (Hown k v Hk) as (b & arr & Ho & H2).
    eapply on_inv; [done|done|done|]. eapply clear_ok; done.
  - destruct (objs w !! j) as [vj|] eqn:Hj; [|done].
    destruct (objs w !! k) as [vk|] eqn:Hk; [|done].
    unfold swap. rewrite bind_this. cbn.
    rewrite !Vector_eta. apply inv_swap; done.
  - destruct (objs w !! k) as [vk|] eqn:Hk; [|done].
    destruct (objs w !! j) as [vj|] eqn:Hj; [|unfold on; rewrite Hj; done].
    destruct (Hown j vj Hj) as (b & arr & Ho & H2).
    destruct (Hown k vk Hk) as (bk & arrk & Hok & H2k).
    eapply on_inv; [done|done|done|]. eapply assign_from_ok; done.
  - destruct (decide (j = k)) as [->|Hjk].
    + destruct (objs w !! k) as [v|] eqn:Hk; [|unfold on; rewrite Hk; done].
      destruct (Hown k v Hk) as (b & arr & Ho & H2).
      eapply on_inv; [done|done|done|]. eapply append_self_ok; done.
    + destruct (objs w !! k) as [vk|] eqn:Hk; [|done].
      destruct (objs w !! j) as [vj|] eqn:Hj; [|unfold on; rewrite Hj; done].
      destruct (Hown j vj Hj) as (b & arr & Ho & H2).
      destruct (Hown k vk Hk) as (bk & arrk & Hok & H2k).
      eapply on_inv; [done|done|done|].
      eapply append_other_ok; [done|done| |done|lia].
      intros ->. apply Hjk, (Hdis j k vj vk Hj Hk).
      eapply owns_block_eq; done.
  - destruct (objs w !! j) as [vj|] eqn:Hj; [|done].
    destruct (objs w !! k) as [vk|] eqn:Hk; [|done].
    destruct (Hown j vj Hj) as (b & arr & Ho & H2).
    destruct (Hown k vk Hk) as (bk & arrk & Hok & H2k).
    unfold declare.
    destruct (decide (INT_MAX < N vj + N vk)) as [Hov|Hov].
    { rewrite (concatenate_overflow _ _ _ _ _ Ho Hov). done. }
    assert (Hov' : N vj + N vk <= INT_MAX) by lia.
    destruct (concatenate_spec _ _ _ _ _ _ _ _ _ Ho Hok Hov'
                (owns_elements _ _ _ _ Ho) (owns_elements _ _ _ _ Hok))
      as (r & h' & br & arrr & Hrun & Hor & _ & _ & Hdead & -> & _ & _ & _ & _ & Hcap).
    rewrite Hrun. apply inv_push; [done|done|done|].
    unfold capacity in Hcap. lia.
Qed.

Lemma run_inv ops : forall w w',
  inv 2 w -> run ops w = Ret tt w' -> inv 2 w'.
Proof.
  induction ops as [|o ops IH]; intros w w' Hinv Hrun.
  - injection Hrun as <-. done.
  - simpl in Hrun. pose proof (exec_inv o w Hinv) as Hstep.
    destruct (exec o w) as [a w1|e w1| |]; try done; eapply IH; done.
Qed.

Lemma inv_empty : inv 2 (World [] ∅).
Proof. split; simpl; intros; done. Qed.

(** C4, as the code has it: in every state a program reaches from vectors
    created with the default capacity, each vector has a live array of its
    capacity, a length between 0 and the capacity, and a capacity of at
    least 2.  The default capacity is no lower limit. *)
Theorem length_within_capacity_at_least_two ops w k v :
  run ops (World [] ∅) = Ret tt w ->
  objs w !! k = Some v ->
  wf v (hp w) /\ 0 <= size v <= capacity v /\ 2 <= capacity v.
Proof.
  intros Hrun Hk.
  destruct (run_inv ops _ _ inv_empty Hrun) as [Hown _].
  destruct (Hown k v Hk) as (b & arr & Ho & H2).
  split; [exists b, arr; done|].
  destruct Ho as [_ _ _ Hn _]. done.
Qed.

Lemma owns_sample x y z :
  owns sample_vector (sample_heap x y z) 1%positive (sample_array x y z).
Proof.
  constructor; done.
Qed.

Lemma owns_sample_both x y z u :
  owns sample_vector (both_heap x y z u) 1%positive (sample_array x y z).
Proof.
  constructor; done.
Qed.

Lemma owns_other_both x y z u :
  owns other_vector (both_heap x y z u) 2%positive (other_array u).
Proof.
  constructor; done.
Qed.

(** * Further properties of the code *)

(** ** Reallocation *)

(** X1: [reserve(count)] with [count >= size()] returns with the length and
    the elements it found, capacity [count], and the array in a block that
    was not live; the old block is freed and no other block is touched.
    With [count < size()] the [assert] fails. *)
Theorem reserve_keeps_elements_in_fresh_array v h b arr l :
  owns v h b arr -> elements v h = Some l ->
  (forall count, n v <= count <= INT_MAX ->
     exists v' h' b' arr',
       reserve count (v, h) = Ret tt (v', h') /\ owns v' h' b' arr' /\
       size v' = size v /\ capacity v' = count /\ elements v' h' = Some l /\
       h !! b' = None /\ h' !! b = None /\
       (forall q, q <> b -> q <> b' -> h' !! q = h !! q)) /\
  (forall count, count < n v -> reserve count (v, h) = Aborted).
Proof.
  intros Ho Hl. pose proof Ho as [Hp Hb Hlen Hn HN].
  rewrite (owns_elements _ _ _ _ Ho) in Hl. injection Hl as <-.
  split.
  - intros count Hc.
    destruct (resized v h b arr count) as [[[v1 h1] b1] arr1] eqn:Hr.
    destruct (owns_resized _ _ _ _ _ _ _ _ _ Ho Hc Hr)
      as (Ho1 & Hn1 & HN1 & Htk & Hb1 & Hh1).
    exists v1, h1, b1, arr1.
    split.
    { rewrite (reserve_spec _ _ _ _ _ Ho Hc). unfold resized in Hr.
      injection Hr as <- <- _ _. done. }
    split; [done|]. split; [done|]. split; [done|].
    split; [rewrite (owns_elements _ _ _ _ Ho1), Hn1, Htk; done|].
    split; [rewrite Hb1; apply fresh_block_dead|].
    split; [rewrite Hh1; apply lookup_delete_eq|].
    intros q Hq Hq1. rewrite Hh1, lookup_delete_ne, lookup_insert_ne; done.
  - intros count Hc. unfold reserve. rewrite bind_this.
    unfold bind, assert, size.
    destruct (Z.leb_spec (n v) count); [lia|done].
Qed.

(** ** Insertion *)

Lemma insert_state v h b arr i x v1 h1 b1 arr1 :
  owns v h b arr -> 0 < N v -> (n v = N v -> N v * 2 <= INT_MAX) ->
  0 <= i <= n v ->
  grown v h b arr = (v1, h1, b1, arr1) ->
  insert i x (v, h)
  = Ret tt (with_n (n v + 1) v1, <[b1 := shifted_in arr1 i (n v) x]> h1).
Proof.
  intros Ho Hpos Hov Hi Hg.
  destruct (decide (i = n v)) as [->|Hne].
  - unfold insert. rewrite bind_this, Z.eqb_refl.
    rewrite (insert_back_spec _ _ _ _ _ _ _ _ _ Ho Hpos Hov Hg).
    unfold shifted_in. rewrite Z.sub_diag. simpl take.
    rewrite splice_nil. done.
  - apply (insert_spec _ _ b arr); (done || lia).
Qed.

Lemma elements_shifted_in arr i len x :
  0 <= i <= len -> len < Z.of_nat (length arr) ->
  take (Z.to_nat (len + 1)) (shifted_in arr i len x)
  = take (Z.to_nat i) (take (Z.to_nat len) arr)
    ++ x :: drop (Z.to_nat i) (take (Z.to_nat len) arr).
Proof.
  intros Hi Hlen. rewrite take_shifted_in by lia.
  rewrite take_take, Nat.min_l by lia.
  rewrite take_drop_commute.
  replace (Z.to_nat i + Z.to_nat (len - i))%nat with (Z.to_nat len) by lia.
  done.
Qed.

(** What [insert i x] leaves, in full. *)
Lemma insert_effect v h b arr i x l :
  owns v h b arr -> 0 < N v -> (n v = N v -> N v * 2 <= INT_MAX) ->
  0 <= i <= n v -> elements v h = Some l ->
  exists v' h' b' arr',
    insert i x (v, h) = Ret tt (v', h') /\ owns v' h' b' arr' /\
    n v' = n v + 1 /\
    N v' = (if n v =? N v then N v * 2 else N v) /\
    elements v' h' = Some (take (Z.to_nat i) l ++ x :: drop (Z.to_nat i) l) /\
    (if n v =? N v then h !! b' = None /\ h' !! b = None
     else b' = b /\ dom h' = dom h) /\
    (forall q, q <> b -> q <> b' -> h' !! q = h !! q).
Proof.
  intros Ho Hpos Hov Hi Hl. pose proof Ho as [Hp Hb Hlen Hn HN].
  rewrite (owns_elements _ _ _ _ Ho) in Hl. injection Hl as <-.
  destruct (grown v h b arr) as [[[v1 h1] b1] arr1] eqn:Hg.
  destruct (owns_grown _ _ _ _ _ _ _ _ Ho Hov Hg) as (Ho1 & Hn1 & Ht & Hlt).
  specialize (Hlt Hpos). pose proof Ho1 as [Hp1 Hb1 Hl1 Hn1' HN1].
  assert (Hown : owns (with_n (n v + 1) v1) (<[b1 := shifted_in arr1 i (n v) x]> h1)
                      b1 (shifted_in arr1 i (n v) x)).
  { apply (owns_update _ _ _ arr1); [done| |lia].
    apply length_shifted_in; lia. }
  exists (with_n (n v + 1) v1), (<[b1 := shifted_in arr1 i (n v) x]> h1),
         b1, (shifted_in arr1 i (n v) x).
  split; [apply (insert_state _ _ b arr); done|].
  split; [done|]. split; [done|].
  split.
  { unfold grown in Hg. destruct (n v =? N v).
    - unfold resized in Hg. injection Hg as <- _ _ _. done.
    - injection Hg as <- _ _ _. done. }
  split.
  { rewrite (owns_elements _ _ _ _ Hown). cbn [n with_n].
    rewrite elements_shifted_in by lia. rewrite Ht. done. }
  unfold grown in Hg. destruct (n v =? N v).
  - unfold resized in Hg. injection Hg as _ <- <- _.
    pose proof (fresh_block_ne _ _ _ Hb) as Hne.
    split; [split; [apply fresh_block_dead|]|].
    + rewrite lookup_insert_ne, lookup_delete_eq; done.
    + intros q Hq Hq1.
      rewrite lookup_insert_ne, lookup_delete_ne, lookup_insert_ne; done.
  - injection Hg as _ <- <- _.
    split; [split; [done|eapply dom_update, Hb]|].
    intros q Hq _. rewrite lookup_insert_ne; done.
Qed.

(** X2: after [insert_back] of each element of [xs] on a vector with at
    least one slot, the vector holds its old elements followed by [xs], as
    long as the final length is at most 2^30 - 1 (so that no doubling
    overflows [int]). *)
Theorem insert_back_all_appends xs : forall v h b arr l,
  owns v h b arr -> 0 < N v ->
  n v + Z.of_nat (length xs) <= 1073741823 ->
  elements v h = Some l ->
  exists v' h' b' arr',
    insert_back_all xs (v, h) = Ret tt (v', h') /\ owns v' h' b' arr' /\
    size v' = size v + Z.of_nat (length xs) /\
    elements v' h' = Some (l ++ xs) /\
    capacity v <= capacity v'.
Proof.
  induction xs as [|x xs IH]; intros v h b arr l Ho Hpos Hlen Hl.
  - exists v, h, b, arr. simpl. rewrite app_nil_r.
    split; [done|]. split; [done|]. unfold size, capacity. split; [lia|done].
  - pose proof Ho as [Hp Hb Hlen' Hn HN].
    simpl length in Hlen.
    assert (Hov : n v = N v -> N v * 2 <= INT_MAX) by (unfold INT_MAX; lia).
    assert (Hi : 0 <= n v <= n v) by lia.
    destruct (insert_effect _ _ _ _ (n v) x l Ho Hpos Hov Hi Hl)
      as (v1 & h1 & b1 & arr1 & Hrun & Ho1 & Hn1 & HN1 & Hel1 & _ & _).
    assert (Hins : insert_back x (v, h) = Ret tt (v1, h1)).
    { rewrite <- Hrun. unfold insert. rewrite bind_this, Z.eqb_refl. done. }
    assert (Hcap : N v <= N v1) by (rewrite HN1; destruct (n v =? N v); lia).
    assert (Hl1 : elements v1 h1 = Some (l ++ [x])).
    { rewrite Hel1. f_equal.
      pose proof (owns_elements _ _ _ _ Ho) as Hl'. rewrite Hl in Hl'.
      injection Hl' as ->.
      rewrite take_ge, drop_ge by (rewrite length_take; lia). done. }
    destruct (IH v1 h1 b1 arr1 (l ++ [x]) Ho1) as
      (v2 & h2 & b2 & arr2 & Hrun2 & Ho2 & Hsz2 & Hel2 & Hcap2);
      [lia|lia|done|].
    exists v2, h2, b2, arr2.
    split.
    { simpl insert_back_all. rewrite (bind_Ret _ _ _ _ _ Hins). done. }
    split; [done|]. unfold size, capacity in *.
    split; [simpl length; lia|].
    split; [rewrite Hel2, <- app_assoc; done|lia].
Qed.

(** X3: [insert i x] on a full vector (length = capacity > 0, twice the
    capacity within [int]) returns with twice the capacity, the elements
    with [x] put at [i], and the array in a block that was not live; the
    old block is freed. *)
Theorem insert_into_full_vector_doubles_capacity v h b arr i x l :
  owns v h b arr -> n v = N v -> 0 < N v -> N v * 2 <= INT_MAX ->
  0 <= i <= n v -> elements v h = Some l ->
  exists v' h' b' arr',
    insert i x (v, h) = Ret tt (v', h') /\ owns v' h' b' arr' /\
    capacity v' = 2 * capacity v /\ size v' = size v + 1 /\
    elements v' h' = Some (take (Z.to_nat i) l ++ x :: drop (Z.to_nat i) l) /\
    h !! b' = None /\ h' !! b = None.
Proof.
  intros Ho Hfull Hpos Hov Hi Hl.
  destruct (insert_effect _ _ _ _ i x l Ho Hpos (fun _ => Hov) Hi Hl)
    as (v1 & h1 & b1 & arr1 & Hrun & Ho1 & Hn1 & HN1 & Hel1 & Hblk & _).
  replace (n v =? N v) with true in * by (symmetry; apply Z.eqb_eq; done).
  exists v1, h1, b1, arr1. unfold capacity, size.
  split; [done|]. split; [done|]. split; [lia|]. split; [done|].
  split; [done|]. done.
Qed.

(** ** Removal *)

Lemma elements_shifted_out arr i len :
  0 <= i < len -> len <= Z.of_nat (length arr) ->
  take (Z.to_nat (len - 1)) (shifted_out arr i len)
  = take (Z.to_nat i) (take (Z.to_nat len) arr)
    ++ drop (Z.to_nat (i + 1)) (take (Z.to_nat len) arr).
Proof.
  intros Hi Hlen. rewrite take_shifted_out by lia.
  rewrite take_take, Nat.min_l by lia.
  rewrite take_drop_commute.
  replace (Z.to_nat (i + 1) + Z.to_nat (len - (i + 1)))%nat
    with (Z.to_nat len) by lia.
  done.
Qed.

(** What [remove i] leaves for an index before the last. *)
Lemma remove_effect v h b arr i l :
  owns v h b arr -> 0 <= i < n v - 1 -> elements v h = Some l ->
  exists v' h' b' arr',
    remove i (v, h) = Ret tt (v', h') /\ owns v' h' b' arr' /\
    n v' = n v - 1 /\
    N v' = (if (0 <? n v - 1) && (n v - 1 =? N v ÷ 4) then N v ÷ 2 else N v) /\
    elements v' h' = Some (take (Z.to_nat i) l ++ drop (Z.to_nat (i + 1)) l).
Proof.
  intros Ho Hi Hl. pose proof Ho as [Hp Hb Hlen Hn HN].
  rewrite (owns_elements _ _ _ _ Ho) in Hl. injection Hl as <-.
  set (arr2 := shifted_out arr i (n v)).
  assert (Ho2 : owns (with_n (n v - 1) v) (<[b := arr2]> h) b arr2).
  { apply (owns_update _ _ _ arr); [done| |lia].
    apply length_shifted_out; lia. }
  destruct (shrunk (with_n (n v - 1) v) (<[b := arr2]> h) b arr2)
    as [[[v1 h1] b1] arr1] eqn:Hs.
  destruct (owns_shrunk _ _ _ _ _ _ _ _ Ho2 Hs) as (Ho1 & Hn1 & Ht).
  cbn [n with_n] in Hn1, Ht.
  exists v1, h1, b1, arr1.
  split; [apply (remove_spec _ _ b arr _ _ _ b1 arr1); (done || lia)|].
  split; [done|]. split; [done|].
  split.
  { unfold shrunk in Hs. cbn [n N with_n] in Hs.
    destruct ((0 <? n v - 1) && (n v - 1 =? N v ÷ 4)).
    - unfold resized in Hs. injection Hs as <- _ _ _. done.
    - injection Hs as <- _ _ _. done. }
  rewrite (owns_elements _ _ _ _ Ho1), Hn1, Ht. f_equal.
  apply elements_shifted_out; lia.
Qed.

(** X4: [remove(i)] for an index before the last one returns with the
    length one less and the elements with position [i] cut out, order kept;
    the capacity is halved exactly when the new length is positive and
    equals a quarter of the capacity. *)
Theorem remove_cuts_out_position v h b arr i l :
  owns v h b arr -> 0 <= i < n v - 1 -> elements v h = Some l ->
  exists v' h',
    remove i (v, h) = Ret tt (v', h') /\ wf v' h' /\
    size v' = size v - 1 /\
    elements v' h' = Some (take (Z.to_nat i) l ++ drop (Z.to_nat (i + 1)) l) /\
    capacity v' = (if (0 <? size v - 1) && (size v - 1 =? capacity v ÷ 4)
                   then capacity v ÷ 2 else capacity v).
Proof.
  intros Ho Hi Hl.
  destruct (remove_effect _ _ _ _ _ _ Ho Hi Hl)
    as (v1 & h1 & b1 & arr1 & Hrun & Ho1 & Hn1 & HN1 & Hel).
  exists v1, h1. split; [done|]. split; [exists b1, arr1; done|]. done.
Qed.

(** X5: on a vector that is not empty, [remove_back()] returns with the
    length and the elements it found, and so does [remove] at the last
    index, which only calls it; the capacity is halved exactly when the
    length equals a quarter of the capacity. *)
Theorem remove_back_keeps_elements v h b arr l :
  owns v h b arr -> 0 < n v -> elements v h = Some l ->
  exists v' h',
    remove_back (v, h) = Ret tt (v', h') /\ wf v' h' /\
    size v' = size v /\ elements v' h' = Some l /\
    capacity v' = (if size v =? capacity v ÷ 4 then capacity v ÷ 2
                   else capacity v) /\
    remove (n v - 1) (v, h) = Ret tt (v', h').
Proof.
  intros Ho Hpos Hl. pose proof Ho as [Hp Hb Hlen Hn HN].
  rewrite (owns_elements _ _ _ _ Ho) in Hl. injection Hl as <-.
  destruct (shrunk v h b arr) as [[[v1 h1] b1] arr1] eqn:Hs.
  destruct (owns_shrunk _ _ _ _ _ _ _ _ Ho Hs) as (Ho1 & Hn1 & Ht).
  assert (Hrun : remove_back (v, h) = Ret tt (v1, h1))
    by (eapply remove_back_spec; done).
  exists v1, h1. split; [done|]. split; [exists b1, arr1; done|].
  split; [done|].
  split; [rewrite (owns_elements _ _ _ _ Ho1), Hn1, Ht; done|].
  split; [|rewrite (remove_last _ _ _ _ Ho); done].
  unfold shrunk in Hs. unfold size, capacity.
  destruct (Z.ltb_spec 0 (n v)); [|lia]. cbn [andb] in Hs.
  destruct (n v =? N v ÷ 4).
  - unfold resized in Hs. injection Hs as <- _ _ _. done.
  - injection Hs as <- _ _ _. done.
Qed.

(** ** Access *)

Lemma elements_lookup v h b arr l i x :
  owns v h b arr -> elements v h = Some l -> l !! i = Some x ->
  (Z.of_nat i < n v) /\ arr !! i = Some x.
Proof.
  intros Ho Hl Hx. pose proof Ho as [Hp Hb Hlen Hn HN].
  rewrite (owns_elements _ _ _ _ Ho) in Hl. injection Hl as <-.
  pose proof (lookup_lt_Some _ _ _ Hx) as Hlt.
  rewrite length_take in Hlt.
  rewrite lookup_take_lt in Hx by lia.
  split; [lia|done].
Qed.

Lemma elements_length v h b arr l :
  owns v h b arr -> elements v h = Some l -> Z.of_nat (length l) = n v.
Proof.
  intros Ho Hl. pose proof Ho as [Hp Hb Hlen Hn HN].
  rewrite (owns_elements _ _ _ _ Ho) in Hl. injection Hl as <-.
  rewrite length_take. lia.
Qed.

(** X6: on a well-formed vector [at(i)] refers to the [i]-th element,
    [front()] to the first and [back()] to the last; reading them changes
    nothing. *)
Theorem checked_accessors_return_elements v h b arr l :
  owns v h b arr -> elements v h = Some l ->
  (forall i x, 0 <= i -> l !! Z.to_nat i = Some x ->
     read (at_ i) (v, h) = Ret x (v, h)) /\
  (forall x, head l = Some x -> read front (v, h) = Ret x (v, h)) /\
  (forall x, last l = Some x -> read back (v, h) = Ret x (v, h)).
Proof.
  intros Ho Hl. pose proof Ho as [Hp Hb Hlen Hn HN].
  split; [|split].
  - intros i x Hi Hx.
    destruct (elements_lookup _ _ _ _ _ _ _ Ho Hl Hx) as [Hlt Harr].
    eapply read_at_spec; [done|lia|done].
  - intros x Hx. rewrite head_lookup in Hx.
    destruct (elements_lookup _ _ _ _ _ _ _ Ho Hl Hx) as [Hlt Harr].
    unfold read. erewrite bind_Ret; cycle 1.
    { unfold front. rewrite bind_this. unfold empty.
      destruct (Z.eqb_spec (n v) 0); [lia|reflexivity]. }
    unfold begin. rewrite Hp.
    apply mem_Ret. eapply load_at; [done|lia|done].
  - intros x Hx. rewrite last_lookup in Hx.
    destruct (elements_lookup _ _ _ _ _ _ _ Ho Hl Hx) as [Hlt Harr].
    pose proof (elements_length _ _ _ _ _ Ho Hl) as Hll.
    unfold read. erewrite bind_Ret; cycle 1.
    { unfold back. rewrite bind_this. unfold empty.
      destruct (Z.eqb_spec (n v) 0); [lia|reflexivity]. }
    unfold prev, end_. rewrite Hp. cbn [next blk off].
    apply mem_Ret. eapply load_at; [done|lia|].
    replace (Z.to_nat (0 + n v + -1)) with (pred (length l)) by lia. done.
Qed.

(** X7: [operator[]] checks nothing and throws nothing: for an index inside
    the array, also one at or beyond the length, it reads the slot; for an
    index outside the array the read is undefined. *)
Theorem unchecked_index_reads_any_slot v h b arr :
  owns v h b arr ->
  (forall i x, 0 <= i -> arr !! Z.to_nat i = Some x ->
     read (operator_index i) (v, h) = Ret x (v, h)) /\
  (forall i, i < 0 \/ N v <= i -> read (operator_index i) (v, h) = Undef) /\
  (forall i e s, read (operator_index i) (v, h) <> Raise e s).
Proof.
  intros Ho. pose proof Ho as [Hp Hb Hlen Hn HN].
  assert (Hrun : forall i, read (operator_index i) (v, h)
                           = mem (load (Some (Ptr b i))) (v, h)).
  { intros i. unfold read, operator_index.
    erewrite bind_Ret; cycle 1.
    { rewrite bind_this. reflexivity. }
    unfold subscript, begin. rewrite Hp. cbn [next blk off].
    rewrite Z.add_0_l. done. }
  assert (Hout : forall i, i < 0 \/ N v <= i -> load (Some (Ptr b i)) h = Undef).
  { intros i Hi. unfold load. cbn [blk off]. rewrite Hb.
    destruct (Z.leb_spec 0 i); [|done].
    rewrite lookup_ge_None_2 by lia. done. }
  split; [|split].
  - intros i x Hi Hx. rewrite Hrun. apply mem_Ret.
    eapply load_at; done.
  - intros i Hi. rewrite Hrun. apply mem_Undef, Hout, Hi.
  - intros i e s. rewrite Hrun.
    destruct (decide (i < 0 \/ N v <= i)) as [Hi|Hi].
    + rewrite (mem_Undef _ _ _ (Hout i Hi)). done.
    + destruct (lookup_lt_is_Some_2 arr (Z.to_nat i)) as [x Hx]; [lia|].
      assert (H0 : 0 <= i) by lia.
      rewrite (mem_Ret _ _ _ _ _ (load_at _ _ _ _ _ Hb H0 Hx)). done.
Qed.

Lemma write_at_effect v h b arr i x l :
  owns v h b arr -> 0 <= i < n v -> elements v h = Some l ->
  exists h',
    write (at_ i) x (v, h) = Ret tt (v, h') /\
    owns v h' b (<[Z.to_nat i := x]> arr) /\
    elements v h' = Some (<[Z.to_nat i := x]> l) /\
    read (at_ i) (v, h') = Ret x (v, h') /\
    dom h' = dom h.
Proof.
  intros Ho Hi Hl. pose proof Ho as [Hp Hb Hlen Hn HN].
  rewrite (owns_elements _ _ _ _ Ho) in Hl. injection Hl as <-.
  assert (Hown : owns v (<[b := <[Z.to_nat i := x]> arr]> h) b (<[Z.to_nat i := x]> arr)).
  { constructor; try done.
    - apply lookup_insert_eq.
    - rewrite length_insert. done. }
  exists (<[b := <[Z.to_nat i := x]> arr]> h).
  split.
  { unfold write. erewrite bind_Ret; cycle 1.
    { unfold at_. rewrite bind_this. unfold valid.
      destruct (Z.leb_spec 0 i); [|lia]. destruct (Z.ltb_spec i (n v)); [|lia].
      cbn [andb negb]. reflexivity. }
    unfold subscript, begin. rewrite Hp. cbn [next blk off].
    rewrite Z.add_0_l. apply mem_Ret. eapply store_at; [done|lia]. }
  split; [done|].
  split; [rewrite (owns_elements _ _ _ _ Hown), take_insert_lt by lia; done|].
  split; [|eapply dom_update, Hb].
  eapply read_at_spec; [done|done|].
  apply list_lookup_insert_eq. lia.
Qed.

(** X8: an assignment through [at(i)] at a valid index replaces the [i]-th
    element and nothing else: the other elements, the length, the capacity
    and the set of live blocks stay, and [at(i)] then reads the new value. *)
Theorem write_through_at_replaces_one_element v h b arr i x l :
  owns v h b arr -> 0 <= i < n v -> elements v h = Some l ->
  exists h',
    write (at_ i) x (v, h) = Ret tt (v, h') /\
    wf v h' /\
    elements v h' = Some (<[Z.to_nat i := x]> l) /\
    read (at_ i) (v, h') = Ret x (v, h') /\
    dom h' = dom h.
Proof.
  intros Ho Hi Hl.
  destruct (write_at_effect _ _ _ _ _ x _ Ho Hi Hl)
    as (h' & Hrun & Hown & Hel & Hread & Hdom).
  exists h'. split; [done|]. split; [eexists _, _; exact Hown|]. done.
Qed.

(** X9: after a move construction the source keeps its length and has no
    array: with a valid index [at(i)] passes the bounds check and reads
    through the null pointer, and so do [front()] and [back()]; nothing is
    thrown. *)
Theorem moved_from_access_is_undefined x h b arr :
  owns x h b arr -> 0 < n x ->
  (forall i, 0 <= i < n x ->
     read (at_ i) (snd (Vector_move x), h) = Undef) /\
  read front (snd (Vector_move x), h) = Undef /\
  read back (snd (Vector_move x), h) = Undef.
Proof.
  intros [Hp Hb Hlen Hn HN] Hpos.
  split; [|split].
  - intros i Hi. unfold read. erewrite bind_Ret; cycle 1.
    { unfold at_. rewrite bind_this. unfold valid. cbn [Vector_move snd n with_pv].
      destruct (Z.leb_spec 0 i); [|lia]. destruct (Z.ltb_spec i (n x)); [|lia].
      cbn [andb negb]. reflexivity. }
    done.
  - unfold read. erewrite bind_Ret; cycle 1.
    { unfold front. rewrite bind_this. unfold empty. cbn [Vector_move snd n with_pv].
      destruct (Z.eqb_spec (n x) 0); [lia|reflexivity]. }
    done.
  - unfold read. erewrite bind_Ret; cycle 1.
    { unfold back. rewrite bind_this. unfold empty. cbn [Vector_move snd n with_pv].
      destruct (Z.eqb_spec (n x) 0); [lia|reflexivity]. }
    done.
Qed.

(** ** Operations in sequence *)

(** X10: [clear()] followed by [insert_back(x)] on a vector with at least
    one slot leaves exactly the element [x], in the array the vector
    had: same capacity, same pointer, nothing allocated or freed. *)
Theorem clear_then_insert_back_reuses_array v h b arr x :
  owns v h b arr -> 0 < N v ->
  exists v' h',
    (clear ;;; insert_back x) (v, h) = Ret tt (v', h') /\ wf v' h' /\
    elements v' h' = Some [x] /\
    capacity v' = capacity v /\ pv v' = pv v /\ dom h' = dom h.
Proof.
  intros Ho Hpos. pose proof Ho as [Hp Hb Hlen Hn HN].
  assert (Ho0 : owns (with_n 0 v) h b arr).
  { constructor; simpl; (done || lia). }
  assert (Hroom : n (with_n 0 v) < N (with_n 0 v)) by (simpl; lia).
  assert (Hrun : insert_back x (with_n 0 v, h)
                 = Ret tt (with_n (0 + 1) (with_n 0 v),
                           <[b := <[Z.to_nat 0 := x]> arr]> h)).
  { apply (insert_back_spec (with_n 0 v) h b arr x (with_n 0 v) h b arr);
      [done|done|simpl; lia|].
    apply grown_with_room, Hroom. }
  assert (Hown : owns (with_n (0 + 1) (with_n 0 v))
                      (<[b := <[Z.to_nat 0 := x]> arr]> h) b (<[Z.to_nat 0 := x]> arr)).
  { apply (owns_update _ _ _ arr); [done|apply length_insert|simpl; lia]. }
  eexists _, _. split.
  { unfold clear. rewrite bind_put_n. exact Hrun. }
  split; [eexists _, _; exact Hown|].
  split; [|split; [done|split; [done|eapply dom_update, Hb]]].
  rewrite (owns_elements _ _ _ _ Hown). cbn [n with_n].
  destruct arr as [|a arr']; [simpl in Hlen; lia|]. done.
Qed.

(** X11: [insert(i, x)] followed by [remove(i)], for an index before the
    old length, returns with the elements and the length as they were
    before the two calls (capacity at least 1, twice the capacity within
    [int] when the vector is full). *)
Theorem insert_then_remove_restores_elements v h b arr i x l :
  owns v h b arr -> 0 < N v -> (n v = N v -> N v * 2 <= INT_MAX) ->
  0 <= i < n v -> elements v h = Some l ->
  exists v' h',
    (insert i x ;;; remove i) (v, h) = Ret tt (v', h') /\ wf v' h' /\
    size v' = size v /\ elements v' h' = Some l.
Proof.
  intros Ho Hpos Hov Hi Hl.
  pose proof (elements_length _ _ _ _ _ Ho Hl) as Hlen.
  assert (Hi' : 0 <= i <= n v) by lia.
  destruct (insert_effect _ _ _ _ i x l Ho Hpos Hov Hi' Hl)
    as (v1 & h1 & b1 & arr1 & Hrun1 & Ho1 & Hn1 & _ & Hel1 & _ & _).
  assert (Hi1 : 0 <= i < n v1 - 1) by lia.
  destruct (remove_effect _ _ _ _ _ _ Ho1 Hi1 Hel1)
    as (v2 & h2 & b2 & arr2 & Hrun2 & Ho2 & Hn2 & _ & Hel2).
  exists v2, h2.
  split; [rewrite (bind_Ret _ _ _ _ _ Hrun1); done|].
  split; [exists b2, arr2; done|].
  split; [unfold size; lia|].
  rewrite Hel2. f_equal.
  assert (Hti : length (take (Z.to_nat i) l) = Z.to_nat i)
    by (rewrite length_take; lia).
  rewrite take_app_length' by done.
  replace (Z.to_nat (i + 1)) with (length (take (Z.to_nat i) l) + 1)%nat by lia.
  rewrite <- (drop_drop _ 1), drop_app_length. simpl.
  apply (take_drop (Z.to_nat i) l).
Qed.

(** ** Copies and assignment *)

Lemma owns_in_larger_heap v (h : heap) b arr q (arr' : list E) :
  owns v h b arr -> h !! q = None -> owns v (<[q := arr']> h) b arr.
Proof.
  intros [Hp Hb Hl Hn HN] Hq. constructor; try done.
  rewrite lookup_insert_ne; [done|]. intros ->. congruence.
Qed.

(** What the copy constructor leaves. *)
Lemma Vector_copy_effect that h bt arrt l :
  owns that h bt arrt -> elements that h = Some l ->
  exists r h' br arrr,
    Vector_copy that h = Ret r h' /\ owns r h' br arrr /\
    n r = n that /\ N r = N that /\
    elements r h' = Some l /\
    h !! br = None /\ h' = <[br := arrr]> h /\
    owns that h' bt arrt.
Proof.
  intros Ho Hl. pose proof Ho as [Hp Hb Hlen Hn HN].
  rewrite (owns_elements _ _ _ _ Ho) in Hl. injection Hl as <-.
  set (br := fresh (dom h)).
  set (arrr := moved_into (N that) (n that) arrt).
  assert (Hdead : h !! br = None) by apply fresh_block_dead.
  assert (Hor : owns (mkVector (n that) (N that) (Some (Ptr br 0)))
                     (<[br := arrr]> h) br arrr).
  { constructor; simpl; try (done || lia).
    - apply lookup_insert_eq.
    - apply length_moved_into; lia. }
  exists (mkVector (n that) (N that) (Some (Ptr br 0))), (<[br := arrr]> h), br, arrr.
  split; [apply (Vector_copy_spec _ _ _ _ Ho)|].
  split; [done|]. split; [done|]. split; [done|].
  split.
  { rewrite (owns_elements _ _ _ _ Hor). cbn [n]. unfold arrr.
    rewrite take_moved_into by lia. done. }
  split; [done|]. split; [done|].
  apply owns_in_larger_heap; done.
Qed.

(** X12: the copy constructor returns a vector with the length, the
    capacity and the elements of its argument, in an array of its own in a
    block that was not live; no other block changes and the argument is
    untouched; an assignment through [at(i)] of the copy changes the copy
    and not the argument. *)
Theorem copy_constructor_is_deep that h bt arrt l :
  owns that h bt arrt -> elements that h = Some l ->
  exists r h' br arrr,
    Vector_copy that h = Ret r h' /\ owns r h' br arrr /\
    h !! br = None /\ h' = <[br := arrr]> h /\
    size r = size that /\ capacity r = capacity that /\
    elements r h' = Some l /\
    pv r <> pv that /\
    owns that h' bt arrt /\
    (forall i x, 0 <= i < n that ->
       exists h'',
         write (at_ i) x (r, h') = Ret tt (r, h'') /\
         elements r h'' = Some (<[Z.to_nat i := x]> l) /\
         elements that h'' = Some l).
Proof.
  intros Ho Hl.
  destruct (Vector_copy_effect _ _ _ _ _ Ho Hl)
    as (r & h' & br & arrr & Hrun & Hor & Hn & HN & Hel & Hdead & Hh' & Hot).
  pose proof Ho as [Hp Hb _ _ _]. pose proof Hor as [Hpr Hbr _ _ _].
  assert (Hne : br <> bt) by (intros ->; congruence).
  exists r, h', br, arrr. split; [done|]. split; [done|].
  split; [done|]. split; [done|].
  split; [done|]. split; [done|]. split; [done|].
  split; [rewrite Hpr, Hp; intros [= ?]; done|]. split; [done|].
  intros i x Hi.
  assert (Hi' : 0 <= i < n r) by lia.
  destruct (write_at_effect _ _ _ _ _ x _ Hor Hi' Hel)
    as (h'' & Hw & Hown'' & Hel'' & _ & _).
  exists h''. split; [done|]. split; [done|].
  assert (Hh'' : h'' = <[br := <[Z.to_nat i := x]> arrr]> h').
  { unfold write in Hw.
    erewrite bind_Ret in Hw; cycle 1.
    { unfold at_. rewrite bind_this. unfold valid.
      destruct (Z.leb_spec 0 i); [|lia]. destruct (Z.ltb_spec i (n r)); [|lia].
      cbn [andb negb]. reflexivity. }
    unfold subscript, begin in Hw. rewrite Hpr in Hw. cbn [next blk off] in Hw.
    rewrite Z.add_0_l in Hw.
    erewrite mem_Ret in Hw; cycle 1.
    { eapply store_at; [exact Hbr|]. destruct Hor as [_ _ Hlr Hnr _]. lia. }
    injection Hw as <-. done. }
  assert (Hot'' : owns that h'' bt arrt).
  { destruct Hot as [Hp' Hb' Hl' Hn' HN']. constructor; try done.
    rewrite Hh'', lookup_insert_ne; done. }
  rewrite (owns_elements _ _ _ _ Hot''), <- (owns_elements _ _ _ _ Ho). done.
Qed.

(** X13: [x = y] for an lvalue [y] returns with [x] holding the length, the
    capacity and the elements of [y] in a block that was not live; the
    array [x] had is freed, no other block is touched, and [y], when it is
    another vector, keeps its array.  [y] may be [x] itself. *)
Theorem copy_assignment_replaces_contents v h b arr y bt arrt l :
  owns v h b arr -> owns y h bt arrt -> elements y h = Some l ->
  exists v' h' b' arr',
    assign_from y (v, h) = Ret tt (v', h') /\ owns v' h' b' arr' /\
    size v' = size y /\ capacity v' = capacity y /\
    elements v' h' = Some l /\
    h !! b' = None /\ h' !! b = None /\
    (bt <> b -> owns y h' bt arrt) /\
    (forall q, q <> b -> q <> b' -> h' !! q = h !! q).
Proof.
  intros Ho Hy Hl. pose proof Ho as [Hp Hb Hlen Hn HN].
  pose proof Hy as [Hpy Hby Hleny Hny HNy].
  rewrite (owns_elements _ _ _ _ Hy) in Hl. injection Hl as <-.
  set (b' := fresh (dom h)).
  set (arr' := moved_into (N y) (n y) arrt).
  pose proof (fresh_block_ne _ _ _ Hb) as Hne.
  pose proof (fresh_block_ne _ _ _ Hby) as Hney.
  assert (Hown : owns (mkVector (n y) (N y) (Some (Ptr b' 0)))
                      (delete b (<[b' := arr']> h)) b' arr').
  { constructor; simpl; try (done || lia).
    - rewrite lookup_delete_ne by done. apply lookup_insert_eq.
    - apply length_moved_into; lia. }
  exists (mkVector (n y) (N y) (Some (Ptr b' 0))),
         (delete b (<[b' := arr']> h)), b', arr'.
  split; [apply (assign_from_spec _ _ _ _ _ _ _ Ho Hy)|].
  split; [done|]. split; [done|]. split; [done|].
  split.
  { rewrite (owns_elements _ _ _ _ Hown). cbn [n]. unfold arr'.
    rewrite take_moved_into by lia. done. }
  split; [apply fresh_block_dead|]. split; [apply lookup_delete_eq|].
  split.
  - intros Hbt. constructor; try done.
    rewrite lookup_delete_ne, lookup_insert_ne; done.
  - intros q Hq Hq'. rewrite lookup_delete_ne, lookup_insert_ne; done.
Qed.

(** X14: [x = std::move(y)] for another vector [y] returns with [x] owning
    the array [y] had, with its length, capacity and elements; the array
    [x] had is freed and nothing is allocated; [y] is left with a null
    pointer, and destroying it leaves the heap as it is. *)
Theorem move_assignment_takes_over_array v h b arr y bt arrt :
  owns v h b arr -> owns y h bt arrt -> b <> bt ->
  exists y' v' h',
    move_assign_from y (v, h) = Ret y' (v', h') /\
    owns v' h' bt arrt /\
    size v' = size y /\ capacity v' = capacity y /\
    elements v' h' = elements y h /\
    h' = delete b h /\
    pv y' = None /\ Vector_delete y' h' = Ret tt h'.
Proof.
  intros Ho Hy Hne. pose proof Ho as [Hp Hb Hlen Hn HN].
  pose proof Hy as [Hpy Hby Hleny Hny HNy].
  assert (Hown : owns (mkVector (n y) (N y) (pv y)) (delete b h) bt arrt).
  { constructor; simpl; try (done || lia).
    rewrite lookup_delete_ne; done. }
  exists (with_pv None y), (mkVector (n y) (N y) (pv y)), (delete b h).
  split.
  { unfold move_assign_from. cbn [Vector_move].
    unfold operator_assign, swap.
    erewrite bind_Ret; cycle 1.
    { rewrite bind_this. reflexivity. }
    erewrite bind_mem; cycle 1.
    { unfold Vector_delete. cbn [pv]. rewrite Hp.
      eapply delete_array_spec, Hb. }
    done. }
  split; [done|]. split; [done|]. split; [done|].
  split; [rewrite (owns_elements _ _ _ _ Hown), (owns_elements _ _ _ _ Hy); done|].
  split; [done|]. split; done.
Qed.

(** X15: [v += t] for another vector [t] always reallocates: it returns
    with the elements of [v] followed by those of [t], capacity
    [N + t.N], the array in a block that was not live and the old array
    freed; [t] keeps its array.  The sum of the capacities must be within
    [int]. *)
Theorem append_other_reallocates v h b arr t bt arrt l lt :
  owns v h b arr -> owns t h bt arrt -> b <> bt ->
  N v + N t <= INT_MAX ->
  elements v h = Some l -> elements t h = Some lt ->
  exists v' h' b' arr',
    operator_plus_eq (Other t) (v, h) = Ret tt (v', h') /\
    owns v' h' b' arr' /\
    size v' = size v + size t /\ capacity v' = capacity v + capacity t /\
    elements v' h' = Some (l ++ lt) /\
    h !! b' = None /\ h' !! b = None /\
    owns t h' bt arrt.
Proof.
  intros Ho Ht Hne Hov Hl Hlt.
  pose proof Ho as [Hp Hb Hlen Hn HN]. pose proof Ht as [Hpt Hbt Hlent Hnt HNt].
  rewrite (owns_elements _ _ _ _ Ho) in Hl. injection Hl as <-.
  rewrite (owns_elements _ _ _ _ Ht) in Hlt. injection Hlt as <-.
  destruct (resized v h b arr (N v + N t)) as [[[v1 h1] b1] arr1] eqn:Hr.
  assert (Hc : n v <= N v + N t <= INT_MAX) by lia.
  destruct (owns_resized _ _ _ _ _ _ _ _ _ Ho Hc Hr)
    as (Ho1 & Hn1 & HN1' & Htk & Hb1' & Hh1).
  pose proof Ho1 as [Hp1 Hb1 Hl1 Hn1' HN1].
  pose proof (fresh_block_ne _ _ _ Hb) as Hnb.
  pose proof (fresh_block_ne _ _ _ Hbt) as Hnbt.
  set (arr2 := splice arr1 (Z.to_nat (n v)) (take (Z.to_nat (n t)) arrt)).
  assert (Hw : length (take (Z.to_nat (n t)) arrt) = Z.to_nat (n t))
    by (rewrite length_take; lia).
  assert (Hown : owns (with_n (n v + n t) v1) (<[b1 := arr2]> h1) b1 arr2).
  { apply (owns_update _ _ _ arr1); [done| |lia].
    apply length_splice. lia. }
  exists (with_n (n v + n t) v1), (<[b1 := arr2]> h1), b1, arr2.
  split; [apply (operator_plus_eq_other _ _ _ _ _ _ _ _ _ _ _ Ho Ht Hne Hov Hr)|].
  split; [done|]. split; [done|]. split; [done|].
  split.
  { rewrite (owns_elements _ _ _ _ Hown). cbn [n with_n]. f_equal. unfold arr2.
    replace (Z.to_nat (n v + n t))
      with (Z.to_nat (n v) + length (take (Z.to_nat (n t)) arrt))%nat by lia.
    rewrite take_splice_tail by lia. rewrite Htk. done. }
  split; [rewrite Hb1'; apply fresh_block_dead|].
  split.
  { rewrite lookup_insert_ne by (rewrite Hb1'; done).
    rewrite Hh1. apply lookup_delete_eq. }
  constructor; try done.
  rewrite lookup_insert_ne by (rewrite Hb1'; done).
  rewrite Hh1, lookup_delete_ne, lookup_insert_ne; try done.
  rewrite Hb1'. done.
Qed.

(** ** Comparison *)

Lemma equal_loop_spec (k : nat) :
  forall (h : heap) b1 b2 a1 a2 (s1 s2 : nat),
    h !! b1 = Some a1 -> h !! b2 = Some a2 ->
    (s1 + k <= length a1)%nat -> (s2 + k <= length a2)%nat ->
    equal_loop k (Some (Ptr b1 (Z.of_nat s1))) (Some (Ptr b2 (Z.of_nat s2))) h
    = Ret (all_eq (take k (drop s1 a1)) (take k (drop s2 a2))) h.
Proof.
  induction k as [|k IH]; intros h b1 b2 a1 a2 s1 s2 H1 H2 L1 L2.
  - done.
  - destruct (lookup_lt_is_Some_2 a1 s1) as [x Hx]; [lia|].
    destruct (lookup_lt_is_Some_2 a2 s2) as [y Hy]; [lia|].
    simpl equal_loop.
    rewrite (bind_Ret _ _ _ _ _ (load_spec _ _ _ _ _ H1 Hx)).
    rewrite (bind_Ret _ _ _ _ _ (load_spec _ _ _ _ _ H2 Hy)).
    rewrite (window_S_head _ _ _ _ Hx), (window_S_head _ _ _ _ Hy).
    simpl all_eq. destruct (eqE x y); [|done].
    simpl next.
    replace (Z.of_nat s1 + 1) with (Z.of_nat (S s1)) by lia.
    replace (Z.of_nat s2 + 1) with (Z.of_nat (S s2)) by lia.
    apply IH; (done || lia).
Qed.

Lemma all_eq_Forall2 (l1 l2 : list E) :
  length l1 = length l2 ->
  all_eq l1 l2 = true <-> Forall2 (fun x y => eqE x y = true) l1 l2.
Proof.
  revert l2. induction l1 as [|x l1 IH]; intros [|y l2] Hlen; try done.
  simpl in Hlen. injection Hlen as Hlen. simpl.
  rewrite andb_true_iff, (IH l2 Hlen). split.
  - intros [Hxy Hrest]. constructor; done.
  - intros Hf. apply Forall2_cons in Hf. done.
Qed.

Lemma all_eq_diag (l : list E) :
  all_eq l l = true <-> Forall (fun x => eqE x x = true) l.
Proof.
  induction l as [|x l IH]; [done|].
  simpl. rewrite andb_true_iff, IH, Forall_cons. done.
Qed.

(** What [lhs == rhs] returns for two objects. *)
Lemma operator_eq_other v h b arr r br arrr l lr :
  owns v h b arr -> owns r h br arrr ->
  elements v h = Some l -> elements r h = Some lr ->
  operator_eq (Other r) (v, h) = Ret ((n v =? n r) && all_eq l lr) (v, h).
Proof.
  intros Ho Hr Hl Hlr.
  pose proof Ho as [Hp Hb Hlen Hn HN]. pose proof Hr as [Hpr Hbr Hlenr Hnr HNr].
  rewrite (owns_elements _ _ _ _ Ho) in Hl. injection Hl as <-.
  rewrite (owns_elements _ _ _ _ Hr) in Hlr. injection Hlr as <-.
  unfold operator_eq. rewrite bind_this. cbn [deref same_object].
  erewrite (bind_Ret (ret r)) by reflexivity.
  unfold size. destruct (Z.eqb_spec (n v) (n r)) as [Heq|Hne]; [|done].
  cbn [negb andb].
  unfold std_equal, begin, end_. rewrite Hp, Hpr. cbn [next blk off].
  rewrite distance_same_block by lia.
  apply mem_Ret.
  pose proof (equal_loop_spec (Z.to_nat (n v)) h b br arr arrr 0 0 Hb Hbr) as He.
  rewrite !drop_0 in He. change (Z.of_nat 0) with 0 in He.
  replace (Z.to_nat (0 + n v - 0)) with (Z.to_nat (n v)) by lia.
  rewrite He by lia. rewrite Heq. done.
Qed.

(** X16: for two well-formed vectors that are different objects, [==]
    returns true exactly when the lengths are equal and [operator==] of
    [E] holds at every position; [!=] returns the opposite; neither
    changes anything. *)
Theorem equality_compares_length_then_elements v h b arr r br arrr l lr :
  owns v h b arr -> owns r h br arrr ->
  elements v h = Some l -> elements r h = Some lr ->
  exists res,
    operator_eq (Other r) (v, h) = Ret res (v, h) /\
    operator_ne (Other r) (v, h) = Ret (negb res) (v, h) /\
    (res = true <-> Forall2 (fun x y => eqE x y = true) l lr) /\
    (size v <> size r -> res = false).
Proof.
  intros Ho Hr Hl Hlr.
  pose proof (operator_eq_other _ _ _ _ _ _ _ _ _ Ho Hr Hl Hlr) as Hrun.
  pose proof (elements_length _ _ _ _ _ Ho Hl) as Hll.
  pose proof (elements_length _ _ _ _ _ Hr Hlr) as Hllr.
  exists ((n v =? n r) && all_eq l lr).
  split; [done|].
  split; [unfold operator_ne; rewrite (bind_Ret _ _ _ _ _ Hrun); done|].
  split.
  - destruct (Z.eqb_spec (n v) (n r)) as [Heq|Hne]; cbn [andb].
    + apply all_eq_Forall2. lia.
    + split; [done|]. intros Hf. apply Forall2_length in Hf. lia.
  - intros Hne. unfold size in Hne.
    destruct (Z.eqb_spec (n v) (n r)); [done|done].
Qed.

(** X17: [x == x] is true for every object, whatever [operator==] of [E]
    does, since the same address is answered before any element is read.
    Compared with a copy of itself made by the copy constructor, a vector
    is equal exactly when [operator==] of [E] holds between each of its
    elements and itself (for [double], when no element is a NaN); [!=]
    returns the opposite, and the comparison changes nothing. *)
Theorem equal_to_itself_and_to_its_copy v h b arr l :
  owns v h b arr -> elements v h = Some l ->
  operator_eq Self (v, h) = Ret true (v, h) /\
  exists r h' res,
    Vector_copy v h = Ret r h' /\
    operator_eq (Other r) (v, h') = Ret res (v, h') /\
    operator_ne (Other r) (v, h') = Ret (negb res) (v, h') /\
    (res = true <-> Forall (fun x => eqE x x = true) l).
Proof.
  intros Ho Hl. split; [done|].
  destruct (Vector_copy_effect _ _ _ _ _ Ho Hl)
    as (r & h' & br & arrr & Hrun & Hor & Hn & HN & Hel & Hdead & Hh' & Hov).
  assert (Hl' : elements v h' = Some l).
  { rewrite (owns_elements _ _ _ _ Hov), <- (owns_elements _ _ _ _ Ho). done. }
  assert (Heq : operator_eq (Other r) (v, h') = Ret (all_eq l l) (v, h')).
  { rewrite (operator_eq_other _ _ _ _ _ _ _ _ _ Hov Hor Hl' Hel).
    rewrite Hn, Z.eqb_refl. done. }
  exists r, h', (all_eq l l). split; [done|]. split; [done|].
  split; [|apply all_eq_diag].
  unfold operator_ne. rewrite (bind_Ret _ _ _ _ _ Heq). done.
Qed.

(** ** Output *)

Lemma string_app_assoc (s1 s2 s3 : string) :
  (s1 +:+ s2) +:+ s3 = s1 +:+ (s2 +:+ s3).
Proof.
  induction s1 as [|c s1 IH]; [done|].
  change (String c ((s1 +:+ s2) +:+ s3) = String c (s1 +:+ (s2 +:+ s3))).
  f_equal. exact IH.
Qed.

Lemma string_app_empty_r (s : string) : s +:+ "" = s.
Proof.
  induction s as [|c s IH]; [done|].
  change (String c (s +:+ "") = String c s).
  f_equal. exact IH.
Qed.

Lemma shown_app (l1 l2 : list E) : shown (l1 ++ l2) = shown l1 +:+ shown l2.
Proof.
  induction l1 as [|x l1 IH]; [done|].
  change (show x +:+ " " +:+ shown (l1 ++ l2)
          = (show x +:+ " " +:+ shown l1) +:+ shown l2).
  rewrite IH, !string_app_assoc. done.
Qed.

Lemma print_loop_spec (k : nat) :
  forall (h : heap) b a (s : nat) os,
    h !! b = Some a -> (s + k <= length a)%nat ->
    print_loop k (Some (Ptr b (Z.of_nat s))) os h
    = Ret (os +:+ shown (take k (drop s a))) h.
Proof.
  induction k as [|k IH]; intros h b a s os Hb Hlen.
  - simpl. rewrite string_app_empty_r. done.
  - destruct (lookup_lt_is_Some_2 a s) as [x Hx]; [lia|].
    simpl print_loop.
    rewrite (bind_Ret _ _ _ _ _ (load_spec _ _ _ _ _ Hb Hx)).
    simpl next.
    replace (Z.of_nat s + 1) with (Z.of_nat (S s)) by lia.
    rewrite (IH h b a (S s)) by (done || lia).
    rewrite (window_S_head _ _ _ _ Hx). simpl shown.
    rewrite !string_app_assoc. done.
Qed.

(** X18: [os << vector] appends to the stream the text of each element,
    first to last, each followed by one space, and changes nothing else:
    an empty vector writes nothing, and the output for a vector that is
    not empty ends with a space after the last element. *)
Theorem print_writes_each_element_then_space v h b arr l os :
  owns v h b arr -> elements v h = Some l ->
  operator_shl os v h = Ret (os +:+ shown l) h /\
  (l = [] -> operator_shl os v h = Ret os h) /\
  (forall l' x, l = l' ++ [x] ->
     operator_shl os v h = Ret (((os +:+ shown l') +:+ show x) +:+ " ") h).
Proof.
  intros Ho Hl. pose proof Ho as [Hp Hb Hlen Hn HN].
  rewrite (owns_elements _ _ _ _ Ho) in Hl. injection Hl as <-.
  assert (Hrun : operator_shl os v h
                 = Ret (os +:+ shown (take (Z.to_nat (n v)) arr)) h).
  { unfold operator_shl, begin, end_. rewrite Hp. cbn [next blk off].
    rewrite distance_same_block by lia.
    pose proof (print_loop_spec (Z.to_nat (n v)) h b arr 0 os Hb) as Hpr.
    rewrite drop_0 in Hpr. change (Z.of_nat 0) with 0 in Hpr.
    replace (Z.to_nat (0 + n v - 0)) with (Z.to_nat (n v)) by lia.
    apply Hpr. lia. }
  split; [done|]. split.
  - intros Hnil. rewrite Hrun, Hnil. simpl. rewrite string_app_empty_r. done.
  - intros l' x Hsnoc. rewrite Hrun, Hsnoc, shown_app. simpl.
    rewrite string_app_empty_r, !string_app_assoc. done.
Qed.

(** ** Ownership of the heap *)

Lemma reshaped_same v (h : heap) b arr :
  h !! b = Some arr -> pv v = Some (Ptr b 0) -> reshaped h b (v, h).
Proof.
  intros Hb Hp. exists arr. left. split; [|done].
  simpl. rewrite insert_id; done.
Qed.

Lemma reshaped_update v (h : heap) b (arr' : list E) :
  pv v = Some (Ptr b 0) -> reshaped h b (v, <[b := arr']> h).
Proof. intros Hp. exists arr'. left. done. Qed.

Lemma reshaped_moved v (h : heap) b (arr' : list E) :
  pv v = Some (Ptr (fresh (dom h)) 0) ->
  reshaped h b (v, delete b (<[fresh (dom h) := arr']> h)).
Proof. intros Hp. exists arr'. right. done. Qed.

Lemma moved_then_updated (h : heap) b arr (x y : list E) :
  h !! b = Some arr ->
  <[fresh (dom h) := y]> (delete b (<[fresh (dom h) := x]> h))
  = delete b (<[fresh (dom h) := y]> h).
Proof.
  intros Hb. pose proof (fresh_block_ne _ _ _ Hb) as Hne.
  apply map_eq. intros q.
  destruct (decide (q = fresh (dom h))) as [->|Hq].
  - rewrite lookup_insert_eq, lookup_delete_ne, lookup_insert_eq; done.
  - rewrite lookup_insert_ne by done.
    destruct (decide (q = b)) as [->|Hqb].
    + rewrite !lookup_delete_eq. done.
    + rewrite !lookup_delete_ne, !lookup_insert_ne; done.
Qed.

Lemma updated_then_moved (h : heap) b arr (x y : list E) :
  h !! b = Some arr ->
  delete b (<[fresh (dom (<[b := x]> h)) := y]> (<[b := x]> h))
  = delete b (<[fresh (dom h) := y]> h).
Proof.
  intros Hb. rewrite (dom_update _ _ _ _ Hb).
  pose proof (fresh_block_ne _ _ _ Hb) as Hne.
  apply map_eq. intros q.
  destruct (decide (q = b)) as [->|Hqb].
  - rewrite !lookup_delete_eq. done.
  - rewrite !lookup_delete_ne by done.
    destruct (decide (q = fresh (dom h))) as [->|Hq].
    + rewrite !lookup_insert_eq. done.
    + rewrite !lookup_insert_ne; done.
Qed.

Lemma reshaped_grown_update v h b arr v1 h1 b1 arr1 v' (x : list E) :
  owns v h b arr -> grown v h b arr = (v1, h1, b1, arr1) ->
  pv v' = pv v1 ->
  reshaped h b (v', <[b1 := x]> h1).
Proof.
  intros [Hp Hb Hl Hn HN] Hg Hp'. unfold grown in Hg.
  destruct (n v =? N v).
  - unfold resized in Hg. injection Hg as <- <- <- <-.
    rewrite (moved_then_updated _ _ _ _ _ Hb).
    apply reshaped_moved. done.
  - injection Hg as <- <- <- <-. apply reshaped_update. congruence.
Qed.

Lemma reshaped_shrunk v h b arr v1 h1 b1 arr1 :
  owns v h b arr -> shrunk v h b arr = (v1, h1, b1, arr1) ->
  reshaped h b (v1, h1).
Proof.
  intros [Hp Hb Hl Hn HN] Hs. unfold shrunk in Hs.
  destruct ((0 <? n v) && (n v =? N v ÷ 4)).
  - unfold resized in Hs. injection Hs as <- <- <- <-.
    apply reshaped_moved. done.
  - injection Hs as <- <- <- <-. eapply reshaped_same; done.
Qed.

Lemma reshaped_shrunk_updated v2 h b arr arr2 v1 h1 b1 arr1 :
  h !! b = Some arr -> owns v2 (<[b := arr2]> h) b arr2 ->
  shrunk v2 (<[b := arr2]> h) b arr2 = (v1, h1, b1, arr1) ->
  reshaped h b (v1, h1).
Proof.
  intros Hb [Hp2 Hb2 Hl2 Hn2 HN2] Hs. unfold shrunk in Hs.
  destruct ((0 <? n v2) && (n v2 =? N v2 ÷ 4)).
  - unfold resized in Hs. injection Hs as <- <- <- <-.
    rewrite (updated_then_moved _ _ _ _ _ Hb).
    exists (moved_into (N v2 ÷ 2) (n v2) arr2). right.
    split; [done|]. simpl. rewrite (dom_update _ _ _ _ Hb). done.
  - injection Hs as <- <- <- <-. apply reshaped_update. done.
Qed.

Lemma insert_reshapes v h b arr i x :
  owns v h b arr -> 2 <= N v -> step_reshaped h b (insert i x (v, h)).
Proof.
  intros Ho H2. pose proof Ho as [Hp Hb Hl Hn HN].
  destruct (decide (0 <= i <= n v)) as [Hi|Hi]; cycle 1.
  { rewrite (insert_invalid _ _ _ _ (proj1 Hn) Hi). eapply reshaped_same; done. }
  destruct (decide (n v = N v /\ INT_MAX < N v * 2)) as [[Heq Hov]|Hok].
  { destruct (decide (i = n v)) as [->|Hne].
    - unfold insert. rewrite bind_this, Z.eqb_refl.
      rewrite insert_back_overflow by done. done.
    - rewrite insert_overflow by (done || lia). done. }
  assert (Hov : n v = N v -> N v * 2 <= INT_MAX) by lia.
  assert (Hpos : 0 < N v) by lia.
  destruct (grown v h b arr) as [[[v1 h1] b1] arr1] eqn:Hg.
  rewrite (insert_state _ _ _ _ _ x _ _ _ _ Ho Hpos Hov Hi Hg).
  eapply reshaped_grown_update; done.
Qed.

Lemma insert_back_reshapes v h b arr x :
  owns v h b arr -> 2 <= N v -> step_reshaped h b (insert_back x (v, h)).
Proof.
  intros Ho H2.
  replace (insert_back x (v, h)) with (insert (n v) x (v, h)).
  - eapply insert_reshapes; done.
  - unfold insert. rewrite bind_this, Z.eqb_refl. done.
Qed.

Lemma remove_back_reshapes v h b arr :
  owns v h b arr -> step_reshaped h b (remove_back (v, h)).
Proof.
  intros Ho. pose proof Ho as [Hp Hb Hl Hn HN].
  destruct (decide (n v = 0)) as [H0|H0].
  { rewrite (remove_back_empty _ _ H0). eapply reshaped_same; done. }
  destruct (shrunk v h b arr) as [[[v1 h1] b1] arr1] eqn:Hs.
  rewrite (remove_back_spec v h b arr v1 h1 b1 arr1); [|done|lia|done].
  eapply reshaped_shrunk; done.
Qed.

Lemma remove_reshapes v h b arr i :
  owns v h b arr -> step_reshaped h b (remove i (v, h)).
Proof.
  intros Ho. pose proof Ho as [Hp Hb Hl Hn HN].
  destruct (decide (0 <= i < n v)) as [Hi|Hi]; cycle 1.
  { assert (Hn' : 0 <= n v <= INT_MAX) by lia.
    rewrite (remove_invalid _ _ _ Hn' Hi). eapply reshaped_same; done. }
  destruct (decide (i = n v - 1)) as [->|Hne].
  { rewrite (remove_last _ _ _ _ Ho). eapply remove_back_reshapes; done. }
  set (arr2 := shifted_out arr i (n v)).
  assert (Ho2 : owns (with_n (n v - 1) v) (<[b := arr2]> h) b arr2).
  { apply (owns_update _ _ _ arr); [done| |lia].
    apply length_shifted_out; lia. }
  destruct (shrunk (with_n (n v - 1) v) (<[b := arr2]> h) b arr2)
    as [[[v1 h1] b1] arr1] eqn:Hs.
  rewrite (remove_spec v h b arr i v1 h1 b1 arr1); [|done|lia|exact Hs].
  eapply reshaped_shrunk_updated; done.
Qed.

Lemma clear_reshapes v h b arr :
  owns v h b arr -> step_reshaped h b (clear (v, h)).
Proof.
  intros [Hp Hb Hl Hn HN]. eapply reshaped_same; done.
Qed.

Lemma assign_from_reshapes v h b arr y bt arrt :
  owns v h b arr -> owns y h bt arrt ->
  step_reshaped h b (assign_from y (v, h)).
Proof.
  intros Ho Hy. rewrite (assign_from_spec _ _ _ _ _ _ _ Ho Hy).
  apply reshaped_moved. done.
Qed.

Lemma append_self_reshapes v h b arr :
  owns v h b arr -> step_reshaped h b (operator_plus_eq Self (v, h)).
Proof.
  intros Ho. pose proof Ho as [Hp Hb Hl Hn HN].
  destruct (decide (INT_MAX < N v + N v)) as [Hov|Hov].
  { rewrite (operator_plus_eq_overflow v h Self v); done. }
  destruct (resized v h b arr (N v + N v)) as [[[v1 h1] b1] arr1] eqn:Hr.
  rewrite (operator_plus_eq_self v h b arr v1 h1 b1 arr1); [|done|lia|done].
  unfold resized in Hr. injection Hr as <- <- <- <-.
  cbn [step_reshaped]. rewrite (moved_then_updated _ _ _ _ _ Hb).
  apply reshaped_moved. done.
Qed.

Lemma append_other_reshapes v h b arr t bt arrt :
  owns v h b arr -> owns t h bt arrt -> b <> bt ->
  step_reshaped h b (operator_plus_eq (Other t) (v, h)).
Proof.
  intros Ho Ht Hne. pose proof Ho as [Hp Hb Hl Hn HN].
  destruct (decide (INT_MAX < N v + N t)) as [Hov|Hov].
  { rewrite (operator_plus_eq_overflow v h (Other t) t); done. }
  destruct (resized v h b arr (N v + N t)) as [[[v1 h1] b1] arr1] eqn:Hr.
  rewrite (operator_plus_eq_other v h b arr t bt arrt v1 h1 b1 arr1);
    [|done|done|done|lia|done].
  unfold resized in Hr. injection Hr as <- <- <- <-.
  cbn [step_reshaped]. rewrite (moved_then_updated _ _ _ _ _ Hb).
  apply reshaped_moved. done.
Qed.

Lemma no_leak_update w k v b arr s :
  no_leak w -> objs w !! k = Some v -> owns v (hp w) b arr ->
  reshaped (hp w) b s ->
  no_leak (World (<[k := fst s]> (objs w)) (snd s)).
Proof.
  intros Hnl Hk [Hp Hb _ _ _] (arr' & Hshape) q Hq. simpl in Hq |- *.
  pose proof (lookup_lt_Some _ _ _ Hk) as Hlen.
  assert (Hold : q <> b -> is_Some (hp w !! q) ->
            exists k' v', <[k := fst s]> (objs w) !! k' = Some v' /\
                          pv v' = Some (Ptr q 0)).
  { intros Hqb Hlive. destruct (Hnl q Hlive) as (k' & v' & Hk' & Hp').
    exists k', v'. split; [|done].
    rewrite list_lookup_insert_ne; [done|].
    intros <-. rewrite Hk in Hk'. injection Hk' as <-.
    rewrite Hp in Hp'. injection Hp' as ->. done. }
  destruct Hshape as [[Hh Hps]|[Hh Hps]]; rewrite Hh in Hq.
  - destruct (decide (q = b)) as [->|Hqb].
    + exists k, (fst s). rewrite list_lookup_insert_eq by done. done.
    + rewrite lookup_insert_ne in Hq by done. apply Hold; done.
  - destruct (decide (q = b)) as [->|Hqb].
    { rewrite lookup_delete_eq in Hq. destruct Hq as [? [=]]. }
    rewrite lookup_delete_ne in Hq by done.
    destruct (decide (q = fresh (dom (hp w)))) as [->|Hqf].
    + exists k, (fst s). rewrite list_lookup_insert_eq by done. done.
    + rewrite lookup_insert_ne in Hq by done. apply Hold; done.
Qed.

Lemma on_no_leak k m w v b arr :
  no_leak w -> objs w !! k = Some v -> owns v (hp w) b arr ->
  step_reshaped (hp w) b (m (v, hp w)) ->
  match on k m w with
  | Ret _ w' | Raise _ w' => no_leak w'
  | Undef | Aborted => True
  end.
Proof.
  intros Hnl Hk Ho Hstep. unfold on. rewrite Hk.
  destruct (m (v, hp w)) as [a s|e s| |]; try done;
    eapply no_leak_update; done.
Qed.

Lemma no_leak_push w r br (arrr : list E) :
  no_leak w -> pv r = Some (Ptr br 0) ->
  no_leak (World (objs w ++ [r]) (<[br := arrr]> (hp w))).
Proof.
  intros Hnl Hp q Hq. simpl in Hq |- *.
  destruct (decide (q = br)) as [->|Hne].
  - exists (length (objs w)), r. split; [|done].
    rewrite lookup_app_r, Nat.sub_diag by lia. done.
  - rewrite lookup_insert_ne in Hq by done.
    destruct (Hnl q Hq) as (k & v & Hk & Hpv).
    exists k, v. split; [|done]. apply lookup_app_l_Some. done.
Qed.

Lemma no_leak_swap w j k vj vk :
  no_leak w -> objs w !! j = Some vj -> objs w !! k = Some vk ->
  no_leak (World (<[k := vj]> (<[j := vk]> (objs w))) (hp w)).
Proof.
  intros Hnl Hj Hk q Hq. simpl in Hq |- *.
  pose proof (lookup_lt_Some _ _ _ Hj) as Hlj.
  pose proof (lookup_lt_Some _ _ _ Hk) as Hlk.
  destruct (Hnl q Hq) as (i & v & Hi & Hp).
  destruct (decide (i = j)) as [->|Hij].
  - exists k, vj. rewrite list_lookup_insert_eq by (rewrite length_insert; done).
    split; [done|]. congruence.
  - destruct (decide (i = k)) as [->|Hik].
    + exists j, vk. rewrite list_lookup_insert_ne by done.
      rewrite list_lookup_insert_eq by done. split; [done|]. congruence.
    + exists i, v. rewrite !list_lookup_insert_ne by done. done.
Qed.

Lemma exec_no_leak o w :
  inv 2 w -> no_leak w ->
  match exec o w with
  | Ret _ w' | Raise _ w' => no_leak w'
  | Undef | Aborted => True
  end.
Proof.
  intros Hinv Hnl. pose proof Hinv as [Hown Hdis].
  destruct o as [|k x|k i x|k i|k|k|j k|j k|j k|j k]; unfold exec.
  - unfold declare.
    assert (H0 : 0 <= DEFAULT_CAPACITY) by (unfold DEFAULT_CAPACITY; lia).
    rewrite (Vector_new_spec _ _ H0). apply no_leak_push; done.
  - destruct (objs w !! k) as [v|] eqn:Hk; [|unfold on; rewrite Hk; done].
    destruct (Hown k v Hk) as (b & arr & Ho & H2).
    eapply on_no_leak; [done|done|done|]. eapply insert_back_reshapes; done.
  - destruct (objs w !! k) as [v|] eqn:Hk; [|unfold on; rewrite Hk; done].
    destruct (Hown k v Hk) as (b & arr & Ho & H2).
    eapply on_no_leak; [done|done|done|]. eapply insert_reshapes; done.
  - destruct (objs w !! k) as [v|] eqn:Hk; [|unfold on; rewrite Hk; done].
    destruct (Hown k v Hk) as (b & arr & Ho & H2).
    eapply on_no_leak; [done|done|done|]. eapply remove_reshapes; done.
  - destruct (objs w !! k) as [v|] eqn:Hk; [|unfold on; rewrite Hk; done].
    destruct (Hown k v Hk) as (b & arr & Ho & H2).
    eapply on_no_leak; [done|done|done|]. eapply remove_back_reshapes; done.
  - destruct (objs w !! k) as [v|] eqn:Hk; [|unfold on; rewrite Hk; done].
    destruct (Hown k v Hk) as (b & arr & Ho & H2).
    eapply on_no_leak; [done|done|done|]. eapply clear_reshapes; done.
  - destruct (objs w !! j) as [vj|] eqn:Hj; [|done].
    destruct (objs w !! k) as [vk|] eqn:Hk; [|done].
    unfold swap. rewrite bind_this. cbn.
    rewrite !Vector_eta. apply no_leak_swap; done.
  - destruct (objs w !! k) as [vk|] eqn:Hk; [|done].
    destruct (objs w !! j) as [vj|] eqn:Hj; [|unfold on; rewrite Hj; done].
    destruct (Hown j vj Hj) as (b & arr & Ho & H2).
    destruct (Hown k vk Hk) as (bk & arrk & Hok & H2k).
    eapply on_no_leak; [done|done|done|]. eapply assign_from_reshapes; done.
  - destruct (decide (j = k)) as [->|Hjk].
    + destruct (objs w !! k) as [v|] eqn:Hk; [|unfold on; rewrite Hk; done].
      destruct (Hown k v Hk) as (b & arr & Ho & H2).
      eapply on_no_leak; [done|done|done|]. eapply append_self_reshapes; done.
    + destruct (objs w !! k) as [vk|] eqn:Hk; [|done].
      destruct (objs w !! j) as [vj|] eqn:Hj; [|unfold on; rewrite Hj; done].
      destruct (Hown j vj Hj) as (b & arr & Ho & H2).
      destruct (Hown k vk Hk) as (bk & arrk & Hok & H2k).
      eapply on_no_leak; [done|done|done|].
      eapply append_other_reshapes; [done|done|].
      intros ->. apply Hjk, (Hdis j k vj vk Hj Hk).
      eapply owns_block_eq; done.
  - destruct (objs w !! j) as [vj|] eqn:Hj; [|done].
    destruct (objs w !! k) as [vk|] eqn:Hk; [|done].
    destruct (Hown j vj Hj) as (b & arr & Ho & H2).
    destruct (Hown k vk Hk) as (bk & arrk & Hok & H2k).
    unfold declare.
    destruct (decide (INT_MAX < N vj + N vk)) as [Hov|Hov].
    { rewrite (concatenate_overflow _ _ _ _ _ Ho Hov). done. }
    assert (Hov' : N vj + N vk <= INT_MAX) by lia.
    destruct (concatenate_spec _ _ _ _ _ _ _ _ _ Ho Hok Hov'
                (owns_elements _ _ _ _ Ho) (owns_elements _ _ _ _ Hok))
      as (r & h' & br & arrr & Hrun & Hor & _ & _ & Hdead & -> & _).
    rewrite Hrun. apply no_leak_push; [done|]. destruct Hor; done.
Qed.

Lemma run_no_leak ops : forall w w',
  inv 2 w -> no_leak w -> run ops w = Ret tt w' -> no_leak w'.
Proof.
  induction ops as [|o ops IH]; intros w w' Hinv Hnl Hrun.
  - injection Hrun as <-. done.
  - simpl in Hrun.
    pose proof (exec_inv o w Hinv) as Hstep.
    pose proof (exec_no_leak o w Hinv Hnl) as Hstep'.
    destruct (exec o w) as [a w1|e w1| |]; try done; eapply IH; done.
Qed.

(** X19: in every state a program reaches from vectors created with the
    default capacity, the live blocks of the heap are exactly the arrays
    of the program's vectors, and no two vectors share an array: nothing
    leaks, nothing is freed while in use, nothing is owned twice. *)
Theorem live_blocks_are_the_vectors_arrays ops w :
  run ops (World [] ∅) = Ret tt w ->
  (forall q, is_Some (hp w !! q) <->
     exists k v, objs w !! k = Some v /\ pv v = Some (Ptr q 0)) /\
  (forall j k vj vk, objs w !! j = Some vj -> objs w !! k = Some vk ->
     pv vj = pv vk -> j = k).
Proof.
  intros Hrun.
  assert (Hnl0 : no_leak (World [] ∅)).
  { intros q Hq. simpl in Hq. rewrite lookup_empty in Hq. destruct Hq as [? [=]]. }
  pose proof (run_no_leak ops _ _ inv_empty Hnl0 Hrun) as Hnl.
  destruct (run_inv ops _ _ inv_empty Hrun) as [Hown Hdis].
  split; [|exact Hdis].
  intros q. split; [apply Hnl|].
  intros (k & v & Hk & Hp).
  destruct (Hown k v Hk) as (b & arr & [Hp' Hb _ _ _] & _).
  rewrite Hp in Hp'. injection Hp' as ->. rewrite Hb. done.
Qed.

End vector.

(** * Runs on vectors of [int]

    [E] is [int], modelled by [Z]; a default-constructed [int] is 0. *)

(** C1: from [Vector<int> v;], eleven [insert_back] calls with 0, ..., 10
    give size 11, capacity 20 and [at(10) == 10]; eight [remove_back] calls
    then return, and the size is still 11, not 3: [remove_back] does not
    decrement [n]. *)
Theorem eleven_insert_back_then_eight_remove_back :
  exists v1 h1 v2 h2,
    client 0 DEFAULT_CAPACITY
      (insert_back_all 0 [0; 1; 2; 3; 4; 5; 6; 7; 8; 9; 10]) ∅
    = Ret (tt, v1) h1 /\
    size v1 = 11 /\ capacity v1 = 20 /\
    read (at_ 10) (v1, h1) = Ret 10 (v1, h1) /\
    iterate 8 (remove_back 0) (v1, h1) = Ret tt (v2, h2) /\
    size v2 = 11 /\ capacity v2 = 20.
Proof.
  eexists _, _, _, _.
  split; [vm_compute; reflexivity|].
  split; [reflexivity|]. split; [reflexivity|].
  split; [vm_compute; reflexivity|].
  split; [vm_compute; reflexivity|].
  split; reflexivity.
Qed.

(** C2: [remove_back] on a vector of one element returns and the size is
    still 1; on a vector of three elements and capacity 10 it returns with
    size 3 and capacity 10, where a length of 2 = 10 / 4 would halve the
    capacity. *)
Theorem remove_back_does_not_decrement :
  (exists v1 h1 v2 h2,
     client 0 DEFAULT_CAPACITY (insert_back 0 7) ∅ = Ret (tt, v1) h1 /\
     size v1 = 1 /\
     remove_back 0 (v1, h1) = Ret tt (v2, h2) /\
     size v2 = 1) /\
  (exists v1 h1 v2 h2,
     client 0 DEFAULT_CAPACITY (insert_back_all 0 [1; 2; 3]) ∅ = Ret (tt, v1) h1 /\
     size v1 = 3 /\ capacity v1 = 10 /\
     remove_back 0 (v1, h1) = Ret tt (v2, h2) /\
     size v2 = 3 /\ capacity v2 = 10).
Proof.
  split.
  - eexists _, _, _, _.
    split; [vm_compute; reflexivity|]. split; [reflexivity|].
    split; [vm_compute; reflexivity|]. reflexivity.
  - eexists _, _, _, _.
    split; [vm_compute; reflexivity|]. split; [reflexivity|]. split; [reflexivity|].
    split; [vm_compute; reflexivity|]. split; reflexivity.
Qed.

(** C4 fails as stated: after three [insert_back] calls on a vector of the
    default capacity, [remove(0)] leaves length 2 = 10 / 4 and halves the
    capacity to 5, below the default 10. *)
Lemma capacity_falls_below_default :
  exists w v,
    run 0 [Create; InsertBack 0 1; InsertBack 0 2; InsertBack 0 3; Remove 0 0]
        (World [] ∅) = Ret tt w /\
    objs w !! 0%nat = Some v /\
    size v = 2 /\ capacity v = 5 /\ capacity v < DEFAULT_CAPACITY.
Proof.
  eexists _, _.
  split; [vm_compute; reflexivity|].
  split; [reflexivity|].
  split; [reflexivity|]. split; [reflexivity|]. reflexivity.
Qed.

(** C5 fails as stated: a vector of one element, once moved from, still
    reports size 1 and is not [empty()]. *)
Lemma moved_from_vector_keeps_its_length :
  exists x h,
    client 0 DEFAULT_CAPACITY (insert_back 0 7) ∅ = Ret (tt, x) h /\
    size (snd (Vector_move x)) = 1 /\
    size (snd (Vector_move x)) <> 0 /\
    empty (snd (Vector_move x)) = false.
Proof.
  eexists _, _.
  split; [vm_compute; reflexivity|].
  split; [reflexivity|]. split; [discriminate|]. reflexivity.
Qed.

(** C8 fails as stated: with [Vector<int> a(1 << 30), b(1 << 30);] the
    expression [a + b] makes [operator+=] compute [N + that.N] = 2^31 in
    [int], which overflows: no vector is produced. *)
Lemma concatenate_overflows_at_large_capacities :
  exists a h1 b h2,
    Vector_new 0 1073741824 ∅ = Ret a h1 /\
    Vector_new 0 1073741824 h1 = Ret b h2 /\
    wf a h2 /\ wf b h2 /\
    elements a h2 = Some [] /\ elements b h2 = Some [] /\
    concatenate 0 a b h2 = Undef.
Proof.
  set (arr := replicate (Z.to_nat 1073741824) 0).
  set (h1 := <[fresh (dom (∅ : gmap block (list Z))) := arr]>
               (∅ : gmap block (list Z))).
  set (h2 := <[fresh (dom h1) := arr]> h1).
  set (a := mkVector 0 1073741824 (Some (Ptr (fresh (dom (∅ : gmap block (list Z)))) 0))).
  set (b := mkVector 0 1073741824 (Some (Ptr (fresh (dom h1)) 0))).
  assert (Hlen : length arr = Z.to_nat 1073741824) by apply length_replicate.
  assert (H1 : h1 !! fresh (dom (∅ : gmap block (list Z))) = Some arr)
    by apply lookup_insert_eq.
  assert (Ha : owns a h2 (fresh (dom (∅ : gmap block (list Z)))) arr).
  { constructor; cbn [n N pv a]; [reflexivity| |rewrite Hlen; lia|lia|unfold INT_MAX; lia].
    unfold h2. rewrite lookup_insert_ne; [exact H1|].
    intros Heq. symmetry in Heq. exact (fresh_block_ne _ _ _ H1 Heq). }
  assert (Hb : owns b h2 (fresh (dom h1)) arr).
  { constructor; cbn [n N pv b]; [reflexivity| |rewrite Hlen; lia|lia|unfold INT_MAX; lia].
    apply lookup_insert_eq. }
  exists a, h1, b, h2.
  split; [rewrite Vector_new_spec by lia; reflexivity|].
  split; [rewrite Vector_new_spec by lia; reflexivity|].
  split; [exists (fresh (dom (∅ : gmap block (list Z)))), arr; exact Ha|].
  split; [exists (fresh (dom h1)), arr; exact Hb|].
  split; [rewrite (owns_elements _ _ _ _ Ha); cbn [n a];
          change (Z.to_nat 0) with 0%nat; reflexivity|].
  split; [rewrite (owns_elements _ _ _ _ Hb); cbn [n b];
          change (Z.to_nat 0) with 0%nat; reflexivity|].
  apply (concatenate_overflow 0 a b h2 _ _ Ha).
  cbn [N a b]. unfold INT_MAX. lia.
Qed.

(** C9 fails as stated: with [Vector<int> v(1 << 30);] the statement
    [v += v] computes [N + that.N] = 2^31 in [int], which overflows: the
    call does not return. *)
Lemma self_append_overflows_at_large_capacity :
  exists v h,
    Vector_new 0 1073741824 ∅ = Ret v h /\
    wf v h /\ elements v h = Some [] /\
    operator_plus_eq 0 Self (v, h) = Undef.
Proof.
  set (arr := replicate (Z.to_nat 1073741824) 0).
  set (h := <[fresh (dom (∅ : gmap block (list Z))) := arr]>
              (∅ : gmap block (list Z))).
  set (v := mkVector 0 1073741824 (Some (Ptr (fresh (dom (∅ : gmap block (list Z)))) 0))).
  assert (Ho : owns v h (fresh (dom (∅ : gmap block (list Z)))) arr).
  { constructor; cbn [n N pv v]; [reflexivity| | |lia|unfold INT_MAX; lia].
    - apply lookup_insert_eq.
    - unfold arr. rewrite length_replicate. lia. }
  exists v, h.
  split; [rewrite Vector_new_spec by lia; reflexivity|].
  split; [exists (fresh (dom (∅ : gmap block (list Z)))), arr; exact Ho|].
  split; [rewrite (owns_elements _ _ _ _ Ho); cbn [n v];
          change (Z.to_nat 0) with 0%nat; reflexivity|].
  apply (operator_plus_eq_overflow 0 v h Self v); [reflexivity|].
  cbn [N v]. unfold INT_MAX. lia.
Qed.

(** C10: [remove] at the last index goes through [remove_back], which
    tests the length before the removal.  From [Vector<int> v(4);] and
    one [insert_back], [remove(0)] returns with capacity 2 in another
    array, where a removal leaves length 0; from [Vector<int> v;] and two
    [insert_back] calls, [remove(1)] returns with capacity 5 in another
    array, where a removal leaves length 1, not 10 / 4 = 2.  In both
    runs [size()] is what it was before the call. *)
Theorem remove_at_last_index_halves_on_old_length :
  (exists v1 h1 v2 h2,
     client 0 4 (insert_back 0 7) ∅ = Ret (tt, v1) h1 /\
     size v1 = 1 /\ capacity v1 = 4 /\
     remove 0 0 (v1, h1) = Ret tt (v2, h2) /\
     capacity v2 = 2 /\ pv v2 <> pv v1 /\ dom h2 <> dom h1 /\
     size v2 = 1) /\
  (exists v1 h1 v2 h2,
     client 0 DEFAULT_CAPACITY (insert_back_all 0 [1; 2]) ∅ = Ret (tt, v1) h1 /\
     size v1 = 2 /\ capacity v1 = 10 /\
     remove 0 1 (v1, h1) = Ret tt (v2, h2) /\
     capacity v2 = 5 /\ pv v2 <> pv v1 /\ dom h2 <> dom h1 /\
     size v2 = 2).
Proof.
  split.
  - eexists _, _, _, _.
    split; [vm_compute; reflexivity|].
    split; [reflexivity|]. split; [reflexivity|].
    split; [vm_compute; reflexivity|].
    split; [reflexivity|]. split; [discriminate|].
    split; [|reflexivity].
    vm_compute. discriminate.
  - eexists _, _, _, _.
    split; [vm_compute; reflexivity|].
    split; [reflexivity|]. split; [reflexivity|].
    split; [vm_compute; reflexivity|].
    split; [reflexivity|]. split; [discriminate|].
    split; [|reflexivity].
    vm_compute. discriminate.
Qed.

(** ** The theorems at sample states *)

Lemma move_transfers_array_witness :
  owns sample_vector (sample_heap 0 5 6 7) 1%positive (sample_array 0 5 6 7) /\
  pv (snd (Vector_move sample_vector)) = None /\
  size (snd (Vector_move sample_vector)) = 3 /\
  Vector_delete (snd (Vector_move sample_vector)) (sample_heap 0 5 6 7)
  = Ret tt (sample_heap 0 5 6 7).
Proof.
  split; [apply owns_sample|].
  destruct (move_transfers_array_source_keeps_length
              sample_vector (sample_heap 0 5 6 7) 1%positive (sample_array 0 5 6 7)
              (owns_sample 0 5 6 7))
    as (_ & _ & _ & Hp & Hs & _ & Hd & _).
  split; [exact Hp|]. split; [exact Hs|]. apply Hd.
Defined.

Lemma self_append_witness :
  owns sample_vector (sample_heap 0 5 6 7) 1%positive (sample_array 0 5 6 7) /\
  N sample_vector + N sample_vector <= INT_MAX /\
  elements sample_vector (sample_heap 0 5 6 7) = Some [5; 6; 7] /\
  exists v' h' b' arr',
    operator_plus_eq 0 Self (sample_vector, sample_heap 0 5 6 7) = Ret tt (v', h') /\
    owns v' h' b' arr' /\
    size v' = size sample_vector + size sample_vector /\
    elements v' h' = Some ([5; 6; 7] ++ [5; 6; 7]).
Proof.
  assert (Hov : N sample_vector + N sample_vector <= INT_MAX)
    by (unfold INT_MAX; simpl; lia).
  assert (Hel : elements sample_vector (sample_heap 0 5 6 7) = Some [5; 6; 7])
    by reflexivity.
  split; [apply owns_sample|]. split; [exact Hov|]. split; [exact Hel|].
  exact (self_append_doubles 0 sample_vector (sample_heap 0 5 6 7) 1%positive
           (sample_array 0 5 6 7) [5; 6; 7] (owns_sample 0 5 6 7) Hov Hel).
Defined.

Lemma concatenate_witness :
  owns sample_vector (both_heap 0 5 6 7 9) 1%positive (sample_array 0 5 6 7) /\
  owns other_vector (both_heap 0 5 6 7 9) 2%positive (other_array 0 9) /\
  N sample_vector + N other_vector <= INT_MAX /\
  elements sample_vector (both_heap 0 5 6 7 9) = Some [5; 6; 7] /\
  elements other_vector (both_heap 0 5 6 7 9) = Some [9] /\
  exists r h',
    concatenate 0 sample_vector other_vector (both_heap 0 5 6 7 9) = Ret r h' /\
    wf r h' /\
    size r = size sample_vector + size other_vector /\
    elements r h' = Some ([5; 6; 7] ++ [9]) /\
    owns sample_vector h' 1%positive (sample_array 0 5 6 7) /\
    owns other_vector h' 2%positive (other_array 0 9) /\
    elements sample_vector h' = Some [5; 6; 7] /\
    elements other_vector h' = Some [9].
Proof.
  assert (Hov : N sample_vector + N other_vector <= INT_MAX)
    by (unfold INT_MAX; simpl; lia).
  assert (Ha : elements sample_vector (both_heap 0 5 6 7 9) = Some [5; 6; 7])
    by reflexivity.
  assert (Hb : elements other_vector (both_heap 0 5 6 7 9) = Some [9])
    by reflexivity.
  split; [apply owns_sample_both|]. split; [apply owns_other_both|].
  split; [exact Hov|]. split; [exact Ha|]. split; [exact Hb|].
  exact (concatenate_appends 0 sample_vector other_vector (both_heap 0 5 6 7 9)
           1%positive (sample_array 0 5 6 7) 2%positive (other_array 0 9)
           [5; 6; 7] [9]
           (owns_sample_both 0 5 6 7 9) (owns_other_both 0 5 6 7 9) Hov Ha Hb).
Defined.

Lemma checked_operations_witness :
  owns sample_vector (sample_heap 0 5 6 7) 1%positive (sample_array 0 5 6 7) /\
  at_ 3 (sample_vector, sample_heap 0 5 6 7)
  = Raise (out_of_range "Vector::at") (sample_vector, sample_heap 0 5 6 7) /\
  insert 0 4 8 (sample_vector, sample_heap 0 5 6 7)
  = Raise (out_of_range "Vector::insert() i out of range.")
          (sample_vector, sample_heap 0 5 6 7) /\
  (forall e s, remove 0 2 (sample_vector, sample_heap 0 5 6 7) <> Raise e s).
Proof.
  split; [apply owns_sample|].
  destruct (checked_operations_throw_exactly_when_invalid 0
              sample_vector (sample_heap 0 5 6 7) 1%positive (sample_array 0 5 6 7)
              (owns_sample 0 5 6 7))
    as (Hins & Hrem & Hat & _).
  split; [apply (proj1 (Hat 3)); simpl; lia|].
  split; [apply (proj1 (Hins 4 8)); simpl; lia|].
  apply (proj2 (Hrem 2)). simpl. lia.
Defined.

Lemma length_within_capacity_witness :
  exists w v,
    run 0 [Create; InsertBack 0 1; InsertBack 0 2; InsertBack 0 3; Remove 0 0;
           Remove 0 0]
        (World [] ∅) = Ret tt w /\
    objs w !! 0%nat = Some v /\
    capacity v = 2 /\
    (wf v (hp w) /\ 0 <= size v <= capacity v /\ 2 <= capacity v).
Proof.
  eexists _, _.
  split; [vm_compute; reflexivity|].
  split; [reflexivity|]. split; [reflexivity|].
  eapply (length_within_capacity_at_least_two 0
            [Create; InsertBack 0 1; InsertBack 0 2; InsertBack 0 3; Remove 0 0;
             Remove 0 0] _ 0%nat).
  - vm_compute. reflexivity.
  - reflexivity.
Defined.

(** ** The further properties at sample states *)

Lemma reserve_witness :
  owns sample_vector (sample_heap 0 5 6 7) 1%positive (sample_array 0 5 6 7) /\
  elements sample_vector (sample_heap 0 5 6 7) = Some [5; 6; 7] /\
  (exists v' h',
     reserve 0 8 (sample_vector, sample_heap 0 5 6 7) = Ret tt (v', h') /\
     capacity v' = 8 /\ elements v' h' = Some [5; 6; 7]) /\
  reserve 0 2 (sample_vector, sample_heap 0 5 6 7) = Aborted.
Proof.
  assert (Hl : elements sample_vector (sample_heap 0 5 6 7) = Some [5; 6; 7])
    by reflexivity.
  split; [apply owns_sample|]. split; [exact Hl|].
  destruct (reserve_keeps_elements_in_fresh_array 0 sample_vector
              (sample_heap 0 5 6 7) 1%positive (sample_array 0 5 6 7) [5; 6; 7]
              (owns_sample 0 5 6 7) Hl) as [Hok Hbad].
  split.
  - destruct (Hok 8) as (v' & h' & b' & arr' & Hrun & _ & _ & Hcap & Hel & _).
    { unfold INT_MAX. simpl. lia. }
    exists v', h'. split; [exact Hrun|]. split; [exact Hcap|exact Hel].
  - apply Hbad. simpl. lia.
Defined.

Lemma insert_back_all_witness :
  owns sample_vector (sample_heap 0 5 6 7) 1%positive (sample_array 0 5 6 7) /\
  0 < N sample_vector /\
  n sample_vector + Z.of_nat (length [8; 9]) <= 1073741823 /\
  elements sample_vector (sample_heap 0 5 6 7) = Some [5; 6; 7] /\
  exists v' h',
    insert_back_all 0 [8; 9] (sample_vector, sample_heap 0 5 6 7)
    = Ret tt (v', h') /\
    elements v' h' = Some ([5; 6; 7] ++ [8; 9]).
Proof.
  assert (Hpos : 0 < N sample_vector) by (simpl; lia).
  assert (Hlen : n sample_vector + Z.of_nat (length [8; 9]) <= 1073741823)
    by (simpl; lia).
  assert (Hl : elements sample_vector (sample_heap 0 5 6 7) = Some [5; 6; 7])
    by reflexivity.
  split; [apply owns_sample|]. split; [exact Hpos|]. split; [exact Hlen|].
  split; [exact Hl|].
  destruct (insert_back_all_appends 0 [8; 9] sample_vector
              (sample_heap 0 5 6 7) 1%positive (sample_array 0 5 6 7) [5; 6; 7]
              (owns_sample 0 5 6 7) Hpos Hlen Hl)
    as (v' & h' & b' & arr' & Hrun & _ & _ & Hel & _).
  exists v', h'. split; [exact Hrun|exact Hel].
Defined.

Lemma owns_full_sample :
  owns full_vector (full_heap 5 6) 1%positive (full_array 5 6).
Proof. constructor; done. Defined.

Lemma insert_into_full_vector_witness :
  owns full_vector (full_heap 5 6) 1%positive (full_array 5 6) /\
  n full_vector = N full_vector /\ 0 < N full_vector /\
  N full_vector * 2 <= INT_MAX /\ 0 <= 1 <= n full_vector /\
  elements full_vector (full_heap 5 6) = Some [5; 6] /\
  exists v' h',
    insert 0 1 9 (full_vector, full_heap 5 6) = Ret tt (v', h') /\
    capacity v' = 2 * capacity full_vector /\
    elements v' h' = Some [5; 9; 6].
Proof.
  assert (Hfull : n full_vector = N full_vector) by reflexivity.
  assert (Hpos : 0 < N full_vector) by (simpl; lia).
  assert (Hov : N full_vector * 2 <= INT_MAX) by (unfold INT_MAX; simpl; lia).
  assert (Hi : 0 <= 1 <= n full_vector) by (simpl; lia).
  assert (Hl : elements full_vector (full_heap 5 6) = Some [5; 6]) by reflexivity.
  split; [exact owns_full_sample|]. split; [exact Hfull|]. split; [exact Hpos|].
  split; [exact Hov|]. split; [exact Hi|]. split; [exact Hl|].
  destruct (insert_into_full_vector_doubles_capacity 0 full_vector
              (full_heap 5 6) 1%positive (full_array 5 6) 1 9 [5; 6]
              owns_full_sample Hfull Hpos Hov Hi Hl)
    as (v' & h' & b' & arr' & Hrun & _ & Hcap & _ & Hel & _).
  exists v', h'. split; [exact Hrun|]. split; [exact Hcap|exact Hel].
Defined.

Lemma remove_cuts_out_witness :
  owns sample_vector (sample_heap 0 5 6 7) 1%positive (sample_array 0 5 6 7) /\
  0 <= 0 < n sample_vector - 1 /\
  elements sample_vector (sample_heap 0 5 6 7) = Some [5; 6; 7] /\
  exists v' h',
    remove 0 0 (sample_vector, sample_heap 0 5 6 7) = Ret tt (v', h') /\
    size v' = size sample_vector - 1 /\
    elements v' h' = Some [6; 7].
Proof.
  assert (Hi : 0 <= 0 < n sample_vector - 1) by (simpl; lia).
  assert (Hl : elements sample_vector (sample_heap 0 5 6 7) = Some [5; 6; 7])
    by reflexivity.
  split; [apply owns_sample|]. split; [exact Hi|]. split; [exact Hl|].
  destruct (remove_cuts_out_position 0 sample_vector
              (sample_heap 0 5 6 7) 1%positive (sample_array 0 5 6 7) 0 [5; 6; 7]
              (owns_sample 0 5 6 7) Hi Hl)
    as (v' & h' & Hrun & _ & Hsz & Hel & _).
  exists v', h'. split; [exact Hrun|]. split; [exact Hsz|exact Hel].
Defined.

Lemma remove_back_keeps_elements_witness :
  owns sample_vector (sample_heap 0 5 6 7) 1%positive (sample_array 0 5 6 7) /\
  0 < n sample_vector /\
  elements sample_vector (sample_heap 0 5 6 7) = Some [5; 6; 7] /\
  exists v' h',
    remove_back 0 (sample_vector, sample_heap 0 5 6 7) = Ret tt (v', h') /\
    size v' = size sample_vector /\
    elements v' h' = Some [5; 6; 7].
Proof.
  assert (Hpos : 0 < n sample_vector) by (simpl; lia).
  assert (Hl : elements sample_vector (sample_heap 0 5 6 7) = Some [5; 6; 7])
    by reflexivity.
  split; [apply owns_sample|]. split; [exact Hpos|]. split; [exact Hl|].
  destruct (remove_back_keeps_elements 0 sample_vector
              (sample_heap 0 5 6 7) 1%positive (sample_array 0 5 6 7) [5; 6; 7]
              (owns_sample 0 5 6 7) Hpos Hl)
    as (v' & h' & Hrun & _ & Hsz & Hel & _).
  exists v', h'. split; [exact Hrun|]. split; [exact Hsz|exact Hel].
Defined.

Lemma checked_accessors_witness :
  owns sample_vector (sample_heap 0 5 6 7) 1%positive (sample_array 0 5 6 7) /\
  elements sample_vector (sample_heap 0 5 6 7) = Some [5; 6; 7] /\
  read (at_ 1) (sample_vector, sample_heap 0 5 6 7)
  = Ret 6 (sample_vector, sample_heap 0 5 6 7) /\
  read front (sample_vector, sample_heap 0 5 6 7)
  = Ret 5 (sample_vector, sample_heap 0 5 6 7) /\
  read back (sample_vector, sample_heap 0 5 6 7)
  = Ret 7 (sample_vector, sample_heap 0 5 6 7).
Proof.
  assert (Hl : elements sample_vector (sample_heap 0 5 6 7) = Some [5; 6; 7])
    by reflexivity.
  split; [apply owns_sample|]. split; [exact Hl|].
  destruct (checked_accessors_return_elements sample_vector
              (sample_heap 0 5 6 7) 1%positive (sample_array 0 5 6 7) [5; 6; 7]
              (owns_sample 0 5 6 7) Hl) as (Hat & Hfront & Hback).
  split; [apply (Hat 1 6); [lia|reflexivity]|].
  split; [apply (Hfront 5); reflexivity|apply (Hback 7); reflexivity].
Defined.

Lemma unchecked_index_witness :
  owns sample_vector (sample_heap 0 5 6 7) 1%positive (sample_array 0 5 6 7) /\
  read (operator_index 3) (sample_vector, sample_heap 0 5 6 7)
  = Ret 0 (sample_vector, sample_heap 0 5 6 7) /\
  read (operator_index 4) (sample_vector, sample_heap 0 5 6 7) = Undef.
Proof.
  split; [apply owns_sample|].
  destruct (unchecked_index_reads_any_slot sample_vector
              (sample_heap 0 5 6 7) 1%positive (sample_array 0 5 6 7)
              (owns_sample 0 5 6 7)) as (Hin & Hout & _).
  split; [apply (Hin 3 0); [lia|reflexivity]|].
  apply Hout. right. simpl. lia.
Defined.

Lemma write_through_at_witness :
  owns sample_vector (sample_heap 0 5 6 7) 1%positive (sample_array 0 5 6 7) /\
  0 <= 1 < n sample_vector /\
  elements sample_vector (sample_heap 0 5 6 7) = Some [5; 6; 7] /\
  exists h',
    write (at_ 1) 9 (sample_vector, sample_heap 0 5 6 7)
    = Ret tt (sample_vector, h') /\
    elements sample_vector h' = Some [5; 9; 7].
Proof.
  assert (Hi : 0 <= 1 < n sample_vector) by (simpl; lia).
  assert (Hl : elements sample_vector (sample_heap 0 5 6 7) = Some [5; 6; 7])
    by reflexivity.
  split; [apply owns_sample|]. split; [exact Hi|]. split; [exact Hl|].
  destruct (write_through_at_replaces_one_element sample_vector
              (sample_heap 0 5 6 7) 1%positive (sample_array 0 5 6 7) 1 9 [5; 6; 7]
              (owns_sample 0 5 6 7) Hi Hl)
    as (h' & Hrun & _ & Hel & _).
  exists h'. split; [exact Hrun|exact Hel].
Defined.

Lemma moved_from_access_witness :
  owns sample_vector (sample_heap 0 5 6 7) 1%positive (sample_array 0 5 6 7) /\
  0 < n sample_vector /\
  read (at_ 0) (snd (Vector_move sample_vector), sample_heap 0 5 6 7) = Undef /\
  read front (snd (Vector_move sample_vector), sample_heap 0 5 6 7) = Undef.
Proof.
  assert (Hpos : 0 < n sample_vector) by (simpl; lia).
  split; [apply owns_sample|]. split; [exact Hpos|].
  destruct (moved_from_access_is_undefined sample_vector
              (sample_heap 0 5 6 7) 1%positive (sample_array 0 5 6 7)
              (owns_sample 0 5 6 7) Hpos) as (Hat & Hfront & _).
  split; [apply Hat; simpl; lia|exact Hfront].
Defined.

Lemma clear_then_insert_back_witness :
  owns sample_vector (sample_heap 0 5 6 7) 1%positive (sample_array 0 5 6 7) /\
  0 < N sample_vector /\
  exists v' h',
    (clear ;;; insert_back 0 9) (sample_vector, sample_heap 0 5 6 7)
    = Ret tt (v', h') /\
    elements v' h' = Some [9] /\ capacity v' = capacity sample_vector.
Proof.
  assert (Hpos : 0 < N sample_vector) by (simpl; lia).
  split; [apply owns_sample|]. split; [exact Hpos|].
  destruct (clear_then_insert_back_reuses_array 0 sample_vector
              (sample_heap 0 5 6 7) 1%positive (sample_array 0 5 6 7) 9
              (owns_sample 0 5 6 7) Hpos)
    as (v' & h' & Hrun & _ & Hel & Hcap & _).
  exists v', h'. split; [exact Hrun|]. split; [exact Hel|exact Hcap].
Defined.

Lemma insert_then_remove_witness :
  owns sample_vector (sample_heap 0 5 6 7) 1%positive (sample_array 0 5 6 7) /\
  0 < N sample_vector /\
  (n sample_vector = N sample_vector -> N sample_vector * 2 <= INT_MAX) /\
  0 <= 1 < n sample_vector /\
  elements sample_vector (sample_heap 0 5 6 7) = Some [5; 6; 7] /\
  exists v' h',
    (insert 0 1 9 ;;; remove 0 1) (sample_vector, sample_heap 0 5 6 7)
    = Ret tt (v', h') /\
    elements v' h' = Some [5; 6; 7].
Proof.
  assert (Hpos : 0 < N sample_vector) by (simpl; lia).
  assert (Hov : n sample_vector = N sample_vector -> N sample_vector * 2 <= INT_MAX)
    by (unfold INT_MAX; simpl; lia).
  assert (Hi : 0 <= 1 < n sample_vector) by (simpl; lia).
  assert (Hl : elements sample_vector (sample_heap 0 5 6 7) = Some [5; 6; 7])
    by reflexivity.
  split; [apply owns_sample|]. split; [exact Hpos|]. split; [exact Hov|].
  split; [exact Hi|]. split; [exact Hl|].
  destruct (insert_then_remove_restores_elements 0 sample_vector
              (sample_heap 0 5 6 7) 1%positive (sample_array 0 5 6 7) 1 9 [5; 6; 7]
              (owns_sample 0 5 6 7) Hpos Hov Hi Hl)
    as (v' & h' & Hrun & _ & _ & Hel).
  exists v', h'. split; [exact Hrun|exact Hel].
Defined.

Lemma copy_constructor_witness :
  owns sample_vector (sample_heap 0 5 6 7) 1%positive (sample_array 0 5 6 7) /\
  elements sample_vector (sample_heap 0 5 6 7) = Some [5; 6; 7] /\
  exists r h' br,
    Vector_copy 0 sample_vector (sample_heap 0 5 6 7) = Ret r h' /\
    pv r = Some (Ptr br 0) /\ sample_heap 0 5 6 7 !! br = None /\
    elements r h' = Some [5; 6; 7] /\
    pv r <> pv sample_vector /\
    exists h'',
      write (at_ 0) 9 (r, h') = Ret tt (r, h'') /\
      elements r h'' = Some [9; 6; 7] /\
      elements sample_vector h'' = Some [5; 6; 7].
Proof.
  assert (Hl : elements sample_vector (sample_heap 0 5 6 7) = Some [5; 6; 7])
    by reflexivity.
  split; [apply owns_sample|]. split; [exact Hl|].
  destruct (copy_constructor_is_deep 0 sample_vector
              (sample_heap 0 5 6 7) 1%positive (sample_array 0 5 6 7) [5; 6; 7]
              (owns_sample 0 5 6 7) Hl)
    as (r & h' & br & arrr & Hrun & Hor & Hdead & _ & _ & _ & Hel & Hne & _ & Hind).
  exists r, h', br. split; [exact Hrun|].
  split; [exact (owns_pv _ _ _ _ Hor)|]. split; [exact Hdead|].
  split; [exact Hel|]. split; [exact Hne|].
  apply (Hind 0 9). simpl. lia.
Defined.

Lemma copy_assignment_witness :
  owns sample_vector (both_heap 0 5 6 7 9) 1%positive (sample_array 0 5 6 7) /\
  owns other_vector (both_heap 0 5 6 7 9) 2%positive (other_array 0 9) /\
  elements other_vector (both_heap 0 5 6 7 9) = Some [9] /\
  exists v' h',
    assign_from 0 other_vector (sample_vector, both_heap 0 5 6 7 9)
    = Ret tt (v', h') /\
    elements v' h' = Some [9] /\ capacity v' = capacity other_vector /\
    h' !! 1%positive = None.
Proof.
  assert (Hl : elements other_vector (both_heap 0 5 6 7 9) = Some [9])
    by reflexivity.
  split; [apply owns_sample_both|]. split; [apply owns_other_both|].
  split; [exact Hl|].
  destruct (copy_assignment_replaces_contents 0 sample_vector
              (both_heap 0 5 6 7 9) 1%positive (sample_array 0 5 6 7)
              other_vector 2%positive (other_array 0 9) [9]
              (owns_sample_both 0 5 6 7 9) (owns_other_both 0 5 6 7 9) Hl)
    as (v' & h' & b' & arr' & Hrun & _ & _ & Hcap & Hel & _ & Hfree & _).
  exists v', h'. split; [exact Hrun|]. split; [exact Hel|].
  split; [exact Hcap|exact Hfree].
Defined.

Lemma move_assignment_witness :
  owns sample_vector (both_heap 0 5 6 7 9) 1%positive (sample_array 0 5 6 7) /\
  owns other_vector (both_heap 0 5 6 7 9) 2%positive (other_array 0 9) /\
  1%positive <> 2%positive /\
  exists y' v' h',
    move_assign_from other_vector (sample_vector, both_heap 0 5 6 7 9)
    = Ret y' (v', h') /\
    elements v' h' = Some [9] /\ pv y' = None /\
    h' = delete 1%positive (both_heap 0 5 6 7 9).
Proof.
  assert (Hne : 1%positive <> 2%positive) by discriminate.
  split; [apply owns_sample_both|]. split; [apply owns_other_both|].
  split; [exact Hne|].
  destruct (move_assignment_takes_over_array sample_vector
              (both_heap 0 5 6 7 9) 1%positive (sample_array 0 5 6 7)
              other_vector 2%positive (other_array 0 9)
              (owns_sample_both 0 5 6 7 9) (owns_other_both 0 5 6 7 9) Hne)
    as (y' & v' & h' & Hrun & _ & _ & _ & Hel & Hh & Hp & _).
  exists y', v', h'. split; [exact Hrun|].
  split; [rewrite Hel; reflexivity|]. split; [exact Hp|exact Hh].
Defined.

Lemma append_other_witness :
  owns sample_vector (both_heap 0 5 6 7 9) 1%positive (sample_array 0 5 6 7) /\
  owns other_vector (both_heap 0 5 6 7 9) 2%positive (other_array 0 9) /\
  1%positive <> 2%positive /\
  N sample_vector + N other_vector <= INT_MAX /\
  elements sample_vector (both_heap 0 5 6 7 9) = Some [5; 6; 7] /\
  elements other_vector (both_heap 0 5 6 7 9) = Some [9] /\
  exists v' h',
    operator_plus_eq 0 (Other other_vector) (sample_vector, both_heap 0 5 6 7 9)
    = Ret tt (v', h') /\
    elements v' h' = Some ([5; 6; 7] ++ [9]) /\
    capacity v' = capacity sample_vector + capacity other_vector.
Proof.
  assert (Hne : 1%positive <> 2%positive) by discriminate.
  assert (Hov : N sample_vector + N other_vector <= INT_MAX)
    by (unfold INT_MAX; simpl; lia).
  assert (Ha : elements sample_vector (both_heap 0 5 6 7 9) = Some [5; 6; 7])
    by reflexivity.
  assert (Hb : elements other_vector (both_heap 0 5 6 7 9) = Some [9])
    by reflexivity.
  split; [apply owns_sample_both|]. split; [apply owns_other_both|].
  split; [exact Hne|]. split; [exact Hov|]. split; [exact Ha|]. split; [exact Hb|].
  destruct (append_other_reallocates 0 sample_vector
              (both_heap 0 5 6 7 9) 1%positive (sample_array 0 5 6 7)
              other_vector 2%positive (other_array 0 9) [5; 6; 7] [9]
              (owns_sample_both 0 5 6 7 9) (owns_other_both 0 5 6 7 9)
              Hne Hov Ha Hb)
    as (v' & h' & b' & arr' & Hrun & _ & _ & Hcap & Hel & _).
  exists v', h'. split; [exact Hrun|]. split; [exact Hel|exact Hcap].
Defined.

Lemma equality_witness :
  owns sample_vector (both_heap 0 5 6 7 9) 1%positive (sample_array 0 5 6 7) /\
  owns other_vector (both_heap 0 5 6 7 9) 2%positive (other_array 0 9) /\
  elements sample_vector (both_heap 0 5 6 7 9) = Some [5; 6; 7] /\
  elements other_vector (both_heap 0 5 6 7 9) = Some [9] /\
  operator_eq Z.eqb (Other other_vector) (sample_vector, both_heap 0 5 6 7 9)
  = Ret false (sample_vector, both_heap 0 5 6 7 9).
Proof.
  assert (Ha : elements sample_vector (both_heap 0 5 6 7 9) = Some [5; 6; 7])
    by reflexivity.
  assert (Hb : elements other_vector (both_heap 0 5 6 7 9) = Some [9])
    by reflexivity.
  split; [apply owns_sample_both|]. split; [apply owns_other_both|].
  split; [exact Ha|]. split; [exact Hb|].
  destruct (equality_compares_length_then_elements Z.eqb sample_vector
              (both_heap 0 5 6 7 9) 1%positive (sample_array 0 5 6 7)
              other_vector 2%positive (other_array 0 9) [5; 6; 7] [9]
              (owns_sample_both 0 5 6 7 9) (owns_other_both 0 5 6 7 9) Ha Hb)
    as (res & Hrun & _ & _ & Hsz).
  rewrite Hrun. rewrite Hsz; [reflexivity|]. discriminate.
Defined.

Lemma equal_to_its_copy_witness :
  owns sample_vector (sample_heap 0 5 6 7) 1%positive (sample_array 0 5 6 7) /\
  elements sample_vector (sample_heap 0 5 6 7) = Some [5; 6; 7] /\
  exists r h',
    Vector_copy 0 sample_vector (sample_heap 0 5 6 7) = Ret r h' /\
    operator_eq Z.eqb (Other r) (sample_vector, h') = Ret true (sample_vector, h').
Proof.
  assert (Hl : elements sample_vector (sample_heap 0 5 6 7) = Some [5; 6; 7])
    by reflexivity.
  split; [apply owns_sample|]. split; [exact Hl|].
  destruct (equal_to_itself_and_to_its_copy 0 Z.eqb sample_vector
              (sample_heap 0 5 6 7) 1%positive (sample_array 0 5 6 7) [5; 6; 7]
              (owns_sample 0 5 6 7) Hl)
    as (_ & r & h' & res & Hrun & Heq & _ & Hres).
  exists r, h'. split; [exact Hrun|].
  rewrite Heq. f_equal. apply Hres.
  repeat constructor.
Defined.

Lemma print_witness :
  owns sample_vector (sample_heap 0 5 6 7) 1%positive (sample_array 0 5 6 7) /\
  elements sample_vector (sample_heap 0 5 6 7) = Some [5; 6; 7] /\
  operator_shl pretty "v: " sample_vector (sample_heap 0 5 6 7)
  = Ret "v: 5 6 7 " (sample_heap 0 5 6 7).
Proof.
  assert (Hl : elements sample_vector (sample_heap 0 5 6 7) = Some [5; 6; 7])
    by reflexivity.
  split; [apply owns_sample|]. split; [exact Hl|].
  destruct (print_writes_each_element_then_space pretty sample_vector
              (sample_heap 0 5 6 7) 1%positive (sample_array 0 5 6 7) [5; 6; 7]
              "v: " (owns_sample 0 5 6 7) Hl) as (Hrun & _).
  rewrite Hrun. vm_compute. reflexivity.
Defined.

Lemma live_blocks_witness :
  exists w,
    run 0 [Create; Create; InsertBack 0 1; Append 1 0; Assign 0 1; Concat 0 1;
           Swap 0 2]
        (World [] ∅) = Ret tt w /\
    length (objs w) = 3%nat /\
    (forall q, is_Some (hp w !! q) <->
       exists k v, objs w !! k = Some v /\ pv v = Some (Ptr q 0)).
Proof.
  eexists.
  split; [vm_compute; reflexivity|].
  split; [reflexivity|].
  eapply (proj1 (live_blocks_are_the_vectors_arrays 0
            [Create; Create; InsertBack 0 1; Append 1 0; Assign 0 1; Concat 0 1;
             Swap 0 2] _ _)).
  Unshelve. vm_compute. reflexivity.
Defined.
